(** * Google Chat client: structural inference, topic assembly, pagination,
      session cache and batch RPC codec

    A shallow embedding of [src/chat_client.py].  The Python functions are
    transcribed as Rocq functions over a JSON value tree; mutation of the
    accumulators ([spaces], [seen_ids], [topics], [messages],
    [oldest_timestamp]) is written as explicit state passing, exceptions as a
    [result] type, and the network, the clock and the cache file as inputs of
    the functions that consult them.

    Conventions.
    - A Python [str] is a [string]; its characters are the code points below
      256, so [len] is [String.length].  [str.isdigit], [str.lower],
      [str.isupper] and [str.strip] follow Unicode on that range.
    - A Python [int] is a [Z]; [bool] is a subclass of [int] ([True == 1]), so
      where the source accepts [isinstance(x, int)] a JSON boolean is taken as
      the integer it equals.
    - A finite Python [float] is the rational it denotes ([Q]); the one place
      that computes with floats (the age of the cached token) rounds every
      operation to the nearest double, as binary64 arithmetic does. *)

From Stdlib Require Import ZArith QArith_base Qround Qabs Qpower.
From Stdlib Require Import String Ascii List Lia Bool.
From stdpp Require Import base gmap sets list strings pretty sorting.

Set Warnings "-register-all".
Local Open Scope Z_scope.

(** ** Python values *)

Inductive exn :=
| ValueError
| IndexError
| TypeError
| KeyError
| TransportError
| AuthError.

Inductive result (A : Type) :=
| Ok (a : A)
| Raise (e : exn).
Arguments Ok {A} a.
Arguments Raise {A} e.

Definition bind {A B} (r : result A) (k : A -> result B) : result B :=
  match r with
  | Ok a => k a
  | Raise e => Raise e
  end.

Notation "'let*' x ':=' r 'in' k" := (bind r (fun x => k))
  (at level 10, x name, r at level 100, k at level 200).

(** A [for] loop whose body may raise: [f] is the body, the accumulator the
    variables it assigns. *)
Section ForEach.
Context {A B : Type} (f : B -> A -> result B).

Fixpoint for_each (l : list A) (b : B) : result B :=
  match l with
  | [] => Ok b
  | a :: rest => let* b' := f b a in for_each rest b'
  end.
End ForEach.

(** The value tree produced by [json.loads]: [None], [bool], [int], finite
    [float], [str], [list] and [dict] (its items in insertion order, keys
    distinct). *)
Inductive json :=
| JNull
| JBool (b : bool)
| JInt (n : Z)
| JFloat (q : Q)
| JStr (s : string)
| JArr (items : list json)
| JObj (fields : list (string * json)).

Module Py.

Definition ord (c : ascii) : nat := nat_of_ascii c.

Definition between (lo hi : nat) (c : ascii) : bool :=
  Nat.leb lo (ord c) && Nat.leb (ord c) hi.

Definition len (s : string) : nat := String.length s.

(** [s.startswith(p)] *)
Definition startswith (p s : string) : bool := String.prefix p s.

(** [s.find(sub)]: index of the first occurrence, or [None] for -1. *)
Fixpoint find (sub s : string) : option nat :=
  if String.prefix sub s then Some 0%nat
  else match s with
       | EmptyString => None
       | String _ s' => option_map S (find sub s')
       end.

(** [sub in s] *)
Definition contains (sub s : string) : bool :=
  match find sub s with
  | Some _ => true
  | None => false
  end.

(** [s[start:stop]] for [0 <= start] and [0 <= stop]. *)
Definition slice (start stop : nat) (s : string) : string :=
  String.substring start (stop - start) s.

(** [s[:-1]] *)
Fixpoint drop_last (s : string) : string :=
  match s with
  | EmptyString => EmptyString
  | String c EmptyString => EmptyString
  | String c s' => String c (drop_last s')
  end.

Fixpoint all_chars (p : ascii -> bool) (s : string) : bool :=
  match s with
  | EmptyString => true
  | String c s' => p c && all_chars p s'
  end.

Definition is_decimal (c : ascii) : bool := between 48 57 c.

(** Superscript two, three and one: digits for [str.isdigit], refused by
    [int]. *)
Definition is_superscript_digit (c : ascii) : bool :=
  Nat.eqb (ord c) 178 || Nat.eqb (ord c) 179 || Nat.eqb (ord c) 185.

(** [s.isdigit()] *)
Definition isdigit (s : string) : bool :=
  match s with
  | EmptyString => false
  | _ => all_chars (fun c => is_decimal c || is_superscript_digit c) s
  end.

Fixpoint int_digits (acc : Z) (s : string) : option Z :=
  match s with
  | EmptyString => Some acc
  | String c s' =>
      if is_decimal c
      then int_digits (10 * acc + Z.of_nat (ord c - 48)) s'
      else None
  end.

(** [int(s)] for an [s] that passed [isdigit]: [ValueError] on a
    superscript digit, and on more than 4300 digits (the default limit on
    the conversion, leading zeros counted). *)
Definition int_of_str (s : string) : result Z :=
  if Nat.ltb 4300 (len s) then Raise ValueError
  else match int_digits 0 s with
       | Some n => Ok n
       | None => Raise ValueError
       end.

(** [s.isascii()] *)
Definition isascii (s : string) : bool :=
  all_chars (fun c => Nat.ltb (ord c) 128) s.

Definition is_upper_char (c : ascii) : bool :=
  between 65 90 c || (between 192 222 c && negb (Nat.eqb (ord c) 215)).

Definition lower_char (c : ascii) : ascii :=
  if is_upper_char c then ascii_of_nat (ord c + 32) else c.

(** [s.lower()]; on the code points below 256 it maps character by
    character. *)
Fixpoint lower (s : string) : string :=
  match s with
  | EmptyString => EmptyString
  | String c s' => String (lower_char c) (lower s')
  end.

(** [s[0].isupper()], with the [IndexError] of [s[0]] on the empty string. *)
Definition first_isupper (s : string) : result bool :=
  match s with
  | EmptyString => Raise IndexError
  | String c _ => Ok (is_upper_char c)
  end.

(** Characters removed by [str.strip()]. *)
Definition is_space_char (c : ascii) : bool :=
  between 9 13 c || between 28 32 c
  || Nat.eqb (ord c) 133 || Nat.eqb (ord c) 160.

Fixpoint lstrip_by (p : ascii -> bool) (s : string) : string :=
  match s with
  | EmptyString => EmptyString
  | String c s' => if p c then lstrip_by p s' else s
  end.

Fixpoint rstrip_by (p : ascii -> bool) (s : string) : string :=
  match s with
  | EmptyString => EmptyString
  | String c s' =>
      match rstrip_by p s' with
      | EmptyString => if p c then EmptyString else String c EmptyString
      | t => String c t
      end
  end.

(** [s.strip()] *)
Definition strip (s : string) : string :=
  rstrip_by is_space_char (lstrip_by is_space_char s).

(** [s.lstrip(chars)] *)
Definition lstrip_chars (chars s : string) : string :=
  lstrip_by (fun c => contains (String c EmptyString) chars) s.

(** [s.split("\n")] *)
Fixpoint split_lines (s : string) : list string :=
  match s with
  | EmptyString => [EmptyString]
  | String c s' =>
      if Nat.eqb (ord c) 10 then EmptyString :: split_lines s'
      else match split_lines s' with
           | [] => [String c EmptyString]
           | l :: ls => String c l :: ls
           end
  end.

(** Truth value of a Python object. *)
Definition truthy (v : json) : bool :=
  match v with
  | JNull => false
  | JBool b => b
  | JInt n => negb (n =? 0)
  | JFloat q => negb (Qnum q =? 0)
  | JStr s => negb (String.eqb s EmptyString)
  | JArr l => match l with [] => false | _ => true end
  | JObj l => match l with [] => false | _ => true end
  end.

Definition str_truthy (s : string) : bool := negb (String.eqb s EmptyString).

(** [a or b] on optional strings ([None] and the empty string are false). *)
Definition or_str (a b : option string) : option string :=
  match a with
  | Some s => if str_truthy s then a else b
  | None => b
  end.

(** [d.get(k)] on a [dict]; [None] is [JNull]. *)
Fixpoint dict_get (k : string) (fields : list (string * json)) : json :=
  match fields with
  | [] => JNull
  | (k', v) :: rest => if String.eqb k k' then v else dict_get k rest
  end.

End Py.

(** ** Space discovery ([_extract_spaces_from_pblite], [_find_spaces_in_data]) *)

Module Spaces.
Import Py.

(** An entry of the space list: [{"id": .., "name": .., "type": ..}]. *)
Record space := {
  id : string;
  name : option string;
  type : string
}.

(** [len(s) == 11 and s.startswith("AAAA")] *)
Definition is_room_id (s : string) : bool :=
  Nat.eqb (len s) 11 && startswith "AAAA" s.

(** [len(s) == 21 and s.isdigit()] *)
Definition is_dm_id (s : string) : bool :=
  Nat.eqb (len s) 21 && isdigit s.

(** The three locals of the scan of one list item. *)
Record scan := {
  space_id : option string;
  space_name : option string;
  space_type : string
}.

Definition scan_init : scan :=
  {| space_id := None; space_name := None; space_type := "unknown" |}.

Definition set_id (st : scan) (s ty : string) : scan :=
  {| space_id := Some s; space_name := space_name st; space_type := ty |}.

(** [for deep in nested] *)
Definition scan_deep (st : scan) (deep : json) : scan :=
  match deep with
  | JStr s => if is_room_id s then set_id st s "space" else st
  | _ => st
  end.

(** [for nested in sub] *)
Definition scan_nested (st : scan) (nested : json) : scan :=
  match nested with
  | JStr s =>
      if is_room_id s then set_id st s "space"
      else if is_dm_id s then set_id st s "dm"
      else st
  | JArr deeps => fold_left scan_deep deeps st
  | _ => st
  end.

(** [for sub in item] *)
Definition scan_sub (st : scan) (sub : json) : scan :=
  match sub with
  | JStr s =>
      if is_room_id s then set_id st s "space"
      else if is_dm_id s then set_id st s "dm"
      else if Nat.ltb 3 (len s) && Nat.ltb (len s) 100
              && negb (isdigit s) && negb (startswith "http" s)
              && match space_name st with None => true | Some _ => false end
      then {| space_id := space_id st; space_name := Some s;
              space_type := space_type st |}
      else st
  | JArr nesteds => fold_left scan_nested nesteds st
  | _ => st
  end.

Definition scan_item (item : list json) : scan :=
  fold_left scan_sub item scan_init.

(** [if space_id and space_id not in seen_ids: ...] *)
Definition record_space (st : scan) (acc : list space * gset string)
  : list space * gset string :=
  match space_id st with
  | Some sid =>
      if str_truthy sid && negb (bool_decide (sid ∈ acc.2))
      then (acc.1 ++ [{| id := sid; name := space_name st;
                         type := space_type st |}],
            {[sid]} ∪ acc.2)
      else acc
  | None => acc
  end.

(** The inner [find_spaces(arr, depth)]; [acc] is [(spaces, seen_ids)]. *)
Fixpoint find_spaces (arr : json) (depth : nat)
    (acc : list space * gset string) {struct arr}
  : list space * gset string :=
  if Nat.ltb 25 depth then acc
  else match arr with
       | JArr items =>
           fold_left
             (fun acc item =>
                match item with
                | JArr subs =>
                    find_spaces item (S depth)
                      (record_space (scan_item subs) acc)
                | _ => acc
                end) items acc
       | _ => acc
       end.

Definition _extract_spaces_from_pblite (data : json)
    (spaces : list space) (seen_ids : gset string)
  : list space * gset string :=
  find_spaces data 0 (spaces, seen_ids).

(** [any(s["id"] == space_id for s in spaces)] *)
Definition any_id (sid : string) (spaces : list space) : bool :=
  existsb (fun s => String.eqb (id s) sid) spaces.

(** The item loop of [_find_spaces_in_data]: the locals are
    [(space_id, space_name)]; [item[0]] raises on the empty string. *)
Definition name_candidate (item : string) : result bool :=
  if Nat.ltb 3 (len item) && Nat.ltb (len item) 80
     && negb (isdigit item) && negb (startswith "http" item)
     && negb (startswith "AAAA" item) && contains " " item
  then Ok true
  else first_isupper item.

Fixpoint _find_spaces_in_data (data : json) (spaces : list space)
    (depth : nat) {struct data} : result (list space) :=
  if Nat.ltb 30 depth then Ok spaces
  else match data with
       | JObj fields =>
           for_each
             (fun spaces kv => _find_spaces_in_data kv.2 spaces (S depth))
             fields spaces
       | JArr items =>
           let* r :=
             for_each
               (fun (st : option string * option string * list space) item =>
                  let '(sid, sname, spaces) := st in
                  match item with
                  | JStr s =>
                      if is_room_id s then Ok (Some s, sname, spaces)
                      else
                        let* c := name_candidate s in
                        if c
                        then Ok (sid,
                                 match sname with
                                 | None => Some s
                                 | Some _ => sname
                                 end, spaces)
                        else Ok st
                  | JArr _ =>
                      let* spaces' :=
                        _find_spaces_in_data item spaces (S depth) in
                      Ok (sid, sname, spaces')
                  | _ => Ok st
                  end) items (None, None, spaces) in
           let '(sid, sname, spaces') := r in
           match sid with
           | Some s =>
               if str_truthy s && negb (any_id s spaces')
               then Ok (spaces' ++ [{| id := s; name := sname;
                                       type := "space" |}])
               else Ok spaces'
           | None => Ok spaces'
           end
       | _ => Ok spaces
       end.

End Spaces.

(** ** Batch RPC codec ([_execute_search_rpc], [_parse_batchexecute_response],
       [_extract_search_results]) *)

Module BatchRpc.
Import Py.

Definition quote : string := String "034" EmptyString.
Definition backslash : string := String "092" EmptyString.

Definition hex_digit (n : nat) : ascii :=
  if Nat.ltb n 10 then ascii_of_nat (48 + n) else ascii_of_nat (87 + n).

(** One character of a string under [json.dumps] ([ensure_ascii]). *)
Definition escape_char (c : ascii) : string :=
  let n := ord c in
  if Nat.eqb n 34 then backslash +:+ quote
  else if Nat.eqb n 92 then backslash +:+ backslash
  else if Nat.eqb n 10 then backslash +:+ "n"
  else if Nat.eqb n 13 then backslash +:+ "r"
  else if Nat.eqb n 9 then backslash +:+ "t"
  else if Nat.eqb n 8 then backslash +:+ "b"
  else if Nat.eqb n 12 then backslash +:+ "f"
  else if between 32 126 c then String c EmptyString
  else backslash +:+ "u00"
       +:+ String (hex_digit (n / 16)) (String (hex_digit (n mod 16)) EmptyString).

Fixpoint escape (s : string) : string :=
  match s with
  | EmptyString => EmptyString
  | String c s' => escape_char c +:+ escape s'
  end.

Definition dumps_str (s : string) : string := quote +:+ escape s +:+ quote.

(** [",".join(parts)] *)
Fixpoint join_comma (parts : list string) : string :=
  match parts with
  | [] => EmptyString
  | [p] => p
  | p :: rest => p +:+ "," +:+ join_comma rest
  end.

Section Dumps.
(** [repr] of a float; the search parameters hold none. *)
Variable float_repr : Q -> string.

(** [json.dumps(v, separators=(",", ":"))] *)
Fixpoint dumps (v : json) : string :=
  match v with
  | JNull => "null"
  | JBool true => "true"
  | JBool false => "false"
  | JInt n => pretty n
  | JFloat q => float_repr q
  | JStr s => dumps_str s
  | JArr items => "[" +:+ join_comma (map dumps items) +:+ "]"
  | JObj fields =>
      "{" +:+ join_comma
                (map (fun kv => dumps_str kv.1 +:+ ":" +:+ dumps kv.2)
                   fields) +:+ "}"
  end.

Definition nested_flags : json :=
  JArr [JArr [JArr [JArr [JArr [JArr [JInt 1]]]]];
        JArr [JArr [JArr [JInt 1]]]].

Definition search_config (space_id : option string) (search_uuid : string)
  : json :=
  JArr [match space_id with
        | Some sid => if str_truthy sid then JArr [JArr [JStr sid]] else JArr []
        | None => JArr []
        end;
        JNull; JNull; JNull; JStr search_uuid; JNull; JInt 0; nested_flags].

Definition search_params (query : string) (space_id : option string)
    (limit : Z) (search_uuid : string) : list json :=
  [JNull; JNull; JNull; JStr query; JNull; JStr search_uuid;
   JArr [search_config space_id search_uuid; JNull;
         JArr [JInt 3]; JArr [JInt limit]]].

(** The [f.req] payload for a parameter array: serialise, cut the last
    character, wrap. *)
Definition inner_params (params : list json) : string :=
  dumps (JArr params).

Definition inner_params_truncated (params : list json) : string :=
  drop_last (inner_params params).

Definition envelope (inner : string) : json :=
  JArr [JArr [JArr [JStr "SBNmJb"; JStr inner; JNull; JStr "4"]]].

Definition rpc_data_of (params : list json) : string :=
  dumps (envelope (inner_params_truncated params)).

(** [rpc_data] as [_execute_search_rpc] builds it. *)
Definition rpc_data (query : string) (space_id : option string)
    (limit : Z) (search_uuid : string) : string :=
  rpc_data_of (search_params query space_id limit search_uuid).
End Dumps.

(** A search hit: [{"text": .., "snippet": .., "source": ..}]. *)
Record hit := {
  text : string;
  snippet : string;
  source : string
}.

(** The entry appended for a matching string [item]. *)
Definition make_hit (item query : string) : hit :=
  let idx := default 0%nat (find (lower query) (lower item)) in
  let start := Nat.max 0 (idx - 50) in
  let stop := Nat.min (len item) (idx + len query + 50) in
  {| text := item;
     snippet := "..." +:+ slice start stop item +:+ "...";
     source := "server_search" |}.

Fixpoint _extract_search_results (data : json) (query : string)
    (depth : nat) {struct data} : list hit :=
  if Nat.ltb 15 depth then []
  else match data with
       | JArr items =>
           let query_lower := lower query in
           flat_map
             (fun item =>
                match item with
                | JStr s =>
                    if Nat.ltb 10 (len s) && contains query_lower (lower s)
                    then [make_hit s query]
                    else []
                | JArr _ => _extract_search_results item query (S depth)
                | _ => []
                end) items
       | _ => []
       end.

Section Parse.
(** [json.loads]; [None] stands for [JSONDecodeError]. *)
Variable json_loads : string -> option json.

(** The body of the [for] loop over the lines. *)
Definition parse_line (query line : string) : list hit :=
  let line := strip line in
  if negb (str_truthy line) then []
  else if isdigit line then []
  else if startswith "[" line
       then match json_loads line with
            | Some data => _extract_search_results data query 0
            | None => []
            end
       else [].

Definition _parse_batchexecute_response (body query : string) : list hit :=
  let body := strip (lstrip_chars (")]}'") body) in
  flat_map (parse_line query) (split_lines body).
End Parse.

End BatchRpc.

(** ** Topic assembly ([_parse_topics_with_threads]) *)

Module Topics.
Import Py.

(** A message dict.  [sender] is whatever sits at [arr[1][0][0]]. *)
Record message := {
  message_id : option string;
  topic_id : option string;
  space_id : string;
  text : string;
  timestamp : option string;
  timestamp_usec : option Z;
  sender : json;
  is_thread_reply : bool;
  reply_index : nat
}.

(** A topic dict. *)
Record topic := {
  t_topic_id : string;
  t_space_id : string;
  t_timestamp : option Z;
  message_count : nat;
  replies : list message
}.

(** The dict returned by the parser. *)
Record page := {
  messages : list message;
  topics : list topic;
  has_more : bool;
  next_cursor : option Z;
  total_topics : nat;
  total_messages : nat
}.

(** The [nonlocal] accumulators of the traversal. *)
Record acc := {
  acc_topics : list topic;
  acc_messages : list message;
  oldest_timestamp : option Z
}.

(** A timestamp slot: a digit string goes through [int], an [int] (or a
    [bool], which is one) is taken as it is, anything else leaves [None]. *)
Definition int_slot (v : option json) : result (option Z) :=
  match v with
  | Some (JStr s) =>
      if isdigit s then let* n := int_of_str s in Ok (Some n) else Ok None
  | Some (JInt n) => Ok (Some n)
  | Some (JBool b) => Ok (Some (if b then 1 else 0))
  | _ => Ok None
  end.

(** [arr[0][1]] when [arr[0]] is a list and [arr[0][1]] a string. *)
Definition id_slot (arr : list json) : option string :=
  match arr !! 0%nat with
  | Some (JArr head) =>
      match head !! 1%nat with
      | Some (JStr s) => Some s
      | _ => None
      end
  | _ => None
  end.

(** [m.get("timestamp_usec") or 0] *)
Definition sort_key (m : message) : Z := default 0 (timestamp_usec m).

(** A stable sort, as [sorted] and [list.sort] are: [insert_by] puts [x]
    before the first element it may precede. *)
Fixpoint insert_by {A} (le : A -> A -> bool) (x : A) (l : list A) : list A :=
  match l with
  | [] => [x]
  | y :: l' => if le x y then x :: l else y :: insert_by le x l'
  end.

Definition sort_by {A} (le : A -> A -> bool) (l : list A) : list A :=
  foldr (insert_by le) [] l.

(** [sorted(msgs, key=...)] *)
Definition sorted_asc (l : list message) : list message :=
  sort_by (fun a b => sort_key a <=? sort_key b) l.

(** [msgs.sort(key=..., reverse=True)] *)
Definition sorted_desc (l : list message) : list message :=
  sort_by (fun a b => sort_key b <=? sort_key a) l.

(** [msg["is_thread_reply"] = i > 0; msg["reply_index"] = i] *)
Definition mark (i : nat) (m : message) : message :=
  {| message_id := message_id m; topic_id := topic_id m;
     space_id := space_id m; text := text m; timestamp := timestamp m;
     timestamp_usec := timestamp_usec m; sender := sender m;
     is_thread_reply := Nat.ltb 0 i; reply_index := i |}.

(** The oldest-timestamp update for one message. *)
Definition track_oldest (oldest : option Z) (m : message) : option Z :=
  match timestamp_usec m with
  | Some ts =>
      if negb (ts =? 0)
      then match oldest with
           | None => Some ts
           | Some o => if ts <? o then Some ts else oldest
           end
      else oldest
  | None => oldest
  end.

(** [text_key = msg.get("text", "")[:100]] *)
Definition text_key (m : message) : string := slice 0 100 (text m).

(** The deduplication loop, written twice in the source (once per key):
    keep a message when its key is not in [seen], and add the key. *)
Fixpoint dedupe_by (key : message -> string) (seen : gset string)
    (msgs : list message) : list message :=
  match msgs with
  | [] => []
  | msg :: rest =>
      if bool_decide (key msg ∈ seen)
      then dedupe_by key seen rest
      else msg :: dedupe_by key ({[key msg]} ∪ seen) rest
  end.

(** The loop over [seen_texts] of the parser. *)
Definition dedupe (seen_texts : gset string) (msgs : list message)
  : list message :=
  dedupe_by text_key seen_texts msgs.

Section Parser.
(** [datetime.fromtimestamp(ts / 1_000_000).strftime(..)]: the local-time
    rendering, [None] when it raises. *)
Variable strftime_usec : Z -> option string.
Variable the_space_id : string.

Definition parse_timestamp (ts : option Z) : option string * option Z :=
  match ts with
  | None => (None, None)
  | Some n =>
      if n =? 0 then (None, None)
      else if 1000000000000 <? n
           then match strftime_usec n with
                | Some str => (Some str, Some n)
                | None => (None, Some n)
                end
           else (None, Some n)
  end.

Definition try_parse_message (arr : json) (tid : option string)
  : result (option message) :=
  match arr with
  | JArr arr =>
      if Nat.ltb (length arr) 10 then Ok None
      else
        let msg_text :=
          match arr !! 9%nat with
          | Some (JStr s) => Some s
          | _ => None
          end in
        let* msg_timestamp := int_slot (arr !! 2%nat) in
        let msg_id := id_slot arr in
        let msg_sender :=
          match arr !! 1%nat with
          | Some (JArr a1) =>
              match a1 !! 0%nat with
              | Some (JArr (x :: _)) => x
              | _ => JNull
              end
          | _ => JNull
          end in
        match msg_text with
        | Some txt =>
            if str_truthy txt
            then let '(ts_str, ts_usec) := parse_timestamp msg_timestamp in
                 Ok (Some {| message_id := msg_id; topic_id := tid;
                             space_id := the_space_id; text := txt;
                             timestamp := ts_str; timestamp_usec := ts_usec;
                             sender := msg_sender;
                             is_thread_reply := false;
                             reply_index := 0 |})
            else Ok None
        | None => Ok None
        end
  | _ => Ok None
  end.

(** The loop over [arr[6]]. *)
Fixpoint slot_messages (msg_arrs : list json) (tid : option string)
  : result (list message) :=
  match msg_arrs with
  | [] => Ok []
  | msg_arr :: rest =>
      match msg_arr with
      | JArr _ =>
          let* msg := try_parse_message msg_arr tid in
          let* more := slot_messages rest tid in
          Ok (match msg with Some m => m :: more | None => more end)
      | _ => slot_messages rest tid
      end
  end.

(** The block under [if topic_id and topic_messages]. *)
Definition add_topic (tid : option string) (topic_timestamp : option Z)
    (topic_messages : list message) (st : acc) : acc :=
  match tid, topic_messages with
  | Some t, _ :: _ =>
      if str_truthy t
      then
        let sorted_msgs := imap mark (sorted_asc topic_messages) in
        {| acc_topics :=
             acc_topics st ++
             [{| t_topic_id := t; t_space_id := the_space_id;
                 t_timestamp := topic_timestamp;
                 message_count := length sorted_msgs;
                 replies := sorted_msgs |}];
           acc_messages := acc_messages st ++ sorted_msgs;
           oldest_timestamp :=
             fold_left track_oldest topic_messages (oldest_timestamp st) |}
      else st
  | _, _ => st
  end.

Fixpoint extract_topic_and_messages (arr : json) (depth : nat)
    (parent_topic_id : option string) (st : acc) {struct arr}
  : result acc :=
  if Nat.ltb 30 depth then Ok st
  else match arr with
       | JArr items =>
           let tid := id_slot items in
           let* topic_timestamp := int_slot (items !! 1%nat) in
           let* topic_messages :=
             match items !! 6%nat with
             | Some (JArr msg_arrs) =>
                 slot_messages msg_arrs (or_str tid parent_topic_id)
             | _ => Ok []
             end in
           let* r :=
             match topic_messages with
             | [] =>
                 for_each
                   (fun (r : list message * acc) item =>
                      match item with
                      | JArr _ =>
                          let* msg :=
                            try_parse_message item
                              (or_str tid parent_topic_id) in
                          match msg with
                          | Some m => Ok (r.1 ++ [m], r.2)
                          | None =>
                              let* st' :=
                                extract_topic_and_messages item (S depth)
                                  (or_str tid parent_topic_id) r.2 in
                              Ok (r.1, st')
                          end
                      | _ => Ok r
                      end) items ([], st)
             | _ => Ok (topic_messages, st)
             end in
           Ok (add_topic tid topic_timestamp r.1 r.2)
       | _ => Ok st
       end.

(** [data[0][1]] when it is a list. *)
Definition topics_array (data : json) : option (list json) :=
  match data with
  | JArr (JArr d0 :: _) =>
      match d0 !! 1%nat with
      | Some (JArr ts) => Some ts
      | _ => None
      end
  | _ => None
  end.

Definition each_topic (topic_datas : list json) (st : acc) : result acc :=
  for_each
    (fun st topic_data => extract_topic_and_messages topic_data 0 None st)
    topic_datas st.

(** [data[4] is True] *)
Definition contains_last_topic (data : json) : bool :=
  match data with
  | JArr items =>
      match items !! 4%nat with
      | Some (JBool true) => true
      | _ => false
      end
  | _ => false
  end.

Definition acc_init : acc :=
  {| acc_topics := []; acc_messages := []; oldest_timestamp := None |}.

Definition _parse_topics_with_threads (data : json) : result page :=
  let* st :=
    match topics_array data with
    | Some (t :: ts) => each_topic (t :: ts) acc_init
    | _ => extract_topic_and_messages data 0 None acc_init
    end in
  let unique_messages := dedupe ∅ (sorted_desc (acc_messages st)) in
  let has_more :=
    Nat.ltb 0 (length (acc_topics st))
    && negb (contains_last_topic data)
    && match oldest_timestamp st with Some _ => true | None => false end in
  Ok {| messages := unique_messages;
        topics := acc_topics st;
        has_more := has_more;
        next_cursor := oldest_timestamp st;
        total_topics := length (acc_topics st);
        total_messages := length unique_messages |}.
End Parser.

End Topics.

(** ** Pagination ([get_all_messages])

    [get_messages_paginated] builds a protobuf request, posts it and hands
    the response to [_parse_topics_with_threads]; the loop below takes the
    whole call, with whatever it raises, as a function of the cursor. *)

Module Pagination.
Import Py Topics.

(** [not result["next_cursor"]], negated *)
Definition cursor_truthy (c : option Z) : bool :=
  match c with
  | Some n => negb (n =? 0)
  | None => false
  end.

(** [key = msg.get("message_id") or msg.get("text", "")[:50]] *)
Definition page_key (m : message) : string :=
  match message_id m with
  | Some mid => if str_truthy mid then mid else slice 0 50 (text m)
  | None => slice 0 50 (text m)
  end.

(** The final deduplication loop of [get_all_messages]. *)
Definition dedupe_all (seen : gset string) (msgs : list message)
  : list message :=
  dedupe_by page_key seen msgs.

Section Loop.
Variable World : Type.
(** [self.get_messages_paginated(space_id=.., page_size=..,
    before_timestamp=cursor, include_replies=..)], as a function of the
    cursor. *)
Variable fetch_page : option Z -> World -> result page * World.

(** The [for page_num in range(max_pages)] loop, [pages_left] iterations
    from the end. *)
Fixpoint page_loop (pages_left : nat) (cursor : option Z)
    (all_messages : list message) (w : World)
  : result (list message) * World :=
  match pages_left with
  | O => (Ok all_messages, w)
  | S pages_left' =>
      let '(r, w') := fetch_page cursor w in
      match r with
      | Raise e => (Raise e, w')
      | Ok result =>
          let all_messages' := all_messages ++ messages result in
          if negb (has_more result)
             || negb (cursor_truthy (next_cursor result))
          then (Ok all_messages', w')
          else page_loop pages_left' (next_cursor result) all_messages' w'
      end
  end.

Definition get_all_messages_with (max_pages : Z) (w : World)
  : result (list message) * World :=
  let '(r, w') := page_loop (Z.to_nat max_pages) None [] w in
  (let* all_messages := r in Ok (dedupe_all ∅ all_messages), w').
End Loop.

(** A world that also keeps the log of the page requests made: the cursor
    of each call and what came back. *)
Definition logged (World : Type) : Type :=
  (World * list (option Z * result page))%type.

Definition logging {World : Type}
    (fetch_page : option Z -> World -> result page * World)
    (cursor : option Z) (w : logged World) : result page * logged World :=
  let '(r, w') := fetch_page cursor w.1 in
  (r, (w', w.2 ++ [(cursor, r)])).

End Pagination.

(** ** Double-precision arithmetic

    Python's [float] is the IEEE 754 binary64 format: 53 significant bits,
    exponents from -1074 (the last place of the subnormal numbers) to 1023,
    every operation rounded to the nearest double, a tie going to the one
    with an even significand. *)

Module Float.

(** [2 ^ k] for an integer [k]. *)
Definition pow2 (k : Z) : Q := Qpower (inject_Z 2) k.

(** [floor (log2 x)] for [0 < x]. *)
Definition ilog2 (x : Q) : Z :=
  let e := Z.log2 (Qnum x) - Z.log2 (Z.pos (Qden x)) in
  if Qle_bool (pow2 e) x then e else e - 1.

(** The nearest integer, a tie going to the even one. *)
Definition round_even (q : Q) : Z :=
  let f := Qfloor q in
  match Qcompare (Qminus q (inject_Z f)) (1 # 2) with
  | Lt => f
  | Gt => f + 1
  | Eq => if Z.even f then f else f + 1
  end.

(** The exponent of the last place of the doubles next to [x]. *)
Definition quantum (x : Q) : Z := Z.max (ilog2 (Qabs x) - 52) (-1074).

(** [x] rounded to 53 significant bits, the exponent unbounded above. *)
Definition nearest (x : Q) : Q :=
  Qmult (inject_Z (round_even (Qdiv x (pow2 (quantum x)))))
    (pow2 (quantum x)).

Inductive float :=
| Finite (q : Q)
| PosInf
| NegInf
| NaN.

(** The double nearest to [x]: an infinity from [2 ^ 1024] on. *)
Definition round64 (x : Q) : float :=
  let y := nearest x in
  if Qle_bool (pow2 1024) y then PosInf
  else if Qle_bool y (Qopp (pow2 1024)) then NegInf
  else Finite (Qred y).

(** A double is a multiple of the last place at its own size. *)
Definition is_double (t : Q) : Prop :=
  exists m, Qeq t (Qmult (inject_Z m) (pow2 (quantum t))).

(** [a - b] on finite doubles. *)
Definition sub (a b : Q) : float := round64 (Qminus a b).

(** [a / d] for a finite [d] above zero. *)
Definition div (a : float) (d : Q) : float :=
  match a with
  | Finite x => round64 (Qdiv x d)
  | _ => a
  end.

(** [a < b] for a finite [b]. *)
Definition ltb (a : float) (b : Q) : bool :=
  match a with
  | Finite x => negb (Qle_bool b x)
  | NegInf => true
  | PosInf | NaN => false
  end.

(** The double a JSON value is as an operand of float arithmetic; [None]
    where the operation raises: [TypeError], or [OverflowError] on an [int]
    that no finite double is nearest to.  A JSON float holds its value. *)
Definition operand (v : json) : option Q :=
  match v with
  | JInt n =>
      match round64 (inject_Z n) with
      | Finite q => Some q
      | _ => None
      end
  | JFloat q => Some q
  | JBool b => Some (inject_Z (if b then 1 else 0))
  | _ => None
  end.

End Float.

(** ** Session ([_load_auth_cache], [refresh_tokens]) *)

Module Session.
Import Py.

(** [(now - cached_at) / 3600] *)
Definition age_hours (now cached_at : Q) : Float.float :=
  Float.div (Float.sub now cached_at) (inject_Z 3600).

(** [_load_auth_cache]: [cache_file] is the parsed content of the cache
    file, [None] when the file is missing or does not parse. *)
Definition _load_auth_cache (cache_file : option json) (now : Q)
  : option (list (string * json)) :=
  match cache_file with
  | Some (JObj data) =>
      if truthy (dict_get "xsrf_token" data)
         && truthy (dict_get "cached_at" data)
      then match Float.operand (dict_get "cached_at" data) with
           | Some cached_at =>
               if Float.ltb (age_hours now cached_at) (inject_Z 24)
               then Some data
               else None
           | None => None
           end
      else None
  | _ => None
  end.

Fixpoint dict_get_default (k : string) (fields : list (string * json))
    (d : json) : json :=
  match fields with
  | [] => d
  | (k', v) :: rest =>
      if String.eqb k k' then v else dict_get_default k rest d
  end.

(** The attributes of the client that the calls below read or write. *)
Record client := {
  xsrf_token : json;
  _mole_world_body : option json;
  api_reqid : Z
}.

Record response := {
  status : Z;
  body : string
}.

(** The environment of one call: the cache file, the clock (the double
    [datetime.now().timestamp()] returns), what the bootstrap endpoint
    answers, and the count of requests sent to it. *)
Record world := {
  cache_file : option json;
  cache_writable : bool;
  now : Q;
  mole_world : result response;
  bootstrap_calls : nat
}.

Definition set_token (c : client) (tok : json) : client :=
  {| xsrf_token := tok; _mole_world_body := _mole_world_body c;
     api_reqid := api_reqid c |}.

(** [_save_auth_cache] *)
Definition _save_auth_cache (tok : json) (mole_world_body : string)
    (w : world) : world :=
  if cache_writable w
  then {| cache_file :=
            Some (JObj [("xsrf_token", tok);
                        ("mole_world_body", JStr mole_world_body);
                        ("cached_at", JFloat (now w))]);
          cache_writable := cache_writable w; now := now w;
          mole_world := mole_world w;
          bootstrap_calls := bootstrap_calls w |}
  else w.

Section Refresh.
(** The [WIZ_global_data] object found in a body by the regular
    expression and [json.loads]: [None] without a match, [Some (Raise _)]
    when the match does not parse. *)
Variable wiz_global_data : string -> option (result (list (string * json))).

Definition refresh_tokens (force_refresh : bool) (c : client) (w : world)
  : result unit * client * world :=
  match
    (if force_refresh then None
     else _load_auth_cache (cache_file w) (now w))
  with
  | Some cached =>
      (Ok tt,
       {| xsrf_token := dict_get "xsrf_token" cached;
          _mole_world_body :=
            Some (dict_get_default "mole_world_body" cached
                    (JStr EmptyString));
          api_reqid := api_reqid c |},
       w)
  | None =>
      let w1 :=
        {| cache_file := cache_file w; cache_writable := cache_writable w;
           now := now w; mole_world := mole_world w;
           bootstrap_calls := S (bootstrap_calls w) |} in
      match mole_world w with
      | Raise e => (Raise e, c, w1)
      | Ok resp =>
          if negb (status resp =? 200) then (Raise AuthError, c, w1)
          else match wiz_global_data (body resp) with
               | None => (Raise AuthError, c, w1)
               | Some (Raise e) => (Raise e, c, w1)
               | Some (Ok wiz_data) =>
                   if match dict_get "qwAQke" wiz_data with
                      | JStr s => String.eqb s "AccountsSignInUi"
                      | _ => false
                      end
                   then (Raise AuthError, c, w1)
                   else
                     let tok := dict_get "SMqcke" wiz_data in
                     if negb (truthy tok)
                     then (Raise AuthError, set_token c tok, w1)
                     else
                       (Ok tt,
                        {| xsrf_token := tok;
                           _mole_world_body := Some (JStr (body resp));
                           api_reqid := api_reqid c |},
                        _save_auth_cache tok (body resp) w1)
               end
      end
  end.
End Refresh.

End Session.

(** ** Search ([server_search], [_execute_search_rpc]) *)

Module ServerSearch.
Import Py BatchRpc Session.

(** [l[:n]] *)
Definition take_upto {A} (n : Z) (l : list A) : list A :=
  if 0 <=? n then take (Z.to_nat n) l
  else take (length l - Z.to_nat (- n)) l.

(** [hash(x)] raises [TypeError] on a list or a dict. *)
Definition hashable (v : json) : bool :=
  match v with
  | JArr _ | JObj _ => false
  | _ => true
  end.

(** The environment of a search: the session's, the UUID drawn for the
    request, and what the batch endpoint answers to a given [f.req]. *)
Record env := {
  session_world : world;
  search_uuid : string;
  batchexecute : string -> result response
}.

Definition with_session (e : env) (w : world) : env :=
  {| session_world := w; search_uuid := search_uuid e;
     batchexecute := batchexecute e |}.

Section Orchestrator.
Variable json_loads : string -> option json.
Variable float_repr : Q -> string.
Variable wiz_global_data : string -> option (result (list (string * json))).
(** The dicts returned by the local search, and
    [_local_search_all_spaces(query, limit)] itself. *)
Variable local_match : Type.
Variable _local_search_all_spaces :
  string -> Z -> client -> env -> result (list local_match) * client * env.

(** What the [try] block of [_execute_search_rpc] returns for an outcome
    of the POST. *)
Definition rpc_result (query : string) (limit : Z)
    (outcome : result response) : option (list hit) :=
  match outcome with
  | Raise _ => None
  | Ok resp =>
      if negb (status resp =? 200) then None
      else match _parse_batchexecute_response json_loads (body resp) query with
           | [] => None
           | results => Some (take_upto limit results)
           end
  end.

Definition _execute_search_rpc (query : string) (space_id : option string)
    (limit : Z) (c : client) (e : env) : result (option (list hit)) :=
  let payload := rpc_data float_repr query space_id limit (search_uuid e) in
  if negb (hashable (xsrf_token c)) then Raise TypeError
  else Ok (rpc_result query limit (batchexecute e payload)).

Definition bump_reqid (c : client) : client :=
  {| xsrf_token := xsrf_token c; _mole_world_body := _mole_world_body c;
     api_reqid := api_reqid c + 1 |}.

(** [if not self.xsrf_token: await self.refresh_tokens()] *)
Definition ensure_token (c : client) (e : env)
  : result unit * client * env :=
  if negb (truthy (xsrf_token c))
  then let '(r, c', w') :=
         refresh_tokens wiz_global_data false c (session_world e) in
       (r, c', with_session e w')
  else (Ok tt, c, e).

(** The result is a list of server hits ([inl]) or of local matches
    ([inr]). *)
Definition server_search (query : string) (space_id : option string)
    (limit : Z) (c : client) (e : env)
  : result (list hit + list local_match) * client * env :=
  let '(r, c1, e1) := ensure_token c e in
  match r with
  | Raise ex => (Raise ex, c1, e1)
  | Ok _ =>
      let c2 := bump_reqid c1 in
      match _execute_search_rpc query space_id limit c2 e1 with
      | Raise ex => (Raise ex, c2, e1)
      | Ok (Some result) => (Ok (inl result), c2, e1)
      | Ok None =>
          let '(r, c3, e3) := _local_search_all_spaces query limit c2 e1 in
          (let* found := r in Ok (inr found), c3, e3)
      end
  end.
End Orchestrator.

End ServerSearch.

(** ** The local search behind the fallback ([_local_search_all_spaces],
       [search_all_spaces], the first lines of [list_spaces]) *)

Module LocalSearch.
Import Py ServerSearch.

(** [s["id"]] *)
Definition entry_id (s : json) : result json :=
  match s with
  | JObj fields =>
      match List.find (fun kv => String.eqb kv.1 "id") fields with
      | Some kv => Ok kv.2
      | None => Raise KeyError
      end
  | _ => Raise TypeError
  end.

(** The elements a [for] takes from a value: the items of a list, the keys
    of a dict, the characters of a string; the other values are not
    iterable. *)
Definition iterate (v : json) : result (list json) :=
  match v with
  | JArr items => Ok items
  | JObj fields => Ok (map (fun kv => JStr kv.1) fields)
  | JStr s =>
      Ok (map (fun c => JStr (String c EmptyString))
            (list_ascii_of_string s))
  | _ => Raise TypeError
  end.

(** [{s["id"] for s in spaces}]: the identifiers in the order met. *)
Definition seen_ids_of (spaces : json) : result (list json) :=
  let* items := iterate spaces in
  for_each
    (fun seen s =>
       let* v := entry_id s in
       if hashable v then Ok (seen ++ [v]) else Raise TypeError)
    items [].

Section Fallback.
Variable World : Type.
Variable local_match : Type.
(** The rest of [list_spaces] (the discovery under its [try], the naming
    loop and the saving), from the loaded list and its identifiers. *)
Variable discover : json -> list json -> World -> result json * World.
(** The loop of [search_all_spaces] over the spaces. *)
Variable scan_spaces :
  json -> string -> Z -> Z -> World -> result (list local_match) * World.

(** [list_spaces()]: [_spaces_cache] is the attribute, [known_spaces] what
    [_load_known_spaces] returns. *)
Definition list_spaces (_spaces_cache known_spaces : json) (w : World)
  : result json * World :=
  if truthy _spaces_cache then (Ok _spaces_cache, w)
  else match seen_ids_of known_spaces with
       | Raise e => (Raise e, w)
       | Ok seen_ids => discover known_spaces seen_ids w
       end.

Definition search_all_spaces (_spaces_cache known_spaces : json)
    (query : string) (max_spaces messages_per_space : Z) (w : World)
  : result (list local_match) * World :=
  match list_spaces _spaces_cache known_spaces w with
  | (Raise e, w') => (Raise e, w')
  | (Ok spaces, w') =>
      scan_spaces spaces query max_spaces messages_per_space w'
  end.

Definition _local_search_all_spaces (_spaces_cache known_spaces : json)
    (query : string) (limit : Z) (w : World)
  : result (list local_match) * World :=
  search_all_spaces _spaces_cache known_spaces query 10 limit w.
End Fallback.

End LocalSearch.

(** ** Positions in a response tree *)

Module Tree.

(** [child_at d root v]: [v] is an element of a list that lies [d] lists
    below [root], reached through lists only ([root] itself at [d = 0]). *)
Inductive child_at : nat -> json -> json -> Prop :=
| child_here items v :
    v ∈ items -> child_at 0 (JArr items) v
| child_below d items sub v :
    JArr sub ∈ items -> child_at d (JArr sub) v ->
    child_at (S d) (JArr items) v.

End Tree.

(** ** Vocabulary of the statements on space discovery *)

Module SpacesSpec.
Import Py Spaces.

(** A scan that holds a room identifier holds the type that goes with it. *)
Definition room_typed (st : scan) : Prop :=
  forall s, space_id st = Some s -> is_room_id s = true ->
            space_type st = "space".

(** [extends acc acc']: the pass only adds, and every room identifier it
    adds to [seen_ids] comes with an entry of type ["space"]. *)
Definition extends (acc acc' : list space * gset string) : Prop :=
  acc.2 ⊆ acc'.2
  /\ (forall e, e ∈ acc.1 -> e ∈ acc'.1)
  /\ (forall s, s ∈ acc'.2 -> s ∉ acc.2 -> is_room_id s = true ->
                exists e, e ∈ acc'.1 /\ id e = s /\ type e = "space").

(** The identifier candidates of a list, in the order the scan meets them:
    its strings of 11 characters beginning with AAAA or of 21 digits, those
    of its sub-lists, and the strings of 11 characters beginning with AAAA
    of the lists inside its sub-lists. *)
Definition deep_candidates (deep : json) : list string :=
  match deep with
  | JStr s => if Nat.eqb (len s) 11 && startswith "AAAA" s then [s] else []
  | _ => []
  end.

Definition nested_candidates (nested : json) : list string :=
  match nested with
  | JStr s =>
      if (Nat.eqb (len s) 11 && startswith "AAAA" s)
         || (Nat.eqb (len s) 21 && isdigit s)
      then [s] else []
  | JArr deeps => flat_map deep_candidates deeps
  | _ => []
  end.

Definition sub_candidates (sub : json) : list string :=
  match sub with
  | JStr s =>
      if (Nat.eqb (len s) 11 && startswith "AAAA" s)
         || (Nat.eqb (len s) 21 && isdigit s)
      then [s] else []
  | JArr nesteds => flat_map nested_candidates nesteds
  | _ => []
  end.

Definition candidates (subs : list json) : list string :=
  flat_map sub_candidates subs.

End SpacesSpec.

(** ** Vocabulary of the statements on topic assembly *)

Module TopicsSpec.
Import Py Topics.

(** Order of the sort keys: the timestamp, a missing one counted as 0. *)
Definition by_timestamp (a b : message) : Prop := sort_key a <= sort_key b.

(** What holds of every topic the traversal appends. *)
Definition topic_ok (t : topic) : Prop :=
  replies t <> []
  /\ str_truthy (t_topic_id t) = true
  /\ message_count t = length (replies t)
  /\ StronglySorted by_timestamp (replies t)
  /\ forall i m, replies t !! i = Some m ->
                 reply_index m = i
                 /\ is_thread_reply m = Nat.ltb 0 i
                 /\ topic_id m = Some (t_topic_id t).

(** What holds of the accumulators throughout the traversal. *)
Definition acc_ok (st : acc) : Prop :=
  Forall topic_ok (acc_topics st)
  /\ forall m, m ∈ acc_messages st ->
               exists t, t ∈ acc_topics st /\ m ∈ replies t.

End TopicsSpec.

(** ** Sample responses *)

Module Samples.
Import Topics.

(** A message array: id at [0][1], sender at [1][0][0], timestamp at [2],
    text at [9]. *)
Definition message_arr (mid sender ts txt : string) : json :=
  JArr [JArr [JNull; JStr mid]; JArr [JArr [JStr sender]]; JStr ts;
        JNull; JNull; JNull; JNull; JNull; JNull; JStr txt].

(** A topic array: id at [0][1], timestamp at [1], messages at [6]. *)
Definition topic_arr (tid ts : string) (msgs : list json) : json :=
  JArr [JArr [JNull; JStr tid]; JStr ts; JNull; JNull; JNull; JNull;
        JArr msgs].

(** A [list_topics] response with one topic of two messages, the reply
    listed first. *)
Definition response : json :=
  JArr [JArr [JNull;
              JArr [topic_arr "T1" "1700000000000000"
                      [message_arr "M2" "u2" "1700000000000500" "a reply";
                       message_arr "M1" "u1" "1700000000000000"
                         "hello world"]]]].

Definition no_format (usec : Z) : option string := None.

Definition empty_page : page :=
  {| messages := []; topics := []; has_more := false; next_cursor := None;
     total_topics := 0; total_messages := 0 |}.

Definition parsed : page :=
  Eval vm_compute in
    match _parse_topics_with_threads no_format "S" response with
    | Ok p => p
    | Raise _ => empty_page
    end.

Definition first_topic : topic :=
  Eval vm_compute in
    match topics parsed with
    | t :: _ => t
    | [] => {| t_topic_id := ""; t_space_id := ""; t_timestamp := None;
               message_count := 0; replies := [] |}
    end.

Definition first_message : message :=
  Eval vm_compute in
    match messages parsed with
    | m :: _ => m
    | [] => {| message_id := None; topic_id := None; space_id := "";
               text := ""; timestamp := None; timestamp_usec := None;
               sender := JNull; is_thread_reply := false; reply_index := 0 |}
    end.

(** A response with two topics whose messages have the same text. *)
Definition echo_response : json :=
  JArr [JArr [JNull;
              JArr [topic_arr "T1" "1700000000000000"
                      [message_arr "M1" "u1" "1700000000000000"
                         "hello world"];
                    topic_arr "T2" "1700000000000900"
                      [message_arr "M3" "u2" "1700000000000900"
                         "hello world"]]]].

Definition echo_parsed : page :=
  Eval vm_compute in
    match _parse_topics_with_threads no_format "S" echo_response with
    | Ok p => p
    | Raise _ => empty_page
    end.

(** A message array with text under no topic identifier. *)
Definition orphan : json :=
  JArr [message_arr "M1" "u1" "1700000000000000" "hello world"].

End Samples.

(** ** Vocabulary of the statements on pagination *)

Module PaginationSpec.
Import Py Topics Pagination.

Section Pages.
Variable World : Type.
Variable fetch_page : option Z -> World -> result page * World.

(** The pages the loop obtains, in order. *)
Fixpoint fetched_pages (pages_left : nat) (cursor : option Z) (w : World)
  : list page :=
  match pages_left with
  | O => []
  | S pages_left' =>
      match fetch_page cursor w with
      | (Ok result, w') =>
          result ::
          (if negb (has_more result)
              || negb (cursor_truthy (next_cursor result))
           then []
           else fetched_pages pages_left' (next_cursor result) w')
      | (Raise _, _) => []
      end
  end.
End Pages.

(** The key across pages: the message identifier, or the first 50
    characters of the text when the identifier is missing or empty. *)
Definition id_or_prefix (m : message) : string :=
  match message_id m with
  | Some (String c s) => String c s
  | _ => slice 0 50 (text m)
  end.

(** A backend stuck on one cursor: every page has one message, reports
    [has_more] and gives the cursor 5 again. *)
Definition stuck_page : page :=
  {| messages :=
       [{| message_id := Some "M1"; topic_id := Some "T1"; space_id := "S";
           text := "hello world"; timestamp := None;
           timestamp_usec := Some 5; sender := JNull;
           is_thread_reply := false; reply_index := 0 |}];
     topics := []; has_more := true; next_cursor := Some 5;
     total_topics := 0; total_messages := 1 |}.

Definition stuck_backend (cursor : option Z) (w : unit)
  : result page * unit :=
  (Ok stuck_page, w).

(** A backend with two pages: the second repeats the message [M1] and the
    text of the message without identifier, and brings [M4]. *)
Definition sample_message (mid : option string) (txt : string) (ts : Z)
  : message :=
  {| message_id := mid; topic_id := Some "T1"; space_id := "S";
     text := txt; timestamp := None; timestamp_usec := Some ts;
     sender := JNull; is_thread_reply := false; reply_index := 0 |}.

Definition first_page : page :=
  {| messages := [sample_message (Some "M1") "hello world" 9;
                  sample_message None "no identifier here" 8];
     topics := []; has_more := true; next_cursor := Some 8;
     total_topics := 0; total_messages := 2 |}.

Definition second_page : page :=
  {| messages := [sample_message (Some "M1") "hello again" 7;
                  sample_message None "no identifier here" 6;
                  sample_message (Some "M4") "hello world" 5];
     topics := []; has_more := false; next_cursor := Some 5;
     total_topics := 0; total_messages := 3 |}.

Definition two_pages (cursor : option Z) (w : unit) : result page * unit :=
  (Ok (match cursor with None => first_page | Some _ => second_page end), w).

End PaginationSpec.

(** ** Vocabulary of the statements on the session cache and on search *)

Module SessionSpec.
Import Py Session.

(** 24 hours, in the seconds of the clock. *)
Definition day : Q := inject_Z 86400.

(** The distance from [day] to the double below it: [2 ^ -36] second. *)
Definition last_place : Q := 1 # 68719476736.

(** The age of the cache in hours as double arithmetic gives it: the
    difference and the quotient both rounded. *)
Definition double_age (now cached_at : Q) : Float.float :=
  Float.div (Float.round64 (Qminus now cached_at)) (inject_Z 3600).

(** The cache file holds the token [tok] and a time stamp that float
    arithmetic takes as the double [cached_at] (a float is that double, an
    [int] the double nearest to it). *)
Definition cached (w : world) (tok : json) (cached_at : Q) : Prop :=
  exists data,
    cache_file w = Some (JObj data)
    /\ dict_get "xsrf_token" data = tok
    /\ truthy tok = true
    /\ truthy (dict_get "cached_at" data) = true
    /\ Float.operand (dict_get "cached_at" data) = Some cached_at.

Definition sample_client : client :=
  {| xsrf_token := JNull; _mole_world_body := None; api_reqid := 0 |}.

(** A cache written at second 1000, read at second [at_second]; the
    bootstrap endpoint is down. *)
Definition sample_world (at_second : Z) : world :=
  {| cache_file :=
       Some (JObj [("xsrf_token", JStr "tok123");
                   ("mole_world_body", JStr "<html>");
                   ("cached_at", JInt 1000)]);
     cache_writable := true;
     now := inject_Z at_second;
     mole_world := Raise TransportError;
     bootstrap_calls := 0 |}.

Definition no_wiz (body : string)
  : option (result (list (string * json))) := None.



End SessionSpec.

Module SearchSpec.
Import Py BatchRpc Session ServerSearch.


Definition no_float (q : Q) : string := EmptyString.

(** A client that holds a token, and a batch endpoint that answers 500. *)
Definition sample_client : client :=
  {| xsrf_token := JStr "tok123"; _mole_world_body := None; api_reqid := 7 |}.


(** A local search that finds one match. *)
Definition sample_local (query : string) (limit : Z) (c : client) (e : env)
  : result (list string) * client * env :=
  (Ok ["We will deploy tonight"], c, e).



End SearchSpec.

Set Warnings "-clear-no-such-hyp".

(** ** Vocabulary of the further statements on space discovery *)

Module DiscoverySpec.
Import Py Spaces.

(** An entry whose type goes with the shape of its identifier. *)
Definition well_typed (e : space) : Prop :=
  (type e = "space" /\ is_room_id (id e) = true)
  \/ (type e = "dm" /\ is_dm_id (id e) = true).

Definition scan_typed (st : scan) : Prop :=
  forall s, space_id st = Some s ->
            (space_type st = "space" /\ is_room_id s = true)
            \/ (space_type st = "dm" /\ is_dm_id s = true).

(** [grown acc acc']: [acc'] is [acc] with new entries appended, whose
    identifiers are distinct, were not in [seen_ids], and are now. *)
Definition grown (acc acc' : list space * gset string) : Prop :=
  exists new,
    acc'.1 = acc.1 ++ new
    /\ acc'.2 = acc.2 ∪ list_to_set (id <$> new)
    /\ NoDup (id <$> new)
    /\ Forall (fun e => (id e ∉ acc.2) /\ well_typed e) new.

(** [added spaces spaces']: [spaces'] is [spaces] with rooms appended whose
    identifiers are distinct and absent from [spaces]. *)
Definition added (spaces spaces' : list space) : Prop :=
  exists new,
    spaces' = spaces ++ new
    /\ NoDup (id <$> new)
    /\ Forall (fun e => type e = "space" /\ is_room_id (id e) = true
                        /\ any_id (id e) spaces = false) new.

End DiscoverySpec.

(** ** Sample environments of the further statements *)

Module MoreSamples.
Import Py BatchRpc Session ServerSearch.

(** A bootstrap page whose [WIZ_global_data] holds the token [tok123]. *)
Definition wiz_page : string := "<script>WIZ</script>".

Definition wiz_of (body : string)
  : option (result (list (string * json))) :=
  if String.eqb body wiz_page then Some (Ok [("SMqcke", JStr "tok123")])
  else None.

(** No cache file yet, and a bootstrap endpoint that answers [wiz_page]. *)
Definition first_run : world :=
  {| cache_file := None; cache_writable := true; now := inject_Z 1000;
     mole_world := Ok {| status := 200; body := wiz_page |};
     bootstrap_calls := 0 |}.

Definition fresh_client : client :=
  {| xsrf_token := JNull; _mole_world_body := None; api_reqid := 0 |}.

(** [json.loads] on the one line the sample batch endpoint sends. *)
Definition hit_line : string := "[+]".

Definition loads_hit (line : string) : option json :=
  if String.eqb line hit_line
  then Some (JArr [JStr "We will deploy tonight";
                   JStr "The deploy went fine"])
  else None.

(** A client that holds a token and a batch endpoint that answers with two
    matching strings. *)
Definition answering_env : env :=
  {| session_world := first_run; search_uuid := "UUID";
     batchexecute := fun _ => Ok {| status := 200; body := hit_line |} |}.

Definition token_client : client :=
  {| xsrf_token := JStr "tok123"; _mole_world_body := None; api_reqid := 7 |}.

End MoreSamples.

(** ** Vocabulary of the further statements on topic assembly *)

Module AssemblySpec.
Import Py Topics.

(** What [try_parse_message] gives every message it returns. *)
Definition good (sid : string) (m : message) : Prop :=
  text m <> EmptyString /\ space_id m = sid /\ timestamp_usec m <> Some 0.

Definition all_good (sid : string) (st : acc) : Prop :=
  Forall (fun t => t_space_id t = sid /\ Forall (good sid) (replies t))
    (acc_topics st)
  /\ Forall (good sid) (acc_messages st).

(** [oldest_timestamp] is the least timestamp of the messages of the topics
    gathered so far. *)
Definition oldest_ok (st : acc) : Prop :=
  (forall c, oldest_timestamp st = Some c ->
             exists t m, t ∈ acc_topics st /\ m ∈ replies t
                         /\ timestamp_usec m = Some c)
  /\ (forall t m c, t ∈ acc_topics st -> m ∈ replies t ->
                    timestamp_usec m = Some c ->
                    exists o, oldest_timestamp st = Some o /\ o <= c).

(** Every string of the tree that [str.isdigit] accepts is made of ASCII
    digits, at most 4300 of them: [int] takes it. *)
Fixpoint plain (v : json) : bool :=
  match v with
  | JStr s =>
      negb (isdigit s) || (all_chars is_decimal s && Nat.leb (len s) 4300)
  | JArr items => forallb plain items
  | JObj fields => forallb (fun kv => plain kv.2) fields
  | _ => true
  end.

End AssemblySpec.

(** ** Known spaces ([add_space], [search_spaces]) *)

Module KnownSpaces.
Import Py Spaces.

(** [name or space_id] *)
Definition name_or (name : option string) (space_id : string) : string :=
  match name with
  | Some n => if str_truthy n then n else space_id
  | None => space_id
  end.

(** [if name: s["name"] = name] *)
Definition rename (s : space) (name : option string) : space :=
  match name with
  | Some n =>
      if str_truthy n
      then {| id := id s; name := Some n; type := type s |}
      else s
  | None => s
  end.

(** The loop of [add_space] over the loaded list: the list to save when an
    entry has the identifier, [None] when the loop ends without a match. *)
Fixpoint update_existing (spaces : list space) (space_id : string)
    (name : option string) : option (list space) :=
  match spaces with
  | [] => None
  | s :: rest =>
      if String.eqb (id s) space_id
      then Some (rename s name :: rest)
      else option_map (cons s) (update_existing rest space_id name)
  end.

(** [add_space(space_id, name)], from the list [_load_known_spaces] returns
    to the list handed to [_save_known_spaces]. *)
Definition add_space (spaces : list space) (space_id : string)
    (name : option string) : list space :=
  match update_existing spaces space_id name with
  | Some updated => updated
  | None =>
      spaces ++
      [{| id := space_id;
          name := Some (name_or name space_id);
          type := if startswith "AAAA" space_id then "space" else "dm" |}]
  end.

(** [space.get("name") or space.get("id") or ""] *)
Definition display_name (s : space) : string := name_or (name s) (id s).

(** [search_spaces(query)], from the list [list_spaces] returns: the loop
    that appends to [matches]. *)
Definition search_spaces (all_spaces : list space) (query : string)
  : list space :=
  fold_left
    (fun matches space =>
       if contains (lower query) (lower (display_name space))
       then matches ++ [space]
       else matches)
    all_spaces [].

End KnownSpaces.

(** ** Transport ([_api_request_protojson]) *)

Module Transport.
Import Py Session.

Definition newline : string := String "010" EmptyString.

(** [s[1:]] *)
Definition drop_first (s : string) : string :=
  match s with
  | EmptyString => EmptyString
  | String _ s' => s'
  end.

(** The text handed to [json.loads]. *)
Definition cleaned_body (body : string) : string :=
  let cleaned := strip (lstrip_chars (")]}'") body) in
  if startswith newline cleaned then drop_first cleaned else cleaned.

Section Request.
(** [json.loads]; [None] stands for [JSONDecodeError]. *)
Variable json_loads : string -> option json.

(** What [_api_request_protojson] makes of the response to its POST. *)
Definition protojson_of (resp : response) : result json :=
  if negb (status resp =? 200) then Raise TransportError
  else match json_loads (cleaned_body (body resp)) with
       | Some data => Ok data
       | None => Raise ValueError
       end.
End Request.

End Transport.

(** ** Recent messages and local search ([get_messages], [search_in_space],
       [search_all_spaces]) *)

Module Inbox.
Import Py Spaces.

(** A message dict of [get_messages]. *)
Record message := {
  text : string;
  timestamp : option string;
  timestamp_usec : option string;
  sender : option string;
  message_id : option string
}.

(** The four locals of one call of [extract_messages]. *)
Record fields := {
  msg_text : option string;
  msg_timestamp : option string;
  msg_sender : option string;
  msg_id : option string
}.

Definition no_fields : fields :=
  {| msg_text := None; msg_timestamp := None; msg_sender := None;
     msg_id := None |}.

(** The first test of the chain: a string that reads like text. *)
Definition is_text (item : string) : bool :=
  Nat.ltb 5 (len item) && contains " " item && negb (isdigit item).

(** The [if]/[elif] chain on a string item. *)
Definition classify (f : fields) (item : string) : fields :=
  if is_text item
  then if (Z.of_nat (len item) <? 50000)%Z
       then if match msg_text f with
               | None => true
               | Some t => Nat.ltb (len t) (len item)
               end
            then {| msg_text := Some item; msg_timestamp := msg_timestamp f;
                    msg_sender := msg_sender f; msg_id := msg_id f |}
            else f
       else f
  else if Nat.eqb (len item) 16 && isdigit item
  then {| msg_text := msg_text f; msg_timestamp := Some item;
          msg_sender := msg_sender f; msg_id := msg_id f |}
  else if Nat.ltb 10 (len item) && contains "/" item
  then {| msg_text := msg_text f; msg_timestamp := msg_timestamp f;
          msg_sender := msg_sender f; msg_id := Some item |}
  else if contains "@" item && contains "." item
  then {| msg_text := msg_text f; msg_timestamp := msg_timestamp f;
          msg_sender := Some item; msg_id := msg_id f |}
  else f.

Section Messages.
(** [datetime.fromtimestamp(n / 1_000_000).strftime(..)], [None] when it
    raises. *)
Variable strftime_usec : Z -> option string.

(** The inner [parse_timestamp(ts_str)]. *)
Definition parse_timestamp (ts_str : option string) : option string :=
  match ts_str with
  | Some s =>
      if str_truthy s && isdigit s
      then match int_of_str s with
           | Ok n => strftime_usec n
           | Raise _ => None
           end
      else None
  | None => None
  end.

(** [any(m["text"] == msg_text for m in messages)] *)
Definition any_text (t : string) (messages : list message) : bool :=
  existsb (fun m => String.eqb (text m) t) messages.

(** The block under [if msg_text and len(msg_text) > 3]. *)
Definition save (f : fields) (messages : list message) : list message :=
  match msg_text f with
  | Some t =>
      if str_truthy t && Nat.ltb 3 (len t) && negb (any_text t messages)
      then messages ++
           [{| text := t;
               timestamp := parse_timestamp (msg_timestamp f);
               timestamp_usec := msg_timestamp f;
               sender := msg_sender f;
               message_id := msg_id f |}]
      else messages
  | None => messages
  end.

(** The inner [extract_messages(arr, depth)]; [messages] is the list it
    appends to. *)
Fixpoint extract_messages (arr : json) (depth : nat)
    (messages : list message) {struct arr} : list message :=
  if Nat.ltb 25 depth then messages
  else match arr with
       | JArr items =>
           let r :=
             fold_left
               (fun (r : fields * list message) item =>
                  match item with
                  | JStr s => (classify r.1 s, r.2)
                  | JArr _ => (r.1, extract_messages item (S depth) r.2)
                  | _ => r
                  end) items (no_fields, messages) in
           save r.1 r.2
       | _ => messages
       end.

(** [m.get("timestamp_usec") or "0"] *)
Definition sort_key (m : message) : string :=
  match timestamp_usec m with
  | Some s => if str_truthy s then s else "0"
  | None => "0"
  end.

(** [messages.sort(key=.., reverse=True)] *)
Definition newest_first (messages : list message) : list message :=
  Topics.sort_by (fun a b => String.leb (sort_key b) (sort_key a)) messages.

(** [get_messages], from the response of [list_topics]. *)
Definition get_messages_of (data : json) (limit : Z) : list message :=
  ServerSearch.take_upto limit (newest_first (extract_messages data 0 [])).

(** A message of [search_in_space] with its [snippet]. *)
Definition space_match (query : string) (msg : message) : message * string :=
  let idx := default 0%nat (find (lower query) (lower (text msg))) in
  let start := Nat.max 0 (idx - 50) in
  let stop := Nat.min (len (text msg)) (idx + len query + 50) in
  (msg, "..." +:+ slice start stop (text msg) +:+ "...").

(** [search_in_space], from the messages [get_messages] returns: the loop
    that appends to [matches]. *)
Definition search_in_space_of (messages : list message) (query : string)
  : list (message * string) :=
  fold_left
    (fun matches msg =>
       if contains (lower query) (lower (text msg))
       then matches ++ [space_match query msg]
       else matches)
    messages [].

(** A match of [search_all_spaces]: the message with the keys added. *)
Record found := {
  msg : message;
  space_id : string;
  space_name : string;
  snippet : string
}.

Definition found_in (query : string) (space : space) (m : message) : found :=
  let idx := default 0%nat (find (lower query) (lower (text m))) in
  let start := Nat.max 0 (idx - 40) in
  let stop := Nat.min (len (text m)) (idx + len query + 40) in
  {| msg := m;
     space_id := id space;
     space_name := KnownSpaces.name_or (name space) (id space);
     snippet := slice start stop (text m) |}.

Section AllSpaces.
Variable World : Type.
(** [self.get_messages(space_id, messages_per_space)]. *)
Variable get_messages :
  string -> Z -> World -> result (list message) * World.

(** The body of the loop over the spaces, with its [try]. *)
Definition search_space (query : string) (messages_per_space : Z)
    (r : list found * World) (space : space) : list found * World :=
  match get_messages (id space) messages_per_space r.2 with
  | (Ok messages, w') =>
      (fold_left
         (fun all_matches m =>
            if contains (lower query) (lower (text m))
            then all_matches ++ [found_in query space m]
            else all_matches)
         messages r.1, w')
  | (Raise _, w') => (r.1, w')
  end.

(** [search_all_spaces], from the list [list_spaces] returns. *)
Definition search_all_spaces_of (spaces : list space) (query : string)
    (max_spaces messages_per_space : Z) (w : World) : list found * World :=
  let r :=
    fold_left (search_space query messages_per_space)
      (ServerSearch.take_upto max_spaces spaces) ([], w) in
  (Topics.sort_by
     (fun a b => String.leb (sort_key (msg b)) (sort_key (msg a))) r.1,
   r.2).
End AllSpaces.
End Messages.

End Inbox.

(** ** Group info ([get_group]) *)

Module Group.
Import Py.

(** The exceptions of [len(x)] and [x[i]]. *)
Inductive lookup_error :=
| PyIndexError
| PyTypeError
| PyKeyError.

Inductive outcome (A : Type) :=
| Return (a : A)
| Throw (e : lookup_error).
Arguments Return {A} a.
Arguments Throw {A} e.

Definition and_then {A B} (o : outcome A) (k : A -> outcome B) : outcome B :=
  match o with
  | Return a => k a
  | Throw e => Throw e
  end.

(** [len(x)]: lists, strings and dicts have one; a dict counts its keys. *)
Definition py_len (x : json) : outcome nat :=
  match x with
  | JArr items => Return (length items)
  | JStr s => Return (len s)
  | JObj fields => Return (length (remove_dups (fields.*1)))
  | _ => Throw PyTypeError
  end.

(** [x[i]] for an integer [i >= 0]: an element of a list, a character of a
    string; a dict loaded from JSON has no integer key. *)
Definition py_item (x : json) (i : nat) : outcome json :=
  match x with
  | JArr items =>
      match items !! i with
      | Some v => Return v
      | None => Throw PyIndexError
      end
  | JStr s =>
      match String.get i s with
      | Some c => Return (JStr (String c EmptyString))
      | None => Throw PyIndexError
      end
  | JObj _ => Throw PyKeyError
  | _ => Throw PyTypeError
  end.

(** The dict [get_group] returns; [name] is absent from the fallback. *)
Record info := {
  space_id : string;
  name : option json;
  raw : json
}.

(** The body of the [try]: [Return None] when the [if] is not taken. *)
Definition group_of (sid : string) (data : json) : outcome (option info) :=
  if negb (truthy data) then Return None
  else
    and_then (py_len data) (fun n =>
    if negb (Nat.ltb 0 n) then Return None
    else
      and_then (py_item data 0) (fun d0 =>
      and_then (py_len d0) (fun n0 =>
      if negb (Nat.ltb 1 n0) then Return None
      else
        and_then (py_item d0 1) (fun group_data =>
        and_then (py_len group_data) (fun ng =>
        and_then (if Nat.ltb 1 ng then py_item group_data 1
                  else Return (JStr "Unknown")) (fun nm =>
        Return (Some {| space_id := sid; name := Some nm;
                        raw := group_data |}))))))).

(** [get_group], from the response of the [get_group] call:
    [except (IndexError, TypeError): pass], then the fallback. *)
Definition get_group_of (sid : string) (data : json) : outcome info :=
  let fallback := {| space_id := sid; name := None; raw := data |} in
  match group_of sid data with
  | Return (Some i) => Return i
  | Return None => Return fallback
  | Throw PyKeyError => Throw PyKeyError
  | Throw _ => Return fallback
  end.

End Group.

(** ** Threads on display ([cmd_get_messages_paginated]) *)

Module Threads.
Import Py Topics.

(** [msg.get("topic_id") or "unknown"] *)
Definition thread_key (m : message) : string :=
  match topic_id m with
  | Some t => if str_truthy t then t else "unknown"
  | None => "unknown"
  end.

(** [topics[topic_id].append(msg)], on a dict kept in insertion order. *)
Fixpoint append_to (k : string) (m : message)
    (topics : list (string * list message)) : list (string * list message) :=
  match topics with
  | [] => [(k, [m])]
  | (k', ms) :: rest =>
      if String.eqb k k' then (k', ms ++ [m]) :: rest
      else (k', ms) :: append_to k m rest
  end.

(** The grouping loop. *)
Definition group_by_topic (messages : list message)
  : list (string * list message) :=
  fold_left (fun topics m => append_to (thread_key m) m topics) messages [].

(** The threads as displayed: each group sorted by timestamp. *)
Definition threads (messages : list message)
  : list (string * list message) :=
  map (fun kv => (kv.1, sorted_asc kv.2)) (group_by_topic messages).

End Threads.

(** ** Cookie choice ([get_google_cookies] of [extract_cookies.py]) *)

Module Cookies.

Record cookie := {
  name : string;
  domain : string;
  value : string
}.

(** The body of the loop over the cookie jar. *)
Definition keep (cookies : gmap string string) (c : cookie)
  : gmap string string :=
  if String.eqb (name c) "OSID"
  then if String.eqb (domain c) "chat.google.com"
          || negb (bool_decide (is_Some (cookies !! name c)))
       then <[name c := value c]> cookies
       else cookies
  else if String.eqb (domain c) ".google.com"
          || negb (bool_decide (is_Some (cookies !! name c)))
       then <[name c := value c]> cookies
       else cookies.

(** [get_google_cookies], from the jar [browser_cookie3] yields. *)
Definition get_google_cookies (jar : list cookie) : gmap string string :=
  fold_left keep jar ∅.

(** The domain preferred for a cookie name. *)
Definition preferred (k : string) : string :=
  if String.eqb k "OSID" then "chat.google.com" else ".google.com".

End Cookies.

(** ** Cookie choice ([get_cookies] of [fetch_messages.py]) *)

Module FetchCookies.
Import Py Cookies.

(** The body of the loop over the cookie jar. *)
Definition keep (cookies : gmap string string) (c : cookie)
  : gmap string string :=
  if str_truthy (domain c) && contains "google.com" (domain c)
  then if String.eqb (name c) "OSID"
       then if String.eqb (domain c) "chat.google.com"
            then <[name c := value c]> cookies
            else cookies
       else if String.eqb (name c) "COMPASS"
       then if String.eqb (domain c) "chat.google.com"
               || negb (bool_decide (is_Some (cookies !! name c)))
            then <[name c := value c]> cookies
            else cookies
       else if negb (bool_decide (is_Some (cookies !! name c)))
            then <[name c := value c]> cookies
            else cookies
  else cookies.

(** [get_cookies], from the jar [browser_cookie3] yields. *)
Definition get_cookies (jar : list cookie) : gmap string string :=
  fold_left keep jar ∅.

End FetchCookies.

(** ** Vocabulary of the statements on cookie choice *)

Module CookiesSpec.
Import Py Cookies.

(** The cookies named [k], in the order of the jar. *)
Definition named (k : string) (jar : list cookie) : list cookie :=
  filter (fun c => name c = k) jar.

(** Those of them on the domain [d]. *)
Definition named_on (k d : string) (jar : list cookie) : list cookie :=
  filter (fun c => name c = k /\ domain c = d) jar.

(** Those of them on a domain that mentions [google.com]. *)
Definition named_google (k : string) (jar : list cookie) : list cookie :=
  filter (fun c => name c = k /\ contains "google.com" (domain c) = true) jar.

(** The last of [favoured], else the first of [others]. *)
Definition last_or_first (favoured others : list cookie) : option string :=
  match last favoured with
  | Some c => Some (value c)
  | None => value <$> head others
  end.

End CookiesSpec.

(** ** Vocabulary and samples of the statements on recent messages *)

Module InboxSpec.
Import Py Spaces Inbox.

(** The name a space goes by: its name, or its identifier when the name is
    missing or empty. *)
Definition name_or_id (s : space) : string :=
  match name s with
  | Some (String c n) => String c n
  | _ => id s
  end.

(** A string that [extract_messages] takes for message text. *)
Definition text_like (t : string) : Prop :=
  (5 < len t)%nat /\ contains " " t = true /\ isdigit t = false
  /\ (Z.of_nat (len t) < 50000)%Z.

Definition fields_ok (f : fields) : Prop :=
  forall t, msg_text f = Some t -> text_like t.

Definition inbox_ok (messages : list message) : Prop :=
  NoDup (text <$> messages) /\ Forall (fun m => text_like (text m)) messages.

Definition no_format (usec : Z) : option string := None.

(** Two messages, one of which mentions a deployment. *)
Definition two_messages : list message :=
  [{| text := "We will deploy tonight"; timestamp := None;
      timestamp_usec := Some "1700000000000000"; sender := None;
      message_id := None |};
   {| text := "nothing here"; timestamp := None;
      timestamp_usec := Some "1600000000000000"; sender := None;
      message_id := None |}].

Definition deploy_message : message :=
  {| text := "We will deploy tonight"; timestamp := None;
     timestamp_usec := Some "1700000000000000"; sender := None;
     message_id := None |}.

Definition team_space : space :=
  {| id := "AAAA1234567"; name := Some "Team"; type := "space" |}.

(** A backend in which every space holds [two_messages]. *)
Definition same_inbox (space_id : string) (limit : Z) (w : unit)
  : result (list message) * unit :=
  (Ok two_messages, w).

End InboxSpec.

(** ** Samples of the statements on group info, threads and cookies *)

Module LastSamples.
Import Py.

(** A [get_group] response with a dict where the group array should be. *)
Definition dict_response : json :=
  JArr [JArr [JNull; JObj [("a", JInt 1); ("b", JInt 2)]]].

(** A jar with the session cookie on two domains. *)
Definition jar : list Cookies.cookie :=
  [{| Cookies.name := "OSID"; Cookies.domain := "chat.google.com";
      Cookies.value := "chat" |};
   {| Cookies.name := "OSID"; Cookies.domain := "mail.google.com";
      Cookies.value := "mail" |}].

End LastSamples.

(** * Properties *)

(** ** Batch RPC codec *)

Section BatchRpcProps.
Import Py BatchRpc Tree.

Lemma extract_results_arr items query depth :
  _extract_search_results (JArr items) query depth =
  if Nat.ltb 15 depth then []
  else flat_map
         (fun item =>
            match item with
            | JStr s =>
                if Nat.ltb 10 (len s) && contains (lower query) (lower s)
                then [make_hit s query]
                else []
            | JArr _ => _extract_search_results item query (S depth)
            | _ => []
            end) items.
Proof. reflexivity. Qed.

Lemma extract_finds_child d data v :
  child_at d data v ->
  forall query s depth,
    v = JStr s ->
    (depth + d <= 15)%nat ->
    (10 < len s)%nat ->
    contains (lower query) (lower s) = true ->
    make_hit s query ∈ _extract_search_results data query depth.
Proof.
  induction 1 as [items v Hin | d items sub v Hin Hsub IH];
    intros query s depth -> Hd Hlen Hq; rewrite extract_results_arr.
  - destruct (Nat.ltb_spec 15 depth) as [Hlt | _]; [lia |].
    apply list_elem_of_In, in_flat_map. exists (JStr s). split.
    + by apply list_elem_of_In.
    + apply Nat.ltb_lt in Hlen. rewrite Hlen, Hq. simpl. by left.
  - destruct (Nat.ltb_spec 15 depth) as [Hlt | _]; [lia |].
    apply list_elem_of_In, in_flat_map. exists (JArr sub). split.
    + by apply list_elem_of_In.
    + apply list_elem_of_In. apply (IH query s (S depth)); auto. lia.
Qed.

(** C8, as the code has it: a string leaf is reported when it is longer
    than 10 characters, is reached through lists only and lies at most 15
    lists below the fragment, and contains the query case-insensitively;
    the hit carries the string as text and the window of 50 characters
    around the first match, between dots, as snippet. *)
Theorem search_hit_for_long_leaf data query d s :
  child_at d data (JStr s) ->
  (d <= 15)%nat ->
  (10 < len s)%nat ->
  contains (lower query) (lower s) = true ->
  exists h idx,
    h ∈ _extract_search_results data query 0
    /\ text h = s
    /\ source h = "server_search"
    /\ find (lower query) (lower s) = Some idx
    /\ snippet h =
       "..." +:+ slice (idx - 50) (Nat.min (len s) (idx + len query + 50)) s
       +:+ "...".
Proof.
  intros Hc Hd Hlen Hq.
  unfold contains in Hq.
  destruct (find (lower query) (lower s)) as [idx |] eqn:Hf; [| done].
  exists (make_hit s query), idx. split; [| split; [| split; [| split]]].
  - eapply extract_finds_child; eauto.
    unfold contains. by rewrite Hf.
  - reflexivity.
  - reflexivity.
  - reflexivity.
  - unfold make_hit. rewrite Hf. reflexivity.
Qed.

Lemma search_hit_for_long_leaf_witness :
  exists h idx,
    h ∈ _extract_search_results
          (JArr [JArr [JStr "We will deploy tonight"]]) "Deploy" 0
    /\ text h = "We will deploy tonight"
    /\ source h = "server_search"
    /\ find (lower "Deploy") (lower "We will deploy tonight") = Some idx
    /\ snippet h =
       "..." +:+ slice (idx - 50)
                   (Nat.min (len "We will deploy tonight")
                      (idx + len "Deploy" + 50))
                   "We will deploy tonight"
       +:+ "...".
Proof.
  apply (search_hit_for_long_leaf
           (JArr [JArr [JStr "We will deploy tonight"]]) "Deploy" 1
           "We will deploy tonight").
  - apply child_below with (sub := [JStr "We will deploy tonight"]).
    + apply list_elem_of_here.
    + apply child_here, list_elem_of_here.
  - lia.
  - vm_compute. lia.
  - reflexivity.
Defined.

(** C8 as stated fails: a leaf of 10 characters or fewer that contains the
    query is not reported. *)
Lemma short_leaf_not_reported :
  child_at 0 (JArr [JStr "deploy"]) (JStr "deploy")
  /\ contains (lower "deploy") (lower "deploy") = true
  /\ _extract_search_results (JArr [JStr "deploy"]) "deploy" 0 = [].
Proof.
  split; [| split].
  - apply child_here, list_elem_of_here.
  - reflexivity.
  - reflexivity.
Qed.

Lemma drop_last_snoc s c : drop_last (s +:+ String c EmptyString) = s.
Proof.
  induction s as [| a s IH]; [reflexivity |].
  change (match s +:+ String c EmptyString with
          | EmptyString => EmptyString
          | String _ _ => String a (drop_last (s +:+ String c EmptyString))
          end = String a s).
  rewrite IH. destruct s; reflexivity.
Qed.

Lemma append_assoc_r (a b c : string) : (a +:+ b) +:+ c = a +:+ (b +:+ c).
Proof.
  induction a as [| x a IH]; [reflexivity |].
  change (String x ((a +:+ b) +:+ c) = String x (a +:+ (b +:+ c))).
  by rewrite IH.
Qed.

Lemma dumps_arr_closed float_repr items :
  dumps float_repr (JArr items) =
  ("[" +:+ join_comma (map (dumps float_repr) items)) +:+ "]".
Proof.
  simpl. reflexivity.
Qed.

Lemma rpc_data_of_truncates float_repr params :
  let inner := dumps float_repr (JArr params) in
  exists truncated,
    inner = truncated +:+ "]"
    /\ drop_last inner = truncated
    /\ rpc_data_of float_repr params =
       dumps float_repr
         (JArr [JArr [JArr [JStr "SBNmJb"; JStr truncated; JNull; JStr "4"]]])
    /\ rpc_data_of float_repr params =
       "[[[" +:+ dumps_str "SBNmJb" +:+ "," +:+ dumps_str truncated
       +:+ ",null," +:+ dumps_str "4" +:+ "]]]".
Proof.
  intros inner.
  exists ("[" +:+ join_comma (map (dumps float_repr) params)).
  assert (Hinner : inner =
            ("[" +:+ join_comma (map (dumps float_repr) params)) +:+ "]")
    by apply dumps_arr_closed.
  assert (Hdrop : drop_last inner =
            "[" +:+ join_comma (map (dumps float_repr) params))
    by (rewrite Hinner; apply drop_last_snoc).
  split; [exact Hinner |]. split; [exact Hdrop |].
  unfold rpc_data_of, inner_params_truncated, inner_params, envelope.
  fold inner. rewrite Hdrop. split; [reflexivity |].
  generalize ("[" +:+ join_comma (map (dumps float_repr) params)).
  intros t. simpl. unfold dumps_str.
  rewrite !append_assoc_r. reflexivity.
Qed.

(** C7: for every parameter array the inner payload is its compact
    serialisation without the last character, which is the closing
    bracket, and it is the second element of the envelope; the request of
    [_execute_search_rpc] is that encoding of its parameter array. *)
Theorem rpc_data_truncates_inner_params float_repr :
  (forall params,
      let inner := dumps float_repr (JArr params) in
      exists truncated,
        inner = truncated +:+ "]"
        /\ drop_last inner = truncated
        /\ rpc_data_of float_repr params =
           dumps float_repr
             (JArr [JArr [JArr [JStr "SBNmJb"; JStr truncated; JNull;
                                JStr "4"]]])
        /\ rpc_data_of float_repr params =
           "[[[" +:+ dumps_str "SBNmJb" +:+ "," +:+ dumps_str truncated
           +:+ ",null," +:+ dumps_str "4" +:+ "]]]")
  /\ forall query space_id limit uuid,
       rpc_data float_repr query space_id limit uuid =
       rpc_data_of float_repr (search_params query space_id limit uuid).
Proof.
  split; [apply rpc_data_of_truncates | reflexivity].
Qed.

(** The parameters of the query [q] with limit 20, truncated. *)
Example truncated_params_of_q float_repr :
  inner_params_truncated float_repr (search_params "q" None 20 "UUID") =
  "[null,null,null," +:+ dumps_str "q" +:+ ",null," +:+ dumps_str "UUID"
  +:+ ",[[[],null,null,null," +:+ dumps_str "UUID"
  +:+ ",null,0,[[[[[[1]]]]],[[[1]]]]],null,[3],[20]]".
Proof. reflexivity. Qed.

End BatchRpcProps.

(** ** Induction on value trees *)

Lemma json_ind' (P : json -> Prop) :
  P JNull ->
  (forall b, P (JBool b)) ->
  (forall n, P (JInt n)) ->
  (forall q, P (JFloat q)) ->
  (forall s, P (JStr s)) ->
  (forall items, Forall P items -> P (JArr items)) ->
  (forall fields, Forall (fun kv => P kv.2) fields -> P (JObj fields)) ->
  forall v, P v.
Proof.
  intros Hnull Hbool Hint Hfloat Hstr Harr Hobj.
  fix IH 1. intros [| b | n | q | s | items | fields].
  - exact Hnull.
  - apply Hbool.
  - apply Hint.
  - apply Hfloat.
  - apply Hstr.
  - apply Harr. revert items. fix IHl 1. intros [| item items].
    + constructor.
    + constructor; [apply IH | apply IHl].
  - apply Hobj. revert fields. fix IHl 1. intros [| [k v] fields].
    + constructor.
    + constructor; [apply IH | apply IHl].
Qed.

(** ** Space discovery *)

Section SpacesProps.
Import Py Spaces SpacesSpec Tree.

Lemma find_spaces_arr items depth acc :
  find_spaces (JArr items) depth acc =
  if Nat.ltb 25 depth then acc
  else fold_left
         (fun acc item =>
            match item with
            | JArr subs =>
                find_spaces item (S depth) (record_space (scan_item subs) acc)
            | _ => acc
            end) items acc.
Proof. reflexivity. Qed.

Lemma room_id_truthy s : is_room_id s = true -> str_truthy s = true.
Proof.
  unfold is_room_id. intros H. apply andb_true_iff in H as [H _].
  destruct s; [discriminate | reflexivity].
Qed.

Lemma room_typed_set_space st s : room_typed (set_id st s "space").
Proof. intros s' _ _. reflexivity. Qed.

Lemma room_typed_set_dm st s :
  is_room_id s = false -> room_typed (set_id st s "dm").
Proof.
  intros Hs s' Heq Hroom. simpl in Heq. injection Heq as <-. congruence.
Qed.

Lemma room_typed_deep st deep :
  room_typed st -> room_typed (scan_deep st deep).
Proof.
  intros Hst. destruct deep; simpl; auto.
  destruct (is_room_id s) eqn:Hr; auto using room_typed_set_space.
Qed.

Lemma room_typed_fold {A} (f : scan -> A -> scan) l :
  (forall st x, room_typed st -> room_typed (f st x)) ->
  forall st, room_typed st -> room_typed (fold_left f l st).
Proof.
  intros Hf. induction l as [| x l IH]; simpl; auto.
Qed.

Lemma room_typed_nested st nested :
  room_typed st -> room_typed (scan_nested st nested).
Proof.
  intros Hst. destruct nested; simpl; auto.
  - destruct (is_room_id s) eqn:Hr; [apply room_typed_set_space |].
    destruct (is_dm_id s); auto using room_typed_set_dm.
  - apply room_typed_fold; auto using room_typed_deep.
Qed.

Lemma room_typed_sub st sub :
  room_typed st -> room_typed (scan_sub st sub).
Proof.
  intros Hst. destruct sub; simpl; auto.
  - destruct (is_room_id s) eqn:Hr; [apply room_typed_set_space |].
    destruct (is_dm_id s); [by apply room_typed_set_dm |].
    match goal with |- context [if ?c then _ else _] => destruct c end; auto.
  - apply room_typed_fold; auto using room_typed_nested.
Qed.

Lemma room_typed_item item : room_typed (scan_item item).
Proof.
  apply room_typed_fold; auto using room_typed_sub.
  intros s Hs. discriminate.
Qed.

Lemma extends_refl acc : extends acc acc.
Proof.
  split; [done |]. split; [done |]. intros s Hin Hnot. done.
Qed.

Lemma extends_trans a b c : extends a b -> extends b c -> extends a c.
Proof.
  intros (Hs1 & He1 & Hn1) (Hs2 & He2 & Hn2).
  split; [set_solver |]. split; [auto |].
  intros s Hin Hnot Hroom.
  destruct (decide (s ∈ b.2)) as [Hb | Hb].
  - destruct (Hn1 s Hb Hnot Hroom) as (e & He & Hid & Hty).
    exists e. auto.
  - apply Hn2; auto.
Qed.

Lemma extends_record st acc :
  room_typed st -> extends acc (record_space st acc).
Proof.
  intros Hst. unfold record_space.
  destruct (space_id st) as [sid |] eqn:Hid; [| apply extends_refl].
  destruct (str_truthy sid && negb (bool_decide (sid ∈ acc.2))) eqn:Hc;
    [| apply extends_refl].
  split; [simpl; set_solver |]. split.
  - intros e He. simpl. apply elem_of_app. by left.
  - intros s Hin Hnot Hroom. simpl in Hin.
    apply elem_of_union in Hin as [Hin | Hin]; [| done].
    apply elem_of_singleton in Hin as ->.
    eexists. split; [simpl; apply elem_of_app; right; apply list_elem_of_here |].
    split; [reflexivity |]. simpl. exact (Hst sid Hid Hroom).
Qed.

Lemma extends_find_spaces arr :
  forall depth acc, extends acc (find_spaces arr depth acc).
Proof.
  induction arr as [| b | n | q | s | items IH | fields _] using json_ind';
    intros depth acc;
    try (simpl; destruct (Nat.ltb 25 depth); apply extends_refl).
  rewrite find_spaces_arr.
  destruct (Nat.ltb 25 depth); [apply extends_refl |].
  revert acc. induction IH as [| item items Hitem _ IHitems]; intros acc.
  - apply extends_refl.
  - simpl. eapply extends_trans; [| apply IHitems].
    destruct item; try apply extends_refl.
    eapply extends_trans; [apply extends_record, room_typed_item |].
    apply Hitem.
Qed.

Lemma extends_each depth items acc :
  extends acc
    (fold_left
       (fun acc item =>
          match item with
          | JArr subs =>
              find_spaces item (S depth) (record_space (scan_item subs) acc)
          | _ => acc
          end) items acc).
Proof.
  revert acc. induction items as [| item items IH]; intros acc; simpl.
  - apply extends_refl.
  - eapply extends_trans; [| apply IH].
    destruct item; try apply extends_refl.
    eapply extends_trans; [apply extends_record, room_typed_item |].
    apply extends_find_spaces.
Qed.

(** The identifier left by the scan of a visited list is in [seen_ids]
    afterwards. *)
Lemma scanned_id_seen d data v :
  child_at d data v ->
  forall subs depth acc s,
    v = JArr subs ->
    (depth + d <= 25)%nat ->
    space_id (scan_item subs) = Some s ->
    str_truthy s = true ->
    s ∈ (find_spaces data depth acc).2.
Proof.
  induction 1 as [items v Hin | d items sub v Hin Hsub IH];
    intros subs depth acc s Hv Hd Hscan Hs; rewrite find_spaces_arr;
    (destruct (Nat.ltb_spec 25 depth) as [Hlt | _]; [lia |]);
    apply list_elem_of_split in Hin as (l1 & l2 & ->);
    rewrite fold_left_app; simpl;
    match goal with
    | |- _ ∈ (fold_left _ l2 ?a).2 =>
        destruct (extends_each depth l2 a) as (Hmono & _); apply Hmono
    end.
  - subst v.
    match goal with
    | |- _ ∈ (find_spaces _ _ ?a).2 =>
        destruct (extends_find_spaces (JArr subs) (S depth) a) as (Hsub' & _)
    end.
    apply Hsub'. unfold record_space. rewrite Hscan, Hs. simpl.
    case_bool_decide; simpl; set_solver.
  - eapply IH; eauto. lia.
Qed.

(** The scan of a list ends with the last of its candidates. *)
Lemma scan_fold_last {A} (f : scan -> A -> scan) (g : A -> list string) l :
  (forall st x,
      space_id (f st x)
      = match last (g x) with Some s => Some s | None => space_id st end) ->
  forall st,
    space_id (fold_left f l st)
    = match last (flat_map g l) with
      | Some s => Some s
      | None => space_id st
      end.
Proof.
  intros Hf. induction l as [| x l IH]; intros st; simpl; [done |].
  rewrite IH, Hf, last_app. by destruct (last (flat_map g l)).
Qed.

Lemma scan_deep_last st deep :
  space_id (scan_deep st deep)
  = match last (deep_candidates deep) with
    | Some s => Some s
    | None => space_id st
    end.
Proof.
  destruct deep; simpl; try done. unfold is_room_id.
  by destruct (Nat.eqb (len s) 11 && startswith "AAAA" s).
Qed.

Lemma scan_nested_last st nested :
  space_id (scan_nested st nested)
  = match last (nested_candidates nested) with
    | Some s => Some s
    | None => space_id st
    end.
Proof.
  destruct nested; simpl; try done.
  - unfold is_room_id, is_dm_id.
    destruct (Nat.eqb (len s) 11 && startswith "AAAA" s); [done |].
    by destruct (Nat.eqb (len s) 21 && isdigit s).
  - apply scan_fold_last, scan_deep_last.
Qed.

Lemma scan_sub_last st sub :
  space_id (scan_sub st sub)
  = match last (sub_candidates sub) with
    | Some s => Some s
    | None => space_id st
    end.
Proof.
  destruct sub; simpl; try done.
  - unfold is_room_id, is_dm_id.
    destruct (Nat.eqb (len s) 11 && startswith "AAAA" s); [done |].
    destruct (Nat.eqb (len s) 21 && isdigit s); [done |]. simpl.
    by match goal with |- context [if ?c then _ else _] => destruct c end.
  - apply scan_fold_last, scan_nested_last.
Qed.

Lemma scan_item_last subs :
  space_id (scan_item subs) = last (candidates subs).
Proof.
  unfold scan_item, candidates.
  rewrite (scan_fold_last scan_sub sub_candidates subs scan_sub_last).
  by destruct (last (flat_map sub_candidates subs)).
Qed.

(** C1, as the code has it: take a list that is an element of a list lying
    at most 25 lists below the root, and the last identifier candidate the
    scan of that list meets (among its strings, the strings of its
    sub-lists and the prefixed strings of the lists inside them).  If it is
    a string of length 11 beginning with AAAA, it is in [seen_ids] after
    the pass, and unless it already was before the pass, the space list has
    an entry with that id and type ["space"]. *)
Theorem scanned_room_id_recorded data spaces seen_ids d subs s :
  child_at d data (JArr subs) ->
  (d <= 25)%nat ->
  last (candidates subs) = Some s ->
  len s = 11%nat ->
  startswith "AAAA" s = true ->
  s ∈ (_extract_spaces_from_pblite data spaces seen_ids).2
  /\ (s ∉ seen_ids ->
      exists e, e ∈ (_extract_spaces_from_pblite data spaces seen_ids).1
                /\ id e = s /\ type e = "space").
Proof.
  intros Hc Hd Hlast Hlen Hpre. unfold _extract_spaces_from_pblite.
  assert (Hroom : is_room_id s = true).
  { unfold is_room_id. by rewrite Hlen, Hpre. }
  assert (Hscan : space_id (scan_item subs) = Some s)
    by (by rewrite scan_item_last).
  assert (Hin : s ∈ (find_spaces data 0 (spaces, seen_ids)).2).
  { eapply scanned_id_seen; eauto using room_id_truthy. }
  split; [exact Hin |]. intros Hnot.
  destruct (extends_find_spaces data 0 (spaces, seen_ids)) as (_ & _ & Hnew).
  apply Hnew; auto.
Qed.

Lemma scanned_room_id_recorded_witness :
  "AAAA7654321" ∈
    (_extract_spaces_from_pblite
       (JArr [JArr [JStr "AAAA1234567"; JArr [JArr [JStr "AAAA7654321"]];
                    JStr "General chat"]]) [] ∅).2
  /\ ("AAAA7654321" ∉ (∅ : gset string) ->
      exists e,
        e ∈ (_extract_spaces_from_pblite
               (JArr [JArr [JStr "AAAA1234567";
                            JArr [JArr [JStr "AAAA7654321"]];
                            JStr "General chat"]]) [] ∅).1
        /\ id e = "AAAA7654321" /\ type e = "space").
Proof.
  apply (scanned_room_id_recorded
           (JArr [JArr [JStr "AAAA1234567"; JArr [JArr [JStr "AAAA7654321"]];
                        JStr "General chat"]]) [] ∅ 0
           [JStr "AAAA1234567"; JArr [JArr [JStr "AAAA7654321"]];
            JStr "General chat"] "AAAA7654321").
  - apply child_here, list_elem_of_here.
  - lia.
  - reflexivity.
  - reflexivity.
  - reflexivity.
Defined.

(** C1 as stated fails: of two prefixed strings in one list only the last
    is recorded. *)
Lemma first_room_id_not_recorded :
  let data := JArr [JArr [JStr "AAAA1234567"; JStr "AAAA7654321"]] in
  child_at 1 data (JStr "AAAA1234567")
  /\ is_room_id "AAAA1234567" = true
  /\ (_extract_spaces_from_pblite data [] ∅).1 =
     [{| id := "AAAA7654321"; name := None; type := "space" |}]
  /\ forall e, e ∈ (_extract_spaces_from_pblite data [] ∅).1 ->
               id e <> "AAAA1234567".
Proof.
  assert (Hrun :
    (_extract_spaces_from_pblite
       (JArr [JArr [JStr "AAAA1234567"; JStr "AAAA7654321"]]) [] ∅).1 =
    [{| id := "AAAA7654321"; name := None; type := "space" |}])
    by (vm_compute; reflexivity).
  intros data. split; [| split; [| split]].
  - apply child_below with (sub := [JStr "AAAA1234567"; JStr "AAAA7654321"]).
    + apply list_elem_of_here.
    + apply child_here, list_elem_of_here.
  - reflexivity.
  - exact Hrun.
  - intros e He. subst data. rewrite Hrun in He.
    apply list_elem_of_singleton in He as ->. simpl. discriminate.
Qed.

(** [_find_spaces_in_data] keeps one identifier per list as well, and
    stops on an empty string, whose first character it reads. *)
Example find_spaces_in_data_last_wins :
  _find_spaces_in_data
    (JArr [JStr "AAAA1234567"; JStr "AAAA7654321"]) [] 0 =
  Ok [{| id := "AAAA7654321"; name := None; type := "space" |}].
Proof. reflexivity. Qed.

Example find_spaces_in_data_empty_string :
  _find_spaces_in_data (JArr [JStr EmptyString]) [] 0 = Raise IndexError.
Proof. reflexivity. Qed.

End SpacesProps.

(** ** Topic assembly *)

Lemma bind_Ok {A B} (r : result A) (k : A -> result B) b :
  bind r k = Ok b -> exists a, r = Ok a /\ k a = Ok b.
Proof. destruct r as [a | e]; simpl; [eauto | discriminate]. Qed.

Lemma for_each_inv {A B} (f : B -> A -> result B) (I : B -> Prop) l :
  (forall b a b', a ∈ l -> I b -> f b a = Ok b' -> I b') ->
  forall b b', I b -> for_each f l b = Ok b' -> I b'.
Proof.
  induction l as [| a l IH]; intros Hf b b' Hb Hrun; simpl in Hrun.
  - by injection Hrun as <-.
  - apply bind_Ok in Hrun as (b1 & Hstep & Hrest).
    apply (IH (fun b a b' Ha => Hf b a b' (list_elem_of_further _ _ _ Ha))
             b1 b'); [| exact Hrest].
    eapply Hf; eauto. apply list_elem_of_here.
Qed.

Section SortProps.
Import Topics TopicsSpec.
Context {A : Type} (le : A -> A -> bool).

Lemma insert_by_perm x l : insert_by le x l ≡ₚ x :: l.
Proof.
  induction l as [| y l IH]; simpl; [done |].
  destruct (le x y); [done |]. rewrite IH. apply Permutation_swap.
Qed.

Lemma sort_by_perm l : sort_by le l ≡ₚ l.
Proof.
  induction l as [| x l IH]; simpl; [done |].
  unfold sort_by in *. simpl. rewrite insert_by_perm. by rewrite IH.
Qed.

Lemma elem_of_sort_by x l : x ∈ sort_by le l <-> x ∈ l.
Proof. by rewrite sort_by_perm. Qed.

Context (R : A -> A -> Prop).
Hypothesis le_R : forall x y, le x y = true -> R x y.
Hypothesis nle_R : forall x y, le x y = false -> R y x.
Hypothesis R_trans : forall x y z, R x y -> R y z -> R x z.

Lemma insert_by_sorted x l :
  StronglySorted R l -> StronglySorted R (insert_by le x l).
Proof.
  induction 1 as [| y l Hl IH Hy]; simpl.
  - repeat constructor.
  - destruct (le x y) eqn:Hxy.
    + constructor; [by constructor |].
      constructor; [by apply le_R |].
      eapply Forall_impl; [exact Hy |]. intros z Hz.
      eapply R_trans; [apply le_R |]; eauto.
    + constructor; [exact IH |].
      rewrite insert_by_perm. constructor; [by apply nle_R | exact Hy].
Qed.

Lemma sort_by_sorted l : StronglySorted R (sort_by le l).
Proof.
  induction l as [| x l IH]; [constructor |].
  unfold sort_by in *. simpl. by apply insert_by_sorted.
Qed.
End SortProps.

Section DedupeProps.
Import Topics.
Variable key : message -> string.

Lemma elem_of_dedupe_by m msgs :
  forall seen, m ∈ dedupe_by key seen msgs -> m ∈ msgs.
Proof.
  induction msgs as [| x msgs IH]; intros seen Hm; simpl in Hm; [done |].
  case_bool_decide.
  - apply list_elem_of_further. eauto.
  - apply elem_of_cons in Hm as [-> | Hm];
      [apply list_elem_of_here | apply list_elem_of_further; eauto].
Qed.

Lemma dedupe_by_fresh msgs :
  forall seen, Forall (fun m => key m ∉ seen) (dedupe_by key seen msgs).
Proof.
  induction msgs as [| x msgs IH]; intros seen; simpl; [constructor |].
  case_bool_decide; [apply IH |].
  constructor; [done |].
  eapply Forall_impl; [apply IH |]. simpl. intros m Hm. set_solver.
Qed.

Lemma dedupe_by_nodup msgs :
  forall seen, NoDup (key <$> dedupe_by key seen msgs).
Proof.
  induction msgs as [| x msgs IH]; intros seen; simpl; [constructor |].
  case_bool_decide; [apply IH |].
  rewrite fmap_cons. constructor; [| apply IH].
  intros Hin. apply list_elem_of_fmap in Hin as (m & Hkey & Hm).
  pose proof (dedupe_by_fresh msgs ({[key x]} ∪ seen)) as Hfresh.
  eapply Forall_forall in Hfresh; [| exact Hm]. set_solver.
Qed.

(** Every key of the input keeps a representative. *)
Lemma dedupe_by_covers msgs :
  forall seen m, m ∈ msgs -> key m ∉ seen ->
                 exists m', m' ∈ dedupe_by key seen msgs /\ key m' = key m.
Proof.
  induction msgs as [| x msgs IH]; intros seen m Hm Hfresh;
    [by apply elem_of_nil in Hm |].
  simpl. apply elem_of_cons in Hm as [-> | Hm].
  - case_bool_decide; [done |]. exists x. split; [apply list_elem_of_here | done].
  - case_bool_decide.
    + apply IH; auto.
    + destruct (decide (key m = key x)) as [Heq | Hne].
      * exists x. split; [apply list_elem_of_here | done].
      * destruct (IH ({[key x]} ∪ seen) m Hm) as (m' & Hm' & Hk);
          [by intros [?%elem_of_singleton | ?]%elem_of_union |].
        exists m'. split; [by apply list_elem_of_further | done].
Qed.

(** On a list with distinct fresh keys the loop changes nothing. *)
Lemma dedupe_by_fixed msgs :
  forall seen,
    NoDup (key <$> msgs) -> Forall (fun m => key m ∉ seen) msgs ->
    dedupe_by key seen msgs = msgs.
Proof.
  induction msgs as [| x msgs IH]; intros seen Hnd Hfresh; simpl; [done |].
  rewrite fmap_cons in Hnd. apply NoDup_cons in Hnd as [Hx Hnd].
  apply Forall_cons in Hfresh as [Hfx Hfresh].
  case_bool_decide; [done |]. f_equal. apply IH; [exact Hnd |].
  apply Forall_forall. intros m Hm.
  eapply Forall_forall in Hfresh; [| exact Hm].
  assert (key m <> key x).
  { intros Heq. apply Hx. rewrite <- Heq. by apply list_elem_of_fmap_2. }
  by intros [?%elem_of_singleton | ?]%elem_of_union.
Qed.

Lemma dedupe_by_idempotent msgs :
  dedupe_by key ∅ (dedupe_by key ∅ msgs) = dedupe_by key ∅ msgs.
Proof.
  apply dedupe_by_fixed; [apply dedupe_by_nodup |].
  apply Forall_forall. intros m _. set_solver.
Qed.
End DedupeProps.

Section MarkProps.
Import Py Topics TopicsSpec.

Lemma sorted_asc_sorted l : StronglySorted by_timestamp (sorted_asc l).
Proof.
  apply sort_by_sorted; unfold by_timestamp.
  - intros x y H. by apply Z.leb_le.
  - intros x y H. apply Z.leb_gt in H. lia.
  - intros x y z. lia.
Qed.

Lemma imap_sorted (f : nat -> message -> message) l :
  (forall i m, sort_key (f i m) = sort_key m) ->
  StronglySorted by_timestamp l -> StronglySorted by_timestamp (imap f l).
Proof.
  intros Hkey Hl. revert f Hkey.
  induction Hl as [| x l Hl IH Hx]; intros f Hkey; [constructor |].
  rewrite imap_cons. constructor.
  - apply IH. intros i m. apply Hkey.
  - apply Forall_lookup. intros i m Hi.
    apply list_lookup_imap_Some in Hi as (m0 & Hm0 & ->).
    unfold by_timestamp. simpl. rewrite !Hkey.
    eapply Forall_lookup_1 in Hx; eauto.
Qed.

Lemma marked_topic t ts found :
  str_truthy t = true ->
  found <> [] ->
  Forall (fun m => topic_id m = Some t) found ->
  forall s,
    topic_ok {| t_topic_id := t; t_space_id := s; t_timestamp := ts;
                message_count := length (imap mark (sorted_asc found));
                replies := imap mark (sorted_asc found) |}.
Proof.
  intros Ht Hne Hall s. unfold topic_ok. simpl.
  split; [| split; [exact Ht | split; [reflexivity | split]]].
  - intros Hnil. apply (f_equal length) in Hnil.
    rewrite length_imap in Hnil. unfold sorted_asc in Hnil.
    rewrite (sort_by_perm _ found) in Hnil.
    destruct found; [done | discriminate].
  - apply imap_sorted; [reflexivity | apply sorted_asc_sorted].
  - intros i m Hi. apply list_lookup_imap_Some in Hi as (m0 & Hm0 & ->).
    simpl. split; [reflexivity |]. split; [reflexivity |].
    apply list_elem_of_lookup_2 in Hm0. unfold sorted_asc in Hm0.
    apply elem_of_sort_by in Hm0.
    by eapply Forall_forall in Hall.
Qed.
End MarkProps.

Section ParserProps.
Import Py Topics TopicsSpec.
Variable strftime_usec : Z -> option string.
Variable the_space_id : string.

Local Abbreviation try_parse := (try_parse_message strftime_usec the_space_id).
Local Abbreviation extract := (extract_topic_and_messages strftime_usec the_space_id).
Local Abbreviation parse := (_parse_topics_with_threads strftime_usec the_space_id).

Lemma extract_topic_arr items depth parent st :
  extract (JArr items) depth parent st =
  if Nat.ltb 30 depth then Ok st
  else
    let tid := id_slot items in
    let* topic_timestamp := int_slot (items !! 1%nat) in
    let* topic_messages :=
      match items !! 6%nat with
      | Some (JArr msg_arrs) =>
          slot_messages strftime_usec the_space_id msg_arrs
            (or_str tid parent)
      | _ => Ok []
      end in
    let* r :=
      match topic_messages with
      | [] =>
          for_each
            (fun (r : list message * acc) item =>
               match item with
               | JArr _ =>
                   let* msg := try_parse item (or_str tid parent) in
                   match msg with
                   | Some m => Ok (r.1 ++ [m], r.2)
                   | None =>
                       let* st' :=
                         extract item (S depth) (or_str tid parent) r.2 in
                       Ok (r.1, st')
                   end
               | _ => Ok r
               end) items ([], st)
      | _ => Ok (topic_messages, st)
      end in
    Ok (add_topic the_space_id tid topic_timestamp r.1 r.2).
Proof. reflexivity. Qed.

Lemma try_parse_topic_id arr tid m :
  try_parse arr tid = Ok (Some m) -> topic_id m = tid.
Proof.
  unfold try_parse_message. destruct arr as [| | | | | arr |]; try discriminate.
  destruct (Nat.ltb (length arr) 10); [discriminate |].
  intros H. apply bind_Ok in H as (ts & _ & H).
  destruct (arr !! 9%nat) as [[| | | | txt | |] |]; try discriminate.
  destruct (str_truthy txt); [| discriminate].
  destruct (parse_timestamp strftime_usec ts) as [ts_str ts_usec].
  by injection H as <-.
Qed.

Lemma slot_messages_topic_id msg_arrs tid :
  forall found,
    slot_messages strftime_usec the_space_id msg_arrs tid = Ok found ->
    Forall (fun m => topic_id m = tid) found.
Proof.
  induction msg_arrs as [| msg_arr rest IH]; intros found H; simpl in H.
  - injection H as <-. constructor.
  - destruct msg_arr; auto.
    apply bind_Ok in H as (msg & Hmsg & H).
    apply bind_Ok in H as (more & Hmore & H).
    injection H as <-. specialize (IH _ Hmore).
    destruct msg as [m |]; [| exact IH].
    constructor; [by eapply try_parse_topic_id | exact IH].
Qed.

Lemma add_topic_ok tid ts found st parent :
  acc_ok st ->
  Forall (fun m => topic_id m = or_str tid parent) found ->
  acc_ok (add_topic the_space_id tid ts found st).
Proof.
  intros [Htopics Hmsgs] Hfound. unfold add_topic.
  destruct tid as [t |]; [| done].
  destruct found as [| m0 found]; [done |].
  destruct (str_truthy t) eqn:Ht; [| done].
  simpl in Hfound. rewrite Ht in Hfound.
  split; cbn [acc_topics acc_messages].
  - apply Forall_app. split; [exact Htopics |].
    constructor; [| constructor].
    apply marked_topic; [exact Ht | done | exact Hfound].
  - intros m Hm. apply elem_of_app in Hm as [Hm | Hm].
    + destruct (Hmsgs m Hm) as (t0 & Ht0 & Hin).
      exists t0. split; [apply elem_of_app; by left | exact Hin].
    + eexists. split; [apply elem_of_app; right; apply list_elem_of_here |].
      exact Hm.
Qed.

Lemma extract_ok arr :
  forall depth parent st st',
    acc_ok st -> extract arr depth parent st = Ok st' -> acc_ok st'.
Proof.
  induction arr as [| b | n | q | s | items IH | fields _] using json_ind';
    intros depth parent st st' Hst Hrun;
    try (simpl in Hrun; destruct (Nat.ltb 30 depth);
         injection Hrun as <-; exact Hst).
  rewrite extract_topic_arr in Hrun.
  destruct (Nat.ltb 30 depth); [by injection Hrun as <- |].
  cbv zeta in Hrun.
  apply bind_Ok in Hrun as (ts & _ & Hrun).
  apply bind_Ok in Hrun as (topic_messages & Hslot & Hrun).
  apply bind_Ok in Hrun as ([found st1] & Hloop & Hrun).
  injection Hrun as <-. simpl.
  assert (Hinv : Forall (fun m => topic_id m = or_str (id_slot items) parent)
                   found /\ acc_ok st1).
  { destruct topic_messages as [| m0 ms].
    - revert Hloop.
      apply (for_each_inv _
               (fun r : list message * acc =>
                  Forall (fun m => topic_id m = or_str (id_slot items) parent)
                    r.1 /\ acc_ok r.2)); [| by split].
      intros [found0 st0] item [found' st0'] Hitem [Hf0 Hs0] Hstep.
      simpl in *. destruct item; try (by injection Hstep as <- <-).
      apply bind_Ok in Hstep as (msg & Hmsg & Hstep).
      destruct msg as [m |].
      + injection Hstep as <- <-. split; [| exact Hs0].
        apply Forall_app. split; [exact Hf0 |].
        constructor; [by eapply try_parse_topic_id | constructor].
      + apply bind_Ok in Hstep as (st2 & Hrec & Hstep).
        injection Hstep as <- <-. split; [exact Hf0 |].
        eapply Forall_forall in IH; [| exact Hitem].
        eapply IH; eauto.
    - injection Hloop as <- <-. split; [| exact Hst].
      destruct (items !! 6%nat) as [[| | | | | msg_arrs |] |];
        try discriminate.
      by eapply slot_messages_topic_id. }
  destruct Hinv as [Hfound Hst1]. by eapply add_topic_ok.
Qed.

Lemma acc_init_ok : acc_ok acc_init.
Proof.
  split; [constructor |]. intros m Hm. simpl in Hm. by apply elem_of_nil in Hm.
Qed.


(** The accumulators the parser ends with. *)
Lemma parse_acc data p :
  parse data = Ok p ->
  exists st,
    acc_ok st
    /\ topics p = acc_topics st
    /\ messages p = dedupe ∅ (sorted_desc (acc_messages st))
    /\ next_cursor p = oldest_timestamp st
    /\ has_more p =
       Nat.ltb 0 (length (acc_topics st))
       && negb (contains_last_topic data)
       && match oldest_timestamp st with Some _ => true | None => false end.
Proof.
  unfold _parse_topics_with_threads. intros H.
  apply bind_Ok in H as (st & Hst & H). injection H as <-.
  exists st. split; [| by repeat split].
  destruct (topics_array data) as [[| t ts] |].
  - eapply extract_ok; [apply acc_init_ok | exact Hst].
  - revert Hst. unfold each_topic.
    apply (for_each_inv _ acc_ok); [| apply acc_init_ok].
    intros st0 item st0' _ Hst0 Hstep. by eapply extract_ok.
  - eapply extract_ok; [apply acc_init_ok | exact Hst].
Qed.

(** C3: in every topic of the page the replies are in non-decreasing order
    of timestamp (a missing one counted as 0), the first and only the first
    has [is_thread_reply = false], and [reply_index] is the position. *)
Theorem topic_replies_ordered data p t :
  _parse_topics_with_threads strftime_usec the_space_id data = Ok p ->
  t ∈ topics p ->
  StronglySorted
    (fun a b => default 0 (timestamp_usec a) <= default 0 (timestamp_usec b))
    (replies t)
  /\ (exists root, replies t !! 0%nat = Some root
                   /\ is_thread_reply root = false)
  /\ forall i m, replies t !! i = Some m ->
                 (is_thread_reply m = false <-> i = 0%nat)
                 /\ reply_index m = i.
Proof.
  intros Hp Ht. apply parse_acc in Hp as (st & [Htopics _] & Heq & _).
  rewrite Heq in Ht. eapply Forall_forall in Htopics; [| exact Ht].
  destruct Htopics as (Hne & _ & _ & Hsorted & Hidx).
  split; [exact Hsorted |]. split.
  - destruct (replies t) as [| root rest] eqn:Hr; [done |].
    exists root. split; [reflexivity |].
    destruct (Hidx 0%nat root) as (_ & Hflag & _); [reflexivity |].
    exact Hflag.
  - intros i m Hm. destruct (Hidx i m Hm) as (Hi & Hflag & _).
    split; [| exact Hi]. rewrite Hflag.
    destruct i; simpl; split; intros; (done || lia).
Qed.

(** C4: [has_more] holds exactly when a topic was assembled, the response
    does not have [true] at index 4, and an oldest timestamp was seen; it
    never holds with a null [next_cursor]. *)
Theorem has_more_iff data p :
  _parse_topics_with_threads strftime_usec the_space_id data = Ok p ->
  (has_more p = true <->
   topics p <> []
   /\ ~ (exists items, data = JArr items
                       /\ items !! 4%nat = Some (JBool true))
   /\ next_cursor p <> None)
  /\ (next_cursor p = None -> has_more p = false).
Proof.
  intros Hp. apply parse_acc in Hp as (st & _ & Ht & _ & Hc & Hm).
  rewrite Hm, Ht, Hc.
  assert (Hlast : contains_last_topic data = true <->
                  exists items, data = JArr items
                                /\ items !! 4%nat = Some (JBool true)).
  { unfold contains_last_topic. split.
    - destruct data as [| | | | | items |]; try discriminate.
      destruct (items !! 4%nat) as [[| [|] | | | | |] |] eqn:H4;
        try discriminate.
      intros _. by exists items.
    - intros (items & -> & H4). by rewrite H4. }
  split.
  - rewrite !andb_true_iff, negb_true_iff. split.
    + intros [[Hlen Hnl] Hold]. split; [| split].
      * destruct (acc_topics st); [discriminate | done].
      * rewrite <- Hlast. congruence.
      * by destruct (oldest_timestamp st).
    + intros (Hne & Hnl & Hold). split; [split |].
      * destruct (acc_topics st); [done | reflexivity].
      * destruct (contains_last_topic data); [| reflexivity].
        exfalso. apply Hnl, Hlast. reflexivity.
      * by destruct (oldest_timestamp st).
  - intros ->. apply andb_false_r.
Qed.

(** C10: every message of the flat list belongs to a topic of the page and
    carries that topic's identifier, which is not empty; so its [topic_id]
    is never [None]. *)
Theorem messages_carry_topic_id data p m :
  _parse_topics_with_threads strftime_usec the_space_id data = Ok p ->
  m ∈ messages p ->
  topic_id m <> None
  /\ exists t, t ∈ topics p /\ m ∈ replies t
               /\ topic_id m = Some (t_topic_id t)
               /\ t_topic_id t <> EmptyString.
Proof.
  intros Hp Hm. apply parse_acc in Hp as (st & [Htopics Hmsgs] & Ht & Hms & _).
  rewrite Hms in Hm. apply elem_of_dedupe_by in Hm.
  apply elem_of_sort_by in Hm.
  destruct (Hmsgs m Hm) as (t & Hin & Hrep).
  eapply Forall_forall in Htopics; [| exact Hin].
  destruct Htopics as (_ & Htruthy & _ & _ & Hidx).
  apply list_elem_of_lookup_1 in Hrep as Hi. destruct Hi as [i Hi].
  destruct (Hidx i m Hi) as (_ & _ & Htid).
  split; [congruence |]. exists t. rewrite Ht.
  split; [exact Hin |]. split; [exact Hrep |]. split; [exact Htid |].
  intros Hempty. by rewrite Hempty in Htruthy.
Qed.

End ParserProps.

Section ParserSamples.
Import Py Topics Samples.

Lemma topic_replies_ordered_witness :
  StronglySorted
    (fun a b => default 0 (timestamp_usec a) <= default 0 (timestamp_usec b))
    (replies first_topic)
  /\ (exists root, replies first_topic !! 0%nat = Some root
                   /\ is_thread_reply root = false)
  /\ forall i m, replies first_topic !! i = Some m ->
                 (is_thread_reply m = false <-> i = 0%nat)
                 /\ reply_index m = i.
Proof.
  apply (topic_replies_ordered no_format "S" response parsed first_topic).
  - reflexivity.
  - apply list_elem_of_here.
Defined.

Lemma has_more_iff_witness :
  (has_more parsed = true <->
   topics parsed <> []
   /\ ~ (exists items, response = JArr items
                       /\ items !! 4%nat = Some (JBool true))
   /\ next_cursor parsed <> None)
  /\ (next_cursor parsed = None -> has_more parsed = false).
Proof.
  apply (has_more_iff no_format "S" response parsed). reflexivity.
Defined.

Lemma messages_carry_topic_id_witness :
  topic_id first_message <> None
  /\ exists t, t ∈ topics parsed /\ first_message ∈ replies t
               /\ topic_id first_message = Some (t_topic_id t)
               /\ t_topic_id t <> EmptyString.
Proof.
  apply (messages_carry_topic_id no_format "S" response parsed first_message).
  - reflexivity.
  - apply list_elem_of_here.
Defined.

(** The sample page: the reply comes second in the topic, first in the
    flat list (newest first). *)
Example parsed_sample :
  map text (replies first_topic) = ["hello world"; "a reply"]
  /\ map is_thread_reply (replies first_topic) = [false; true]
  /\ map text (messages parsed) = ["a reply"; "hello world"]
  /\ has_more parsed = true
  /\ next_cursor parsed = Some 1700000000000000.
Proof. repeat split. Qed.

(** A message array with text but no topic identifier around it leaves
    nothing in the page. *)
Example orphan_fragment_dropped :
  _parse_topics_with_threads no_format "S" orphan = Ok empty_page.
Proof. reflexivity. Qed.

(** A timestamp made of a superscript digit passes [isdigit] and makes
    [int] raise. *)
Example superscript_timestamp_raises :
  _parse_topics_with_threads no_format "S"
    (JArr [JArr [JNull; JStr "T1"]; JStr (String "178" EmptyString)]) =
  Raise ValueError.
Proof. reflexivity. Qed.

(** So does a timestamp of 4301 digits, one more than [int] converts. *)
Example long_timestamp_raises :
  _parse_topics_with_threads no_format "S"
    (JArr [JArr [JNull; JStr "T1"];
           JStr (string_of_list_ascii (repeat "1"%char 4301))]) =
  Raise ValueError.
Proof. by vm_compute. Qed.
End ParserSamples.

(** ** Pagination *)

Section PaginationProps.
Import Py Topics Pagination PaginationSpec.
Variable World : Type.
Variable fetch_page : option Z -> World -> result page * World.

(** What the loop accumulates is the concatenation of the pages' message
    lists. *)
Lemma page_loop_concat n :
  forall cursor acc w all w',
    page_loop World fetch_page n cursor acc w = (Ok all, w') ->
    all = acc ++ concat (map messages (fetched_pages World fetch_page n cursor w)).
Proof.
  induction n as [| n IH]; intros cursor acc w all w' Hrun; simpl in *.
  - injection Hrun as <- _. by rewrite app_nil_r.
  - destruct (fetch_page cursor w) as [[pg0 | e] w1]; [| discriminate].
    destruct (negb (has_more pg0)
              || negb (cursor_truthy (next_cursor pg0))).
    + injection Hrun as <- _. simpl. by rewrite app_nil_r.
    + apply IH in Hrun. rewrite Hrun. simpl. by rewrite app_assoc.
Qed.

(** The log of a run of the loop: at most one entry per iteration, and
    every entry but the last is a page with [has_more] and a cursor, whose
    cursor the next request carries. *)
Lemma page_loop_log n :
  forall cursor acc w log,
    exists new,
      (page_loop (logged World) (logging fetch_page) n cursor acc (w, log)).2.2
      = log ++ new
      /\ (length new <= n)%nat
      /\ (forall c r, new !! 0%nat = Some (c, r) -> c = cursor)
      /\ forall i c r,
           (S i < length new)%nat -> new !! i = Some (c, r) ->
           exists pg, r = Ok pg /\ has_more pg = true
                      /\ cursor_truthy (next_cursor pg) = true
                      /\ exists r', new !! S i = Some (next_cursor pg, r').
Proof.
  induction n as [| n IH]; intros cursor acc w log; simpl.
  - exists []. rewrite app_nil_r. repeat split; simpl; try lia; try done.
  - unfold logging at 1. simpl.
    destruct (fetch_page cursor w) as [[pg0 | e] w1]; simpl.
    + destruct (negb (has_more pg0)
                || negb (cursor_truthy (next_cursor pg0))) eqn:Hstop.
      * exists [(cursor, Ok pg0)]. simpl.
        repeat split; try lia; intros; simpl in *; try lia; congruence.
      * apply orb_false_elim in Hstop as [Hmore Hcur].
        apply negb_false_iff in Hmore, Hcur.
        destruct (IH (next_cursor pg0) (acc ++ messages pg0) w1
                    (log ++ [(cursor, Ok pg0)]))
          as (new & Hlog & Hlen & Hfirst & Hrest).
        exists ((cursor, Ok pg0) :: new).
        split; [rewrite Hlog, <- app_assoc; reflexivity |].
        split; [simpl; lia |]. split; [simpl; congruence |].
        intros [| i] c r Hi Hlook; simpl in *.
        -- injection Hlook as <- <-. exists pg0.
           split; [reflexivity |]. split; [exact Hmore |].
           split; [exact Hcur |].
           destruct new as [| [c0 r0] new']; [simpl in Hi; lia |].
           exists r0. by rewrite (Hfirst c0 r0 eq_refl).
        -- apply (Hrest i c r); [lia | exact Hlook].
    + exists [(cursor, Raise e)]. simpl.
      repeat split; try lia; intros; simpl in *; try lia; congruence.
Qed.

(** C2: a run makes at most [max_pages] requests whatever the backend
    answers (the function is total, so it returns), and every request but
    the last came back with [has_more] and a cursor: the first page without
    either ends the loop. *)
Theorem get_all_messages_bounded max_pages w :
  let log :=
    (get_all_messages_with (logged World) (logging fetch_page)
       max_pages (w, [])).2.2 in
  (length log <= Z.to_nat max_pages)%nat
  /\ (forall c r, log !! 0%nat = Some (c, r) -> c = None)
  /\ forall i c r,
       (S i < length log)%nat -> log !! i = Some (c, r) ->
       exists pg, r = Ok pg /\ has_more pg = true
                  /\ cursor_truthy (next_cursor pg) = true
                  /\ exists r', log !! S i = Some (next_cursor pg, r').
Proof.
  unfold get_all_messages_with.
  destruct (page_loop_log (Z.to_nat max_pages) None [] w [])
    as (new & Hlog & Hlen & Hfirst & Hrest).
  destruct (page_loop (logged World) (logging fetch_page)
              (Z.to_nat max_pages) None [] (w, [])) as [r [w' log]].
  simpl in *. subst log. auto.
Qed.

End PaginationProps.

Section PaginationSamples.
Import Py Topics Pagination PaginationSpec.

(** Against a backend that repeats its cursor for ever, three pages are
    requested when [max_pages] is 3, and the one message survives. *)
Example stuck_backend_three_calls :
  let run :=
    get_all_messages_with (logged unit) (logging stuck_backend) 3 (tt, []) in
  length run.2.2 = 3%nat
  /\ run.1 = Ok (messages stuck_page).
Proof. split; reflexivity. Qed.

End PaginationSamples.

(** ** Double-precision arithmetic *)

Section FloatProps.
Import Float.
Local Open Scope Q_scope.

Lemma two_nonzero : ~ inject_Z 2 == 0.
Proof. discriminate. Qed.

Lemma pow2_pos k : 0 < pow2 k.
Proof. apply Qpower_0_lt. reflexivity. Qed.

Lemma pow2_nonzero k : ~ pow2 k == 0.
Proof. intros H. pose proof (pow2_pos k) as Hp. rewrite H in Hp. discriminate. Qed.

Lemma pow2_add a b : pow2 (a + b) == pow2 a * pow2 b.
Proof. apply Qpower_plus, two_nonzero. Qed.

Lemma pow2_le a b : (a <= b)%Z -> pow2 a <= pow2 b.
Proof. intros H. apply Qpower_le_compat_l; [exact H | discriminate]. Qed.

Lemma pow2_lt a b : (a < b)%Z -> pow2 a < pow2 b.
Proof. intros H. apply Qpower_lt_compat_l; [exact H | reflexivity]. Qed.

Lemma pow2_lt_inv a b : pow2 a < pow2 b -> (a < b)%Z.
Proof. intros H. eapply Qpower_lt_compat_l_inv; [exact H | reflexivity]. Qed.

Lemma pow2_Z k : (0 <= k)%Z -> pow2 k == inject_Z (2 ^ k).
Proof. intros H. unfold pow2. symmetry. by apply Zpower_Qpower. Qed.

Lemma inject_pow_pos k : (0 <= k)%Z -> 0 < inject_Z (2 ^ k).
Proof.
  intros H. change (inject_Z 0 < inject_Z (2 ^ k)). rewrite <- Zlt_Qlt.
  apply Z.pow_pos_nonneg; lia.
Qed.

(** Division by a power of two. *)
Lemma div_pow2 x k : x / pow2 k == x * pow2 (- k).
Proof.
  unfold Qdiv. apply Qmult_comp; [reflexivity |].
  unfold pow2. by rewrite Qpower_opp.
Qed.

Lemma ilog2_spec x : 0 < x -> pow2 (ilog2 x) <= x /\ x < pow2 (ilog2 x + 1).
Proof.
  intros Hx. destruct x as [n d]. unfold Qlt in Hx. simpl in Hx.
  assert (Hn : (0 < n)%Z) by lia.
  pose proof (Z.log2_spec n Hn) as [Hn1 Hn2].
  pose proof (Z.log2_spec (Z.pos d) (Pos2Z.pos_is_pos d)) as [Hd1 Hd2].
  pose proof (Z.log2_nonneg n) as Ha.
  pose proof (Z.log2_nonneg (Z.pos d)) as Hb.
  set (a := Z.log2 n) in *. set (b := Z.log2 (Z.pos d)) in *.
  assert (Hlow : pow2 (a - b - 1) <= n # d).
  { replace (a - b - 1)%Z with (a + - (b + 1))%Z by lia.
    rewrite pow2_add, <- div_pow2, !pow2_Z by lia.
    apply Qle_shift_div_r.
    - apply inject_pow_pos. lia.
    - unfold Qle. simpl. unfold Z.succ in *. nia. }
  assert (Hhigh : n # d < pow2 (a - b + 1)).
  { replace (a - b + 1)%Z with ((a + 1) + - b)%Z by lia.
    rewrite pow2_add, <- div_pow2, !pow2_Z by lia.
    apply Qlt_shift_div_l.
    - apply inject_pow_pos. lia.
    - unfold Qlt. simpl. unfold Z.succ in *. nia. }
  unfold ilog2. simpl Qnum. simpl Qden. fold a b.
  destruct (Qle_bool (pow2 (a - b)) (n # d)) eqn:Hc.
  - apply Qle_bool_iff in Hc. split; [exact Hc | exact Hhigh].
  - split; [exact Hlow |].
    replace (a - b - 1 + 1)%Z with (a - b)%Z by lia.
    apply Qnot_le_lt. intros H. apply Qle_bool_iff in H. congruence.
Qed.

Lemma ilog2_mono t x : 0 < t -> t <= x -> (ilog2 t <= ilog2 x)%Z.
Proof.
  intros Ht Hx.
  destruct (ilog2_spec t Ht) as [Ht1 _].
  destruct (ilog2_spec x) as [_ Hx2]; [by eapply Qlt_le_trans |].
  assert (H : pow2 (ilog2 t) < pow2 (ilog2 x + 1)).
  { eapply Qle_lt_trans; [exact Ht1 |]. by eapply Qle_lt_trans. }
  apply pow2_lt_inv in H. lia.
Qed.

Lemma round_even_bounds q :
  (Qfloor q <= round_even q <= Qfloor q + 1)%Z.
Proof.
  unfold round_even. destruct (Qcompare _ _); [destruct (Z.even _) | |]; lia.
Qed.


Lemma round_even_le n q : q <= inject_Z n -> (round_even q <= n)%Z.
Proof.
  intros H. pose proof (Qfloor_le q) as Hf.
  assert (Hfn : (Qfloor q <= n)%Z).
  { rewrite Zle_Qle. by eapply Qle_trans. }
  destruct (Z.eq_dec (Qfloor q) n) as [Heq | Hne].
  - (* q is the integer n *)
    assert (Hq : q == inject_Z n).
    { apply Qle_antisym; [exact H |]. by rewrite <- Heq. }
    unfold round_even. rewrite Heq.
    assert (Hc : Qcompare (q - inject_Z n) (1 # 2) = Lt).
    { apply Qlt_alt. rewrite Hq. unfold Qminus. rewrite Qplus_opp_r.
      reflexivity. }
    by rewrite Hc.
  - pose proof (round_even_bounds q). lia.
Qed.

Lemma quantum_pos_eq x : 0 < x -> quantum x = Z.max (ilog2 x - 52) (-1074).
Proof.
  intros Hx. unfold quantum.
  assert (H : ilog2 (Qabs x) = ilog2 x); [| by rewrite H].
  destruct x as [n d]. unfold Qlt in Hx. simpl in Hx.
  unfold Qabs. destruct n; try lia. reflexivity.
Qed.


Lemma nearest_le t x : 0 < t -> is_double t -> x <= t -> nearest x <= t.
Proof.
  intros Ht [m Hm] Hx.
  destruct (Qlt_le_dec 0 x) as [Hx0 | Hx0].
  - pose proof (ilog2_mono x t Hx0 Hx) as Hmono.
    destruct (ilog2_spec t Ht) as [Ht1 _].
    destruct (ilog2_spec x Hx0) as [_ Hx2].
    unfold nearest. rewrite (quantum_pos_eq x Hx0).
    rewrite (quantum_pos_eq t Ht) in Hm.
    set (ex := ilog2 x) in *. set (et := ilog2 t) in *.
    destruct (Z.eq_dec (Z.max (ex - 52) (-1074)) (Z.max (et - 52) (-1074)))
      as [Heq | Hne].
    + rewrite Heq. set (k := Z.max (et - 52) (-1074)) in *.
      rewrite Hm at 1.
      apply Qmult_le_compat_r; [| apply Qlt_le_weak, pow2_pos].
      rewrite <- Zle_Qle. apply round_even_le.
      apply Qle_shift_div_r; [apply pow2_pos |]. by rewrite <- Hm.
    + set (kx := Z.max (ex - 52) (-1074)) in *.
      assert (Hlt : (ex + 1 <= et)%Z) by lia.
      assert (Hkx : (kx <= et)%Z) by lia.
      set (j := Z.max (ex + 1 - kx) 0).
      assert (Hj : (0 <= j /\ ex + 1 - kx <= j /\ j + kx <= et)%Z)
        by (unfold j; lia).
      apply Qle_trans with (pow2 (j + kx)).
      * rewrite pow2_add. apply Qmult_le_compat_r;
          [| apply Qlt_le_weak, pow2_pos].
        rewrite (pow2_Z j) by lia. rewrite <- Zle_Qle. apply round_even_le.
        apply Qle_shift_div_r; [apply pow2_pos |].
        rewrite <- (pow2_Z j), <- pow2_add by lia.
        apply Qlt_le_weak. eapply Qlt_le_trans; [exact Hx2 |].
        apply pow2_le. lia.
      * eapply Qle_trans; [| exact Ht1]. apply pow2_le. lia.
  - apply Qle_trans with 0; [| by apply Qlt_le_weak].
    unfold nearest.
    assert (Hr : (round_even (x / pow2 (quantum x)) <= 0)%Z).
    { apply round_even_le. apply Qle_shift_div_r; [apply pow2_pos |].
      by rewrite Qmult_0_l. }
    rewrite Zle_Qle in Hr.
    apply Qle_trans with (inject_Z 0 * pow2 (quantum x)).
    + apply Qmult_le_compat_r; [exact Hr | apply Qlt_le_weak, pow2_pos].
    + rewrite Qmult_0_l. apply Qle_refl.
Qed.

End FloatProps.

(** ** Session cache *)

Section SessionProps.
Import Py Session SessionSpec.


Lemma below_day_is_double : Float.is_double (Qminus day last_place).
Proof. exists (86400 * 2 ^ 36 - 1). by vm_compute. Qed.


Lemma below_24_is_double :
  Float.is_double (Qminus (inject_Z 24) (1 # 281474976710656)).
Proof. exists (24 * 2 ^ 48 - 1). by vm_compute. Qed.

(** [Float.ltb] on a rounded number that a double bounds. *)
Lemma round64_below t b x :
  Qlt 0 t -> Float.is_double t -> Qlt t b -> Qlt t (Float.pow2 1024) ->
  Qle x t ->
  Float.ltb (Float.round64 x) b = true
  /\ match Float.round64 x with
     | Float.Finite y => Qle y t
     | Float.NegInf => True
     | _ => False
     end.
Proof.
  intros Ht Hd Hb Hmax Hx. pose proof (nearest_le t x Ht Hd Hx) as Hn.
  unfold Float.round64. cbv zeta.
  destruct (Qle_bool (Float.pow2 1024) (Float.nearest x)) eqn:E1.
  { apply Qle_bool_iff in E1. exfalso.
    apply (Qlt_irrefl t). eapply Qlt_le_trans; [exact Hmax |].
    by eapply Qle_trans. }
  destruct (Qle_bool (Float.nearest x) (Qopp (Float.pow2 1024))); [done |].
  split; [| by rewrite Qred_correct]. simpl.
  destruct (Qle_bool b (Qred (Float.nearest x))) eqn:E3; [| done].
  apply Qle_bool_iff in E3. rewrite Qred_correct in E3. exfalso.
  apply (Qlt_irrefl t). eapply Qlt_le_trans; [exact Hb |].
  by eapply Qle_trans.
Qed.


(** The age test on a token younger than a day by the last place of a
    double, and on one a day old. *)
Lemma young_age now cached_at :
  Qle (Qminus now cached_at) (Qminus day last_place) ->
  Float.ltb (double_age now cached_at) (inject_Z 24) = true.
Proof.
  intros Hx. unfold double_age.
  destruct (round64_below (Qminus day last_place) (inject_Z 86400)
              (Qminus now cached_at)) as [_ Hy];
    [by vm_compute | apply below_day_is_double | by vm_compute
    | by vm_compute | exact Hx |].
  destruct (Float.round64 (Qminus now cached_at)) as [y | | |];
    try done. simpl.
  apply (round64_below (Qminus (inject_Z 24) (1 # 281474976710656)));
    [by vm_compute | apply below_24_is_double | by vm_compute
    | by vm_compute |].
  apply Qle_shift_div_r; [by vm_compute |].
  eapply Qle_trans; [exact Hy |]. by vm_compute.
Qed.








End SessionProps.

(** ** Search *)

Section SearchProps.
Import Py BatchRpc Session ServerSearch SearchSpec.
Variable json_loads : string -> option json.
Variable float_repr : Q -> string.
Variable wiz_global_data : string -> option (result (list (string * json))).
Variable local_match : Type.
Variable _local_search_all_spaces :
  string -> Z -> client -> env -> result (list local_match) * client * env.



End SearchProps.

Section SearchSamples.
Import Py BatchRpc Session ServerSearch SearchSpec.



End SearchSamples.

(** * Further properties *)

(** ** Search hits *)

Section MoreBatchRpcProps.
Import Py BatchRpc Tree.

Lemma extract_only_leaves data :
  forall query depth h,
    h ∈ _extract_search_results data query depth ->
    exists d s,
      child_at d data (JStr s)
      /\ (depth + d <= 15)%nat
      /\ (10 < len s)%nat
      /\ contains (lower query) (lower s) = true
      /\ h = make_hit s query.
Proof.
  induction data as [| b | n | q | s | items IH | fields _] using json_ind';
    intros query depth h Hh;
    try (simpl in Hh; destruct (Nat.ltb 15 depth); by apply elem_of_nil in Hh).
  rewrite extract_results_arr in Hh.
  destruct (Nat.ltb_spec 15 depth) as [Hlt | Hle];
    [by apply elem_of_nil in Hh |].
  apply list_elem_of_In, in_flat_map in Hh as (item & Hitem & Hh).
  apply list_elem_of_In in Hitem.
  destruct item as [| b | n | q | s | sub | fields];
    try (by apply list_elem_of_In, elem_of_nil in Hh).
  - destruct (Nat.ltb 10 (len s)) eqn:Hlen; simpl in Hh; [| done].
    destruct (contains (lower query) (lower s)) eqn:Hq; simpl in Hh; [| done].
    destruct Hh as [<- | []].
    exists 0%nat, s. apply Nat.ltb_lt in Hlen.
    split; [by apply child_here |]. repeat split; (lia || done).
  - eapply Forall_forall in IH; [| exact Hitem].
    apply list_elem_of_In in Hh.
    destruct (IH query (S depth) h Hh) as (d & s & Hc & Hd & Hlen & Hq & ->).
    exists (S d), s. split; [by eapply child_below |].
    repeat split; (lia || done).
Qed.

(** X1: Every hit the extractor reports is a string leaf of the fragment that
    is longer than 10 characters, lies at most 15 lists below the root and
    contains the query case-insensitively. *)
Theorem search_hits_are_matching_leaves data query h :
  h ∈ _extract_search_results data query 0 ->
  exists d,
    (d <= 15)%nat
    /\ child_at d data (JStr (text h))
    /\ (10 < len (text h))%nat
    /\ contains (lower query) (lower (text h)) = true
    /\ source h = "server_search".
Proof.
  intros Hh. apply extract_only_leaves in Hh as (d & s & Hc & Hd & Hlen & Hq & ->).
  exists d. simpl. repeat split; (lia || done).
Qed.

Lemma search_hits_are_matching_leaves_witness :
  exists d,
    (d <= 15)%nat
    /\ child_at d (JArr [JArr [JStr "We will deploy tonight"]])
         (JStr (text (make_hit "We will deploy tonight" "Deploy")))
    /\ (10 < len (text (make_hit "We will deploy tonight" "Deploy")))%nat
    /\ contains (lower "Deploy")
         (lower (text (make_hit "We will deploy tonight" "Deploy"))) = true
    /\ source (make_hit "We will deploy tonight" "Deploy") = "server_search".
Proof.
  apply (search_hits_are_matching_leaves
           (JArr [JArr [JStr "We will deploy tonight"]]) "Deploy").
  vm_compute. apply list_elem_of_here.
Defined.

(** On ASCII strings, where [str.lower] maps character by character,
    lowering keeps the length and commutes with slicing.  (Beyond the code
    points below 256 [str.lower] can lengthen a string.) *)
Lemma len_lower s : isascii s = true -> len (lower s) = len s.
Proof.
  induction s as [| c s IH]; simpl; [done |].
  intros [_ Hs]%andb_true_iff. by rewrite (IH Hs).
Qed.

Lemma lower_substring s : forall a n,
  isascii s = true ->
  lower (String.substring a n s) = String.substring a n (lower s).
Proof.
  induction s as [| c s IH]; intros [| a] [| n] Hs; simpl; try done;
    apply andb_true_iff in Hs as [_ Hs];
    first [by rewrite (IH _ _ Hs) | by apply IH].
Qed.

Lemma length_substring_le s : forall a n,
  (String.length (String.substring a n s) <= n)%nat.
Proof.
  induction s as [| c s IH]; intros [| a] [| n]; simpl;
    first [lia | apply IH | specialize (IH 0%nat n); lia].
Qed.

Lemma prefix_contains sub s : String.prefix sub s = true -> contains sub s = true.
Proof.
  intros H. unfold contains. destruct s; cbn [find]; by rewrite H.
Qed.

Lemma contains_cons sub c s :
  contains sub s = true -> contains sub (String c s) = true.
Proof.
  unfold contains. intros H. cbn [find].
  destruct (String.prefix sub (String c s)); [done |].
  by destruct (find sub s).
Qed.

Lemma prefix_substring sub : forall t n,
  String.prefix sub t = true ->
  (String.length sub <= n)%nat ->
  String.prefix sub (String.substring 0 n t) = true.
Proof.
  induction sub as [| c sub IH]; intros t n Hp Hn; [by destruct (String.substring 0 n t) |].
  destruct t as [| c' t]; [done |]. simpl in Hp.
  destruct n as [| n]; [simpl in Hn; lia |]. simpl.
  destruct (Ascii.ascii_dec c c') as [-> | Hne]; [| done].
  apply IH; [done | simpl in Hn; lia].
Qed.

(** A window of [s] that covers an occurrence of [sub] contains [sub]. *)
Lemma window_covers sub pre : forall a n t,
  (a <= String.length pre)%nat ->
  (String.length pre + String.length sub <= a + n)%nat ->
  String.prefix sub t = true ->
  contains sub (String.substring a n (pre +:+ t)) = true.
Proof.
  induction pre as [| c pre IH]; intros a n t Ha Hn Hp.
  - simpl in Ha, Hn. assert (a = 0%nat) as -> by lia.
    apply prefix_contains, prefix_substring; [done | lia].
  - simpl in Ha, Hn. destruct a as [| a].
    + destruct n as [| n]; [lia |].
      change (contains sub (String c (String.substring 0 n (pre +:+ t))) = true).
      apply contains_cons, IH; [lia | lia | done].
    + change (contains sub (String.substring a n (pre +:+ t)) = true).
      apply IH; [lia | lia | done].
Qed.

Lemma find_Some_split sub s : forall i,
  find sub s = Some i ->
  exists pre t, s = pre +:+ t /\ String.length pre = i
                /\ String.prefix sub t = true.
Proof.
  induction s as [| c s IH]; intros i Hf.
  - cbn [find] in Hf. destruct (String.prefix sub EmptyString) eqn:Hp; [| done].
    injection Hf as <-. by exists EmptyString, EmptyString.
  - cbn [find] in Hf.
    destruct (String.prefix sub (String c s)) eqn:Hp.
    + injection Hf as <-. by exists EmptyString, (String c s).
    + destruct (find sub s) as [j |] eqn:Hj; [| done].
      injection Hf as <-.
      destruct (IH j eq_refl) as (pre & t & -> & Hlen & Hpt).
      exists (String c pre), t. simpl. by rewrite Hlen.
Qed.

Lemma prefix_length sub : forall t,
  String.prefix sub t = true -> (String.length sub <= String.length t)%nat.
Proof.
  induction sub as [| c sub IH]; intros [| c' t] Hp; simpl in *; try lia; try done.
  destruct (Ascii.ascii_dec c c'); [| done]. specialize (IH t Hp). lia.
Qed.

Lemma length_append a b :
  String.length (a +:+ b) = (String.length a + String.length b)%nat.
Proof.
  induction a as [| c a IH]; [done |].
  change (S (String.length (a +:+ b)) = S (String.length a + String.length b)).
  by rewrite IH.
Qed.

(** The window cut around the first occurrence of [sub] in the lower-cased
    [item], [margin] characters on each side, contains [sub] again. *)
Lemma match_window sub item margin idx qlen :
  isascii item = true ->
  find sub (lower item) = Some idx ->
  String.length sub = qlen ->
  contains sub
    (lower (slice (idx - margin)
              (Nat.min (len item) (idx + qlen + margin)) item)) = true.
Proof.
  intros Hascii Hf Hq. unfold slice. rewrite lower_substring by done.
  destruct (find_Some_split _ _ _ Hf) as (pre & t & Hs & Hlen & Hp).
  pose proof (prefix_length _ _ Hp) as Ht.
  assert (Hitem : len item = (String.length pre + String.length t)%nat).
  { rewrite <- len_lower, Hs by done. apply length_append. }
  rewrite Hs. apply window_covers; [lia | | done].
  rewrite Hitem. lia.
Qed.

(** X2: For an ASCII text and an ASCII query the snippet of a hit is a
    window of the text between two ellipses; the window holds at most 100
    characters more than the query and contains the query
    case-insensitively. *)
Theorem hit_snippet_shows_match item query :
  isascii item = true ->
  isascii query = true ->
  contains (lower query) (lower item) = true ->
  exists window,
    snippet (make_hit item query) = "..." +:+ window +:+ "..."
    /\ contains (lower query) (lower window) = true
    /\ (len window <= len query + 100)%nat.
Proof.
  intros Hitem Hquery Hc. unfold contains in Hc.
  destruct (find (lower query) (lower item)) as [idx |] eqn:Hf; [| done].
  unfold make_hit. rewrite Hf. simpl default. eexists.
  split; [reflexivity |]. split.
  - apply match_window; [done | done | by apply len_lower].
  - unfold slice, len.
    etransitivity; [apply length_substring_le |]. lia.
Qed.

Lemma hit_snippet_shows_match_witness :
  exists window,
    snippet (make_hit "We will deploy tonight" "Deploy")
    = "..." +:+ window +:+ "..."
    /\ contains (lower "Deploy") (lower window) = true
    /\ (len window <= len "Deploy" + 100)%nat.
Proof.
  apply (hit_snippet_shows_match "We will deploy tonight" "Deploy");
    reflexivity.
Defined.

End MoreBatchRpcProps.

(** ** Space discovery, further *)

Section MoreSpacesProps.
Import Py Spaces SpacesSpec DiscoverySpec Tree.

Lemma scan_typed_set_space st s :
  is_room_id s = true -> scan_typed (set_id st s "space").
Proof. intros Hs s' Heq. simpl in Heq. injection Heq as <-. by left. Qed.

Lemma scan_typed_set_dm st s :
  is_dm_id s = true -> scan_typed (set_id st s "dm").
Proof. intros Hs s' Heq. simpl in Heq. injection Heq as <-. by right. Qed.

Lemma scan_typed_fold {A} (f : scan -> A -> scan) l :
  (forall st x, scan_typed st -> scan_typed (f st x)) ->
  forall st, scan_typed st -> scan_typed (fold_left f l st).
Proof. intros Hf. induction l as [| x l IH]; simpl; auto. Qed.

Lemma scan_typed_deep st deep : scan_typed st -> scan_typed (scan_deep st deep).
Proof.
  intros Hst. destruct deep; simpl; auto.
  destruct (is_room_id s) eqn:Hr; auto using scan_typed_set_space.
Qed.

Lemma scan_typed_nested st nested :
  scan_typed st -> scan_typed (scan_nested st nested).
Proof.
  intros Hst. destruct nested; simpl; auto.
  - destruct (is_room_id s) eqn:Hr; [by apply scan_typed_set_space |].
    destruct (is_dm_id s) eqn:Hd; auto using scan_typed_set_dm.
  - apply scan_typed_fold; auto using scan_typed_deep.
Qed.

Lemma scan_typed_sub st sub : scan_typed st -> scan_typed (scan_sub st sub).
Proof.
  intros Hst. destruct sub; simpl; auto.
  - destruct (is_room_id s) eqn:Hr; [by apply scan_typed_set_space |].
    destruct (is_dm_id s) eqn:Hd; [by apply scan_typed_set_dm |].
    match goal with |- context [if ?c then _ else _] => destruct c end; auto.
  - apply scan_typed_fold; auto using scan_typed_nested.
Qed.

Lemma scan_typed_item item : scan_typed (scan_item item).
Proof.
  apply scan_typed_fold; auto using scan_typed_sub.
  intros s Hs. discriminate.
Qed.

Lemma grown_refl acc : grown acc acc.
Proof.
  exists []. rewrite app_nil_r. simpl.
  split; [done |]. split; [set_solver |]. split; constructor.
Qed.

Lemma grown_trans a b c : grown a b -> grown b c -> grown a c.
Proof.
  intros (n1 & Hl1 & Hs1 & Hd1 & Hf1) (n2 & Hl2 & Hs2 & Hd2 & Hf2).
  exists (n1 ++ n2).
  split; [by rewrite Hl2, Hl1, app_assoc |].
  split; [rewrite Hs2, Hs1, fmap_app, list_to_set_app_L; set_solver |].
  split.
  - rewrite fmap_app. apply NoDup_app. split; [done |]. split; [| done].
    intros x Hx1 Hx2. apply list_elem_of_fmap in Hx2 as (e & -> & He).
    eapply Forall_forall in Hf2; [| exact He]. destruct Hf2 as [Hnot _].
    apply Hnot. rewrite Hs1. apply elem_of_union. right.
    by apply elem_of_list_to_set.
  - apply Forall_app. split; [done |].
    eapply Forall_impl; [exact Hf2 |]. simpl. intros e [Hnot Hty].
    split; [| done]. intros Hin. apply Hnot. rewrite Hs1.
    apply elem_of_union. by left.
Qed.

Lemma grown_record st acc : scan_typed st -> grown acc (record_space st acc).
Proof.
  intros Hst. unfold record_space.
  destruct (space_id st) as [sid |] eqn:Hid; [| apply grown_refl].
  destruct (str_truthy sid && negb (bool_decide (sid ∈ acc.2))) eqn:Hc;
    [| apply grown_refl].
  apply andb_true_iff in Hc as [_ Hc]. apply negb_true_iff in Hc.
  apply bool_decide_eq_false in Hc.
  eexists [_]. simpl. split; [reflexivity |].
  split; [set_solver |]. split; [apply NoDup_singleton |].
  constructor; [| constructor]. simpl. split; [done |].
  unfold well_typed. simpl. by apply Hst.
Qed.

Lemma grown_find_spaces arr :
  forall depth acc, grown acc (find_spaces arr depth acc).
Proof.
  induction arr as [| b | n | q | s | items IH | fields _] using json_ind';
    intros depth acc;
    try (simpl; destruct (Nat.ltb 25 depth); apply grown_refl).
  rewrite find_spaces_arr.
  destruct (Nat.ltb 25 depth); [apply grown_refl |].
  revert acc. induction IH as [| item items Hitem _ IHitems]; intros acc.
  - apply grown_refl.
  - simpl. eapply grown_trans; [| apply IHitems].
    destruct item; try apply grown_refl.
    eapply grown_trans; [apply grown_record, scan_typed_item |].
    apply Hitem.
Qed.

(** X3: The pass over a pblite response only appends: the entries already in the
    list stay where they are, the new ones have pairwise distinct
    identifiers that were not in [seen_ids] and are added to it, and each is
    a room ([type] "space", 11 characters after the prefix test) or a direct
    message ([type] "dm", 21 digits). *)
Theorem pblite_pass_appends_typed_entries data spaces seen_ids :
  exists new,
    (_extract_spaces_from_pblite data spaces seen_ids).1 = spaces ++ new
    /\ (_extract_spaces_from_pblite data spaces seen_ids).2
       = seen_ids ∪ list_to_set (id <$> new)
    /\ NoDup (id <$> new)
    /\ Forall (fun e => (id e ∉ seen_ids) /\ well_typed e) new.
Proof. apply (grown_find_spaces data 0 (spaces, seen_ids)). Qed.

Lemma fold_left_fixed {A B} (f : A -> B -> A) l a :
  (forall x, x ∈ l -> f a x = a) -> fold_left f l a = a.
Proof.
  induction l as [| x l IH]; intros Hf; simpl; [done |].
  rewrite Hf; [| apply list_elem_of_here].
  apply IH. intros y Hy. apply Hf. by apply list_elem_of_further.
Qed.

(** A pass changes nothing when every identifier it would record is in
    [seen_ids] already. *)
Lemma find_spaces_noop arr :
  forall depth acc,
    (forall d subs s,
        child_at d arr (JArr subs) -> (depth + d <= 25)%nat ->
        space_id (scan_item subs) = Some s -> str_truthy s = true ->
        s ∈ acc.2) ->
    find_spaces arr depth acc = acc.
Proof.
  induction arr as [| b | n | q | s | items IH | fields _] using json_ind';
    intros depth acc Hseen;
    try (simpl; by destruct (Nat.ltb 25 depth)).
  rewrite find_spaces_arr.
  destruct (Nat.ltb_spec 25 depth) as [Hlt | Hle]; [done |].
  apply fold_left_fixed. intros item Hitem.
  destruct item as [| b | n | q | s | subs | fields]; try done.
  assert (Hrec : record_space (scan_item subs) acc = acc).
  { unfold record_space.
    destruct (space_id (scan_item subs)) as [sid |] eqn:Hid; [| done].
    destruct (str_truthy sid) eqn:Ht; [| done]. simpl.
    rewrite bool_decide_eq_true_2; [done |].
    apply (Hseen 0%nat subs sid); [by apply child_here | lia | done | done]. }
  rewrite Hrec.
  eapply Forall_forall in IH; [| exact Hitem].
  apply IH. intros d subs' s Hc Hd Hs Ht.
  apply (Hseen (S d) subs' s); [by eapply child_below | lia | done | done].
Qed.

(** X4: Running the pass a second time on the same response, from the list and
    the set the first run left, adds nothing. *)
Theorem pblite_pass_idempotent data spaces seen_ids :
  let r := _extract_spaces_from_pblite data spaces seen_ids in
  _extract_spaces_from_pblite data r.1 r.2 = r.
Proof.
  intros r. unfold _extract_spaces_from_pblite.
  replace (r.1, r.2) with r by by destruct r.
  apply find_spaces_noop. intros d subs s Hc Hd Hs Ht.
  subst r. unfold _extract_spaces_from_pblite.
  eapply scanned_id_seen; eauto.
Qed.

End MoreSpacesProps.

Section BootstrapSpacesProps.
Import Py Spaces DiscoverySpec Tree.

Lemma find_in_data_arr items spaces depth :
  _find_spaces_in_data (JArr items) spaces depth =
  if Nat.ltb 30 depth then Ok spaces
  else
    let* r :=
      for_each
        (fun (st : option string * option string * list space) item =>
           let '(sid, sname, spaces) := st in
           match item with
           | JStr s =>
               if is_room_id s then Ok (Some s, sname, spaces)
               else
                 let* c := name_candidate s in
                 if c
                 then Ok (sid,
                          match sname with
                          | None => Some s
                          | Some _ => sname
                          end, spaces)
                 else Ok st
           | JArr _ =>
               let* spaces' := _find_spaces_in_data item spaces (S depth) in
               Ok (sid, sname, spaces')
           | _ => Ok st
           end) items (None, None, spaces) in
    let '(sid, sname, spaces') := r in
    match sid with
    | Some s =>
        if str_truthy s && negb (any_id s spaces')
        then Ok (spaces' ++ [{| id := s; name := sname; type := "space" |}])
        else Ok spaces'
    | None => Ok spaces'
    end.
Proof. reflexivity. Qed.

Lemma find_in_data_obj fields spaces depth :
  _find_spaces_in_data (JObj fields) spaces depth =
  if Nat.ltb 30 depth then Ok spaces
  else for_each
         (fun spaces kv => _find_spaces_in_data kv.2 spaces (S depth))
         fields spaces.
Proof. reflexivity. Qed.

Lemma any_id_false sid spaces :
  any_id sid spaces = false <-> forall e, e ∈ spaces -> id e <> sid.
Proof.
  unfold any_id. induction spaces as [| x spaces IH]; simpl.
  - split; [intros _ e He; by apply elem_of_nil in He | done].
  - rewrite orb_false_iff, IH. split.
    + intros [Hx Hrest] e He. apply elem_of_cons in He as [-> | He]; [| auto].
      by apply String.eqb_neq.
    + intros H. split.
      * apply String.eqb_neq, H, list_elem_of_here.
      * intros e He. apply H. by apply list_elem_of_further.
Qed.

Lemma added_refl spaces : added spaces spaces.
Proof. exists []. rewrite app_nil_r. split; [done |]. split; constructor. Qed.

Lemma added_trans a b c : added a b -> added b c -> added a c.
Proof.
  intros (n1 & -> & Hd1 & Hf1) (n2 & -> & Hd2 & Hf2).
  exists (n1 ++ n2). split; [by rewrite app_assoc |]. split.
  - rewrite fmap_app. apply NoDup_app. split; [done |]. split; [| done].
    intros x Hx1 Hx2. apply list_elem_of_fmap in Hx2 as (e & -> & He).
    eapply Forall_forall in Hf2; [| exact He]. destruct Hf2 as (_ & _ & Hnot).
    apply list_elem_of_fmap in Hx1 as (e1 & Heq & He1).
    rewrite any_id_false in Hnot. apply (Hnot e1); [| done].
    apply elem_of_app. by right.
  - apply Forall_app. split; [done |].
    eapply Forall_impl; [exact Hf2 |]. simpl. intros e (Hty & Hroom & Hnot).
    split; [done |]. split; [done |].
    rewrite any_id_false in Hnot |- *. intros e0 He0.
    apply Hnot, elem_of_app. by left.
Qed.

Lemma added_snoc spaces s sname :
  is_room_id s = true -> any_id s spaces = false ->
  added spaces (spaces ++ [{| id := s; name := sname; type := "space" |}]).
Proof.
  intros Hroom Hnot. eexists [_]. split; [reflexivity |].
  split; [apply NoDup_singleton |]. constructor; [| constructor]. by simpl.
Qed.

Lemma find_in_data_added data :
  forall spaces depth spaces',
    _find_spaces_in_data data spaces depth = Ok spaces' -> added spaces spaces'.
Proof.
  induction data as [| b | n | q | s | items IH | fields IH] using json_ind';
    intros spaces depth spaces' Hrun;
    try (simpl in Hrun; destruct (Nat.ltb 30 depth);
         injection Hrun as <-; apply added_refl).
  - rewrite find_in_data_arr in Hrun.
    destruct (Nat.ltb 30 depth); [injection Hrun as <-; apply added_refl |].
    apply bind_Ok in Hrun as ([[sid sname] spaces1] & Hloop & Hrun).
    assert (Hinv : added spaces spaces1
                   /\ forall s, sid = Some s -> is_room_id s = true).
    { revert Hloop.
      apply (for_each_inv _
               (fun st : option string * option string * list space =>
                  added spaces st.2
                  /\ forall s, st.1.1 = Some s -> is_room_id s = true));
        [| split; [apply added_refl | done]].
      intros [[sid0 sname0] sp0] item [[sid1 sname1] sp1] Hitem [Ha Hs] Hstep.
      simpl in *. destruct item; try (by injection Hstep as <- <- <-).
      - destruct (is_room_id s) eqn:Hroom.
        + injection Hstep as <- <- <-. split; [done |].
          intros s0 Heq. by injection Heq as <-.
        + apply bind_Ok in Hstep as (c & _ & Hstep).
          destruct c; by injection Hstep as <- <- <-.
      - apply bind_Ok in Hstep as (sp & Hrec & Hstep).
        injection Hstep as <- <- <-. split; [| done].
        eapply added_trans; [exact Ha |].
        eapply Forall_forall in IH; [| exact Hitem]. eapply IH, Hrec. }
    destruct Hinv as [Hadded Hsid].
    destruct sid as [s |]; [| by injection Hrun as <-].
    destruct (str_truthy s && negb (any_id s spaces1)) eqn:Hc;
      injection Hrun as <-; [| done].
    apply andb_true_iff in Hc as [_ Hc]. apply negb_true_iff in Hc.
    eapply added_trans; [exact Hadded |]. apply added_snoc; auto.
  - rewrite find_in_data_obj in Hrun.
    destruct (Nat.ltb 30 depth); [injection Hrun as <-; apply added_refl |].
    revert Hrun. apply (for_each_inv _ (added spaces)); [| apply added_refl].
    intros sp0 [k v] sp1 Hkv Ha Hstep. simpl in Hstep.
    eapply added_trans; [exact Ha |].
    eapply Forall_forall in IH; [| exact Hkv]. eapply IH, Hstep.
Qed.

(** X5: When the scan of the bootstrap data returns, the space list it was
    given is a prefix of the result, and what follows are rooms (type
    "space", an 11-character identifier with the prefix) whose identifiers
    are pairwise distinct and absent from the given list. *)
Theorem bootstrap_scan_appends_new_rooms data spaces depth spaces' :
  _find_spaces_in_data data spaces depth = Ok spaces' ->
  exists new,
    spaces' = spaces ++ new
    /\ NoDup (id <$> new)
    /\ Forall (fun e => type e = "space" /\ is_room_id (id e) = true
                        /\ any_id (id e) spaces = false) new.
Proof. apply find_in_data_added. Qed.

Lemma bootstrap_scan_appends_new_rooms_witness :
  exists new,
    [{| id := "AAAA7654321"; name := None; type := "space" |}] = [] ++ new
    /\ NoDup (id <$> new)
    /\ Forall (fun e => type e = "space" /\ is_room_id (id e) = true
                        /\ any_id (id e) [] = false) new.
Proof.
  apply (bootstrap_scan_appends_new_rooms
           (JArr [JStr "AAAA1234567"; JStr "AAAA7654321"]) [] 0).
  reflexivity.
Defined.

Lemma for_each_Raise {A B} (f : B -> A -> result B) l :
  forall b e, for_each f l b = Raise e ->
              exists a b', a ∈ l /\ f b' a = Raise e.
Proof.
  induction l as [| a l IH]; intros b e Hrun; simpl in Hrun; [done |].
  destruct (f b a) as [b1 | e1] eqn:Hstep; simpl in Hrun.
  - destruct (IH b1 e Hrun) as (a' & b' & Ha & Hf).
    exists a', b'. split; [by apply list_elem_of_further | done].
  - injection Hrun as <-. exists a, b. split; [apply list_elem_of_here | done].
Qed.

Lemma name_candidate_Raise s e : name_candidate s = Raise e -> e = IndexError.
Proof.
  unfold name_candidate.
  match goal with |- context [if ?c then _ else _] => destruct c end;
    [done |].
  destruct s; simpl; [by intros [= <-] | done].
Qed.

Lemma find_in_data_Raise data :
  forall spaces depth e,
    _find_spaces_in_data data spaces depth = Raise e -> e = IndexError.
Proof.
  induction data as [| b | n | q | s | items IH | fields IH] using json_ind';
    intros spaces depth e Hrun;
    try (simpl in Hrun; by destruct (Nat.ltb 30 depth)).
  - rewrite find_in_data_arr in Hrun.
    destruct (Nat.ltb 30 depth); [done |].
    match type of Hrun with
    | bind ?r _ = _ => destruct r as [[[sid sname] spaces1] | e1] eqn:Hloop
    end; simpl in Hrun.
    + destruct sid as [s |]; [| done].
      by destruct (str_truthy s && negb (any_id s spaces1)).
    + injection Hrun as <-.
      apply for_each_Raise in Hloop as (item & [[sid sname] sp] & Hitem & Hstep).
      destruct item; try done.
      * destruct (is_room_id s); [done |].
        destruct (name_candidate s) as [c | e0] eqn:Hn; simpl in Hstep.
        -- by destruct c.
        -- injection Hstep as <-. by eapply name_candidate_Raise.
      * eapply Forall_forall in IH; [| exact Hitem].
        destruct (_find_spaces_in_data (JArr items0) sp (S depth))
          as [sp' | e0] eqn:Hrec; simpl in Hstep; [done |].
        injection Hstep as <-. eapply IH, Hrec.
  - rewrite find_in_data_obj in Hrun.
    destruct (Nat.ltb 30 depth); [done |].
    apply for_each_Raise in Hrun as ([k v] & sp & Hkv & Hstep).
    eapply Forall_forall in IH; [| exact Hkv]. eapply IH, Hstep.
Qed.

Lemma for_each_hits {A B} (f : B -> A -> result B) l a e0 :
  a ∈ l ->
  (forall b, f b a = Raise e0) ->
  (forall b x e, x ∈ l -> f b x = Raise e -> e = e0) ->
  forall b, for_each f l b = Raise e0.
Proof.
  induction l as [| x l IH]; intros Ha Hbad Honly b;
    [by apply elem_of_nil in Ha |].
  simpl. apply elem_of_cons in Ha as [<- | Ha].
  - by rewrite Hbad.
  - destruct (f b x) as [b1 | e1] eqn:Hstep; simpl.
    + apply IH; [done | done |]. intros b' y e Hy.
      apply Honly. by apply list_elem_of_further.
    + f_equal. eapply Honly; [apply list_elem_of_here | exact Hstep].
Qed.

(** X6: A list that holds an empty string makes the scan of the bootstrap data
    raise [IndexError]: the name test reads the first character of every
    string that is not a room identifier. *)
Theorem bootstrap_scan_raises_on_empty_string items spaces depth :
  JStr EmptyString ∈ items ->
  (depth <= 30)%nat ->
  _find_spaces_in_data (JArr items) spaces depth = Raise IndexError.
Proof.
  intros Hin Hd. rewrite find_in_data_arr.
  destruct (Nat.ltb_spec 30 depth) as [Hlt | _]; [lia |].
  match goal with
  | |- bind (for_each ?f _ ?b) _ = _ =>
      rewrite (for_each_hits f items (JStr EmptyString) IndexError Hin)
  end; [reflexivity | |].
  - by intros [[sid sname] sp].
  - intros [[sid sname] sp] item e Hitem Hstep. destruct item; try done.
    + destruct (is_room_id s); [done |].
      destruct (name_candidate s) as [c | e0] eqn:Hn; simpl in Hstep.
      * by destruct c.
      * injection Hstep as <-. by eapply name_candidate_Raise.
    + destruct (_find_spaces_in_data (JArr items0) sp (S depth))
        as [sp' | e0] eqn:Hrec; simpl in Hstep; [done |].
      injection Hstep as <-. eapply find_in_data_Raise, Hrec.
Qed.

Lemma bootstrap_scan_raises_on_empty_string_witness :
  _find_spaces_in_data
    (JArr [JStr "AAAA1234567"; JStr EmptyString]) [] 0 = Raise IndexError.
Proof.
  apply (bootstrap_scan_raises_on_empty_string
           [JStr "AAAA1234567"; JStr EmptyString] [] 0).
  - apply list_elem_of_further, list_elem_of_here.
  - lia.
Defined.

End BootstrapSpacesProps.

(** ** Session, further *)

Section MoreSessionProps.
Import Py Session SessionSpec.

Lemma load_Some cache_file now data :
  _load_auth_cache cache_file now = Some data ->
  cache_file = Some (JObj data)
  /\ truthy (dict_get "xsrf_token" data) = true.
Proof.
  unfold _load_auth_cache.
  destruct cache_file as [[| | | | | | d] |]; try done.
  destruct (truthy (dict_get "xsrf_token" d)) eqn:Htok; simpl; [| done].
  destruct (truthy (dict_get "cached_at" d)); [| done].
  destruct (Float.operand (dict_get "cached_at" d)); [| done].
  destruct (Float.ltb _ _); [| done]. by intros [= <-].
Qed.

(** X7: A call that returns leaves the client with a token that is true as a
    Python value (not [None], not empty): from the cache, whose token was
    tested, or from the bootstrap page, whose token was tested. *)
Theorem refresh_success_leaves_token wiz force c w :
  (refresh_tokens wiz force c w).1.1 = Ok tt ->
  truthy (xsrf_token (refresh_tokens wiz force c w).1.2) = true.
Proof.
  unfold refresh_tokens.
  destruct (if force then None else _load_auth_cache (cache_file w) (now w))
    as [cached |] eqn:Hload.
  - intros _. simpl. destruct force; [done |].
    by apply load_Some in Hload as [_ Htok].
  - destruct (mole_world w) as [resp | e]; [| done].
    destruct (negb (status resp =? 200)); [done |].
    destruct (wiz (body resp)) as [[wiz_data | e] |]; try done.
    destruct (match dict_get "qwAQke" wiz_data with
              | JStr s => String.eqb s "AccountsSignInUi"
              | _ => false
              end); [done |].
    destruct (truthy (dict_get "SMqcke" wiz_data)) eqn:Htok; [| done].
    simpl. by intros _.
Qed.

Lemma refresh_success_leaves_token_witness :
  truthy (xsrf_token
            (refresh_tokens MoreSamples.wiz_of true MoreSamples.fresh_client
               MoreSamples.first_run).1.2) = true.
Proof.
  apply (refresh_success_leaves_token MoreSamples.wiz_of true
           MoreSamples.fresh_client MoreSamples.first_run).
  reflexivity.
Defined.

(** X8: A call that raises leaves the cache file as it was. *)
Theorem refresh_failure_keeps_cache wiz force c w e :
  (refresh_tokens wiz force c w).1.1 = Raise e ->
  cache_file (refresh_tokens wiz force c w).2 = cache_file w.
Proof.
  unfold refresh_tokens.
  destruct (if force then None else _load_auth_cache (cache_file w) (now w));
    [done |].
  destruct (mole_world w) as [resp | e0]; [| done].
  destruct (negb (status resp =? 200)); [done |].
  destruct (wiz (body resp)) as [[wiz_data | e0] |]; try done.
  destruct (match dict_get "qwAQke" wiz_data with
            | JStr s => String.eqb s "AccountsSignInUi"
            | _ => false
            end); [done |].
  by destruct (negb (truthy (dict_get "SMqcke" wiz_data))).
Qed.

Lemma refresh_failure_keeps_cache_witness :
  cache_file
    (refresh_tokens no_wiz true sample_client (sample_world 2000)).2
  = cache_file (sample_world 2000).
Proof.
  apply (refresh_failure_keeps_cache no_wiz true sample_client
           (sample_world 2000) TransportError).
  reflexivity.
Defined.

Lemma age_zero now :
  Float.ltb (age_hours now now) (inject_Z 24) = true.
Proof.
  apply young_age. unfold Qminus. rewrite Qplus_opp_r. by vm_compute.
Qed.

(** X9: Save and load round trip: after a forced refresh that returns, with a
    writable cache file and a clock that is not at zero, a refresh that is
    not forced finds the token in the cache, returns it and sends nothing. *)
Theorem refresh_then_cached wiz c w c1 w1 :
  refresh_tokens wiz true c w = (Ok tt, c1, w1) ->
  cache_writable w = true ->
  Qnum (now w) <> 0 ->
  forall c',
    (refresh_tokens wiz false c' w1).1.1 = Ok tt
    /\ xsrf_token (refresh_tokens wiz false c' w1).1.2 = xsrf_token c1
    /\ (refresh_tokens wiz false c' w1).2 = w1.
Proof.
  unfold refresh_tokens at 1. simpl. intros Hrun Hw Hnow c'.
  destruct (mole_world w) as [resp | e]; [| done].
  destruct (negb (status resp =? 200)); [done |].
  destruct (wiz (body resp)) as [[wiz_data | e] |]; try done.
  destruct (match dict_get "qwAQke" wiz_data with
            | JStr s => String.eqb s "AccountsSignInUi"
            | _ => false
            end); [done |].
  destruct (truthy (dict_get "SMqcke" wiz_data)) eqn:Htok; [| done].
  simpl in Hrun. injection Hrun as <- <-.
  unfold _save_auth_cache. simpl. rewrite Hw.
  unfold refresh_tokens, _load_auth_cache. simpl.
  rewrite Htok. simpl.
  apply Z.eqb_neq in Hnow. rewrite Hnow. simpl.
  by rewrite age_zero.
Qed.

Lemma refresh_then_cached_witness :
  (refresh_tokens MoreSamples.wiz_of false MoreSamples.fresh_client
     (refresh_tokens MoreSamples.wiz_of true MoreSamples.fresh_client
        MoreSamples.first_run).2).1.1 = Ok tt
  /\ xsrf_token
       (refresh_tokens MoreSamples.wiz_of false MoreSamples.fresh_client
          (refresh_tokens MoreSamples.wiz_of true MoreSamples.fresh_client
             MoreSamples.first_run).2).1.2
     = xsrf_token
         (refresh_tokens MoreSamples.wiz_of true MoreSamples.fresh_client
            MoreSamples.first_run).1.2
  /\ (refresh_tokens MoreSamples.wiz_of false MoreSamples.fresh_client
        (refresh_tokens MoreSamples.wiz_of true MoreSamples.fresh_client
           MoreSamples.first_run).2).2
     = (refresh_tokens MoreSamples.wiz_of true MoreSamples.fresh_client
          MoreSamples.first_run).2.
Proof.
  apply (refresh_then_cached MoreSamples.wiz_of MoreSamples.fresh_client
           MoreSamples.first_run _ _ eq_refl eq_refl).
  simpl. lia.
Defined.

End MoreSessionProps.

(** ** Search, further *)

Section MoreSearchProps.
Import Py BatchRpc Session ServerSearch SearchSpec.
Variable json_loads : string -> option json.
Variable float_repr : Q -> string.
Variable wiz_global_data : string -> option (result (list (string * json))).
Variable local_match : Type.
Variable _local_search_all_spaces :
  string -> Z -> client -> env -> result (list local_match) * client * env.

Lemma length_take_upto {A} (limit : Z) (l : list A) :
  0 <= limit -> (length (take_upto limit l) <= Z.to_nat limit)%nat.
Proof.
  intros Hl. unfold take_upto.
  destruct (Z.leb_spec 0 limit); [| lia]. rewrite length_take. lia.
Qed.

(** X10: When the batch endpoint answers 200 with at least one hit, the search
    returns the hits of the response cut by [[:limit]] (at most [limit] of
    them for a [limit] that is not negative) and the local search is not
    run, whatever it would have done. *)
Theorem server_hits_returned query space_id limit c e c1 e1 resp :
  ensure_token wiz_global_data c e = (Ok tt, c1, e1) ->
  hashable (xsrf_token c1) = true ->
  batchexecute e1 (rpc_data float_repr query space_id limit (search_uuid e1))
  = Ok resp ->
  status resp = 200 ->
  _parse_batchexecute_response json_loads (body resp) query <> [] ->
  server_search json_loads float_repr wiz_global_data local_match
    _local_search_all_spaces query space_id limit c e
  = (Ok (inl (take_upto limit
                (_parse_batchexecute_response json_loads (body resp) query))),
     bump_reqid c1, e1)
  /\ (0 <= limit ->
      (length (take_upto limit
                 (_parse_batchexecute_response json_loads (body resp) query))
       <= Z.to_nat limit)%nat).
Proof.
  intros Htok Hhash Hpost Hstatus Hhits.
  split; [| apply length_take_upto].
  unfold server_search. rewrite Htok.
  unfold _execute_search_rpc. simpl xsrf_token. rewrite Hhash. simpl negb.
  cbv iota. simpl search_uuid. rewrite Hpost. unfold rpc_result.
  rewrite Hstatus. simpl.
  by destruct (_parse_batchexecute_response json_loads (body resp) query).
Qed.

End MoreSearchProps.

Section MoreSearchSamples.
Import Py BatchRpc Session ServerSearch SearchSpec MoreSamples.

Lemma server_hits_returned_witness :
  server_search loads_hit no_float SessionSpec.no_wiz string sample_local
    "deploy" None 1 token_client answering_env
  = (Ok (inl (take_upto 1
                (_parse_batchexecute_response loads_hit hit_line "deploy"))),
     bump_reqid token_client, answering_env)
  /\ (0 <= 1 ->
      (length (take_upto 1
                 (_parse_batchexecute_response loads_hit hit_line "deploy"))
       <= Z.to_nat 1)%nat).
Proof.
  apply (server_hits_returned loads_hit no_float SessionSpec.no_wiz string
           sample_local "deploy" None 1 token_client answering_env
           token_client answering_env
           {| status := 200; body := hit_line |}).
  - reflexivity.
  - reflexivity.
  - reflexivity.
  - reflexivity.
  - vm_compute. discriminate.
Defined.

End MoreSearchSamples.

(** ** Topic assembly, further *)

Section MoreParserProps.
Import Py Topics TopicsSpec AssemblySpec.
Variable strftime_usec : Z -> option string.
Variable the_space_id : string.

Local Abbreviation try_parse' :=
  (try_parse_message strftime_usec the_space_id).
Local Abbreviation extract' :=
  (extract_topic_and_messages strftime_usec the_space_id).

Lemma try_parse_good arr tid m :
  try_parse' arr tid = Ok (Some m) -> good the_space_id m.
Proof.
  unfold try_parse_message. destruct arr as [| | | | | arr |]; try discriminate.
  destruct (Nat.ltb (length arr) 10); [discriminate |].
  intros H. apply bind_Ok in H as (ts & _ & H).
  destruct (arr !! 9%nat) as [[| | | | txt | |] |]; try discriminate.
  destruct (str_truthy txt) eqn:Htxt; [| discriminate].
  destruct (parse_timestamp strftime_usec ts) as [ts_str ts_usec] eqn:Hts.
  injection H as <-. unfold good. simpl.
  split; [intros ->; discriminate |]. split; [reflexivity |].
  unfold parse_timestamp in Hts. destruct ts as [n |]; [| by injection Hts as <- <-].
  destruct (Z.eqb_spec n 0); [by injection Hts as <- <- |].
  destruct (1000000000000 <? n);
    [destruct (strftime_usec n) |]; injection Hts as <- <-; congruence.
Qed.

Lemma slot_messages_good msg_arrs tid :
  forall found,
    slot_messages strftime_usec the_space_id msg_arrs tid = Ok found ->
    Forall (good the_space_id) found.
Proof.
  induction msg_arrs as [| msg_arr rest IH]; intros found H; simpl in H.
  - injection H as <-. constructor.
  - destruct msg_arr; auto.
    apply bind_Ok in H as (msg & Hmsg & H).
    apply bind_Ok in H as (more & Hmore & H).
    injection H as <-. specialize (IH _ Hmore).
    destruct msg as [m |]; [| exact IH].
    constructor; [by eapply try_parse_good | exact IH].
Qed.

Section Invariant.
Variable I : acc -> Prop.
Hypothesis add_topic_I :
  forall tid ts found st,
    I st -> Forall (good the_space_id) found ->
    I (add_topic the_space_id tid ts found st).

(** An invariant that [add_topic] keeps is kept by the traversal. *)
Lemma extract_inv arr :
  forall depth parent st st',
    I st -> extract' arr depth parent st = Ok st' -> I st'.
Proof.
  induction arr as [| b | n | q | s | items IH | fields _] using json_ind';
    intros depth parent st st' Hst Hrun;
    try (simpl in Hrun; destruct (Nat.ltb 30 depth);
         injection Hrun as <-; exact Hst).
  rewrite extract_topic_arr in Hrun.
  destruct (Nat.ltb 30 depth); [by injection Hrun as <- |].
  cbv zeta in Hrun.
  apply bind_Ok in Hrun as (ts & _ & Hrun).
  apply bind_Ok in Hrun as (topic_messages & Hslot & Hrun).
  apply bind_Ok in Hrun as ([found st1] & Hloop & Hrun).
  injection Hrun as <-. simpl.
  assert (Hinv : Forall (good the_space_id) found /\ I st1).
  { destruct topic_messages as [| m0 ms].
    - revert Hloop.
      apply (for_each_inv _
               (fun r : list message * acc =>
                  Forall (good the_space_id) r.1 /\ I r.2)); [| by split].
      intros [found0 st0] item [found' st0'] Hitem [Hf0 Hs0] Hstep.
      simpl in *. destruct item; try (by injection Hstep as <- <-).
      apply bind_Ok in Hstep as (msg & Hmsg & Hstep).
      destruct msg as [m |].
      + injection Hstep as <- <-. split; [| exact Hs0].
        apply Forall_app. split; [exact Hf0 |].
        constructor; [by eapply try_parse_good | constructor].
      + apply bind_Ok in Hstep as (st2 & Hrec & Hstep).
        injection Hstep as <- <-. split; [exact Hf0 |].
        eapply Forall_forall in IH; [| exact Hitem].
        eapply IH; eauto.
    - injection Hloop as <- <-. split; [| exact Hst].
      destruct (items !! 6%nat) as [[| | | | | msg_arrs |] |];
        try discriminate.
      by eapply slot_messages_good. }
  destruct Hinv as [Hfound Hst1]. by apply add_topic_I.
Qed.

Lemma parse_inv data p :
  I acc_init ->
  _parse_topics_with_threads strftime_usec the_space_id data = Ok p ->
  exists st,
    I st
    /\ topics p = acc_topics st
    /\ messages p = dedupe ∅ (sorted_desc (acc_messages st))
    /\ next_cursor p = oldest_timestamp st.
Proof.
  unfold _parse_topics_with_threads. intros Hinit H.
  apply bind_Ok in H as (st & Hst & H). injection H as <-.
  exists st. split; [| by repeat split].
  destruct (topics_array data) as [[| t ts] |].
  - eapply extract_inv; [apply Hinit | exact Hst].
  - revert Hst. unfold each_topic.
    apply (for_each_inv _ I); [| apply Hinit].
    intros st0 item st0' _ Hst0 Hstep. by eapply extract_inv.
  - eapply extract_inv; [apply Hinit | exact Hst].
Qed.
End Invariant.

Lemma Forall_marked (P : message -> Prop) found :
  (forall i m, P m -> P (mark i m)) ->
  Forall P found -> Forall P (imap mark (sorted_asc found)).
Proof.
  intros Hmark Hall. apply Forall_lookup. intros i m Hi.
  apply list_lookup_imap_Some in Hi as (m0 & Hm0 & ->).
  apply Hmark. apply list_elem_of_lookup_2 in Hm0.
  unfold sorted_asc in Hm0. apply elem_of_sort_by in Hm0.
  by eapply Forall_forall in Hall.
Qed.

Lemma add_topic_all_good tid ts found st :
  all_good the_space_id st -> Forall (good the_space_id) found ->
  all_good the_space_id (add_topic the_space_id tid ts found st).
Proof.
  intros [Htopics Hmsgs] Hfound. unfold add_topic.
  destruct tid as [t |]; [| done].
  destruct found as [| m0 found]; [done |].
  destruct (str_truthy t); [| done].
  assert (Hmarked : Forall (good the_space_id)
                      (imap mark (sorted_asc (m0 :: found))))
    by (apply Forall_marked; [by intros i m | done]).
  split; cbn [acc_topics acc_messages].
  - apply Forall_app. split; [done |]. constructor; [| constructor].
    by split.
  - apply Forall_app. by split.
Qed.

(** X11: Every message of a page, in the topics and in the flat list, has a text
    that is not empty and the space identifier the parser was given; every
    topic has that space identifier too. *)
Theorem page_messages_have_text data p :
  _parse_topics_with_threads strftime_usec the_space_id data = Ok p ->
  Forall (fun m => text m <> EmptyString /\ space_id m = the_space_id)
    (messages p)
  /\ Forall (fun t => t_space_id t = the_space_id
                      /\ Forall (fun m => text m <> EmptyString
                                          /\ space_id m = the_space_id)
                           (replies t)) (topics p).
Proof.
  intros Hp.
  apply (parse_inv (all_good the_space_id)) in Hp
    as (st & [Htopics Hmsgs] & Ht & Hm & _).
  - split.
    + rewrite Hm. apply Forall_forall. intros m Hin.
      apply elem_of_dedupe_by, elem_of_sort_by in Hin.
      eapply Forall_forall in Hmsgs; [| exact Hin].
      destruct Hmsgs as (? & ? & _). by split.
    + rewrite Ht. eapply Forall_impl; [exact Htopics |]. simpl.
      intros t [Hsid Hall]. split; [done |].
      eapply Forall_impl; [exact Hall |]. simpl. intros m (? & ? & _).
      by split.
  - intros tid ts found st. apply add_topic_all_good.
  - split; constructor.
Qed.

Lemma track_keeps found : forall o x,
  o = Some x ->
  exists y, fold_left track_oldest found o = Some y /\ y <= x.
Proof.
  induction found as [| m found IH]; intros o x ->; simpl.
  - exists x. split; [done | lia].
  - unfold track_oldest at 2.
    destruct (timestamp_usec m) as [ts |]; [| by apply IH].
    destruct (negb (ts =? 0)); [| by apply IH].
    destruct (Z.ltb_spec ts x).
    + destruct (IH (Some ts) ts eq_refl) as (y & Hy & Hle).
      exists y. split; [done | lia].
    + by apply IH.
Qed.

Lemma track_covers found : forall o m c,
  m ∈ found -> timestamp_usec m = Some c -> c <> 0 ->
  exists y, fold_left track_oldest found o = Some y /\ y <= c.
Proof.
  induction found as [| m0 found IH]; intros o m c Hm Hts Hc;
    [by apply elem_of_nil in Hm |].
  simpl. apply elem_of_cons in Hm as [<- | Hm]; [| by eapply IH].
  unfold track_oldest at 2. rewrite Hts.
  apply Z.eqb_neq in Hc. rewrite Hc. simpl.
  destruct o as [x |].
  - destruct (Z.ltb_spec c x).
    + by apply track_keeps.
    + destruct (track_keeps found (Some x) x eq_refl) as (y & Hy & Hle).
      exists y. split; [done | lia].
  - by apply track_keeps.
Qed.

Lemma track_origin found : forall o y,
  fold_left track_oldest found o = Some y ->
  o = Some y \/ exists m, m ∈ found /\ timestamp_usec m = Some y.
Proof.
  induction found as [| m found IH]; intros o y Hy; simpl in Hy; [by left |].
  apply IH in Hy as [Hy | (m' & Hm' & Hts)].
  - unfold track_oldest in Hy.
    destruct (timestamp_usec m) as [ts |] eqn:Hts; [| by left].
    destruct (negb (ts =? 0)); [| by left].
    destruct o as [x |].
    + destruct (ts <? x); [| by left].
      right. exists m. split; [apply list_elem_of_here | congruence].
    + right. exists m. split; [apply list_elem_of_here | congruence].
  - right. exists m'. split; [by apply list_elem_of_further | done].
Qed.

Lemma marked_timestamps found m :
  m ∈ imap mark (sorted_asc found) ->
  exists m0, m0 ∈ found /\ timestamp_usec m = timestamp_usec m0.
Proof.
  intros Hm. apply list_elem_of_lookup_1 in Hm as [i Hi].
  apply list_lookup_imap_Some in Hi as (m0 & Hm0 & ->).
  exists m0. split; [| done].
  apply list_elem_of_lookup_2 in Hm0. unfold sorted_asc in Hm0.
  by apply elem_of_sort_by in Hm0.
Qed.

Lemma timestamps_marked found m0 :
  m0 ∈ found ->
  exists m, m ∈ imap mark (sorted_asc found)
            /\ timestamp_usec m = timestamp_usec m0.
Proof.
  intros Hm. apply (elem_of_sort_by (fun a b => sort_key a <=? sort_key b)) in Hm.
  apply list_elem_of_lookup_1 in Hm as [i Hi].
  exists (mark i m0). split; [| done].
  apply list_elem_of_lookup_2 with i.
  rewrite list_lookup_imap. unfold sorted_asc. by rewrite Hi.
Qed.

Lemma add_topic_oldest_ok tid ts found st :
  oldest_ok st -> Forall (good the_space_id) found ->
  oldest_ok (add_topic the_space_id tid ts found st).
Proof.
  intros [Hwit Hmin] Hfound. unfold add_topic.
  destruct tid as [t |]; [| done].
  destruct found as [| m0 found]; [done |].
  destruct (str_truthy t); [| done].
  set (fs := m0 :: found) in *.
  split; cbn [acc_topics oldest_timestamp].
  - intros c Hc. apply track_origin in Hc as [Hc | (m & Hm & Hts)].
    + destruct (Hwit c Hc) as (t0 & m & Ht0 & Hm & Hts).
      exists t0, m. split; [apply elem_of_app; by left | done].
    + destruct (timestamps_marked fs m Hm) as (m' & Hm' & Heq).
      eexists _, m'. split; [apply elem_of_app; right; apply list_elem_of_here |].
      split; [exact Hm' | congruence].
  - intros t0 m c Ht0 Hm Hts. apply elem_of_app in Ht0 as [Ht0 | Ht0].
    + destruct (Hmin t0 m c Ht0 Hm Hts) as (o & Ho & Hle).
      destruct (track_keeps fs _ o Ho) as (y & Hy & Hle').
      exists y. split; [done | lia].
    + apply list_elem_of_singleton in Ht0 as ->. simpl in Hm.
      destruct (marked_timestamps fs m Hm) as (m1 & Hm1 & Heq).
      eapply Forall_forall in Hfound; [| exact Hm1].
      destruct Hfound as (_ & _ & Hnz).
      apply (track_covers fs _ m1 c); [done | congruence |].
      intros ->. apply Hnz. congruence.
Qed.

(** X12: [next_cursor] is the oldest timestamp of the page: it is the timestamp
    of a message of one of the topics, and no message of a topic has an
    older one; when it is null no message of any topic has a timestamp. *)
Theorem next_cursor_is_oldest data p :
  _parse_topics_with_threads strftime_usec the_space_id data = Ok p ->
  (forall c, next_cursor p = Some c ->
             exists t m, t ∈ topics p /\ m ∈ replies t
                         /\ timestamp_usec m = Some c)
  /\ (forall t m c, t ∈ topics p -> m ∈ replies t ->
                    timestamp_usec m = Some c ->
                    exists o, next_cursor p = Some o /\ o <= c).
Proof.
  intros Hp.
  apply (parse_inv oldest_ok) in Hp as (st & Hok & Ht & _ & Hc).
  - rewrite Ht, Hc. exact Hok.
  - intros tid ts found st. apply add_topic_oldest_ok.
  - split; [done |]. intros t m c Ht. by apply elem_of_nil in Ht.
Qed.

Lemma dedupe_by_sorted (R : message -> message -> Prop) key msgs :
  forall seen,
    StronglySorted R msgs -> StronglySorted R (dedupe_by key seen msgs).
Proof.
  induction msgs as [| x msgs IH]; intros seen Hs; simpl; [constructor |].
  apply StronglySorted_inv in Hs as [Hs Hx].
  case_bool_decide; [by apply IH |].
  constructor; [by apply IH |].
  apply Forall_forall. intros m Hm. apply elem_of_dedupe_by in Hm.
  by eapply Forall_forall in Hx.
Qed.

(** X13: The flat list of a page is ordered newest first: timestamps never
    increase along it, a missing timestamp counted as 0. *)
Theorem page_messages_newest_first data p :
  _parse_topics_with_threads strftime_usec the_space_id data = Ok p ->
  StronglySorted
    (fun a b => default 0 (timestamp_usec b) <= default 0 (timestamp_usec a))
    (messages p).
Proof.
  intros Hp. apply parse_acc in Hp as (st & _ & _ & Hm & _).
  rewrite Hm. apply dedupe_by_sorted. unfold sorted_desc.
  apply sort_by_sorted.
  - intros x y H. by apply Z.leb_le.
  - intros x y H. apply Z.leb_gt in H. unfold sort_key in H. lia.
  - intros x y z. lia.
Qed.

End MoreParserProps.

Section MoreParserSamples.
Import Py Topics Samples.

Lemma page_messages_have_text_witness :
  Forall (fun m => text m <> EmptyString /\ space_id m = "S")
    (messages parsed)
  /\ Forall (fun t => t_space_id t = "S"
                      /\ Forall (fun m => text m <> EmptyString
                                          /\ space_id m = "S")
                           (replies t)) (topics parsed).
Proof.
  apply (page_messages_have_text no_format "S" response parsed). reflexivity.
Defined.

Lemma next_cursor_is_oldest_witness :
  (forall c, next_cursor parsed = Some c ->
             exists t m, t ∈ topics parsed /\ m ∈ replies t
                         /\ timestamp_usec m = Some c)
  /\ (forall t m c, t ∈ topics parsed -> m ∈ replies t ->
                    timestamp_usec m = Some c ->
                    exists o, next_cursor parsed = Some o /\ o <= c).
Proof.
  apply (next_cursor_is_oldest no_format "S" response parsed). reflexivity.
Defined.

Lemma page_messages_newest_first_witness :
  StronglySorted
    (fun a b => default 0 (timestamp_usec b) <= default 0 (timestamp_usec a))
    (messages parsed).
Proof.
  apply (page_messages_newest_first no_format "S" response parsed).
  reflexivity.
Defined.

End MoreParserSamples.

Section ParserTotalProps.
Import Py Topics AssemblySpec.
Variable strftime_usec : Z -> option string.
Variable the_space_id : string.

Lemma plain_arr items : plain (JArr items) = forallb plain items.
Proof. reflexivity. Qed.

Lemma plain_lookup items i v :
  plain (JArr items) = true -> items !! i = Some v -> plain v = true.
Proof.
  rewrite plain_arr, forallb_forall. intros Hall Hi.
  apply Hall, list_elem_of_In. by eapply list_elem_of_lookup_2.
Qed.

Lemma int_digits_plain s : forall acc,
  all_chars is_decimal s = true ->
  exists n, int_digits acc s = Some n.
Proof.
  induction s as [| c s IH]; intros acc Hd; simpl in *; [eauto |].
  apply andb_true_iff in Hd as [Hc Hd]. rewrite Hc. by apply IH.
Qed.

Lemma int_slot_plain v :
  (forall x, v = Some x -> plain x = true) ->
  exists n, int_slot v = Ok n.
Proof.
  intros Hv. destruct v as [[| | | | s | |] |]; simpl; eauto.
  destruct (isdigit s) eqn:Hd; [| eauto].
  specialize (Hv _ eq_refl). simpl in Hv. rewrite Hd in Hv. simpl in Hv.
  apply andb_true_iff in Hv as [Hdec Hlen]. unfold int_of_str.
  apply Nat.leb_le in Hlen.
  destruct (Nat.ltb_spec 4300 (len s)) as [Hlt | _]; [lia |].
  destruct (int_digits_plain s 0 Hdec) as (n & ->). simpl. eauto.
Qed.

Lemma try_parse_plain arr tid :
  plain arr = true ->
  exists r, try_parse_message strftime_usec the_space_id arr tid = Ok r.
Proof.
  intros Hp. unfold try_parse_message.
  destruct arr as [| | | | | arr |]; eauto.
  destruct (Nat.ltb (length arr) 10); [eauto |].
  destruct (int_slot_plain (arr !! 2%nat)) as (ts & ->).
  { intros x Hx. by eapply plain_lookup. }
  simpl. destruct (arr !! 9%nat) as [[| | | | txt | |] |]; eauto.
  destruct (str_truthy txt); [| eauto].
  destruct (parse_timestamp strftime_usec ts). eauto.
Qed.

Lemma slot_messages_plain msg_arrs tid :
  forallb plain msg_arrs = true ->
  exists found,
    slot_messages strftime_usec the_space_id msg_arrs tid = Ok found.
Proof.
  induction msg_arrs as [| msg_arr rest IH]; intros Hp; simpl in *; [eauto |].
  apply andb_true_iff in Hp as [Hm Hrest].
  destruct (IH Hrest) as (more & Hmore).
  destruct msg_arr; eauto.
  destruct (try_parse_plain (JArr items) tid Hm) as (r & ->).
  rewrite Hmore. simpl. eauto.
Qed.

Lemma for_each_Ok {A B} (f : B -> A -> result B) l :
  (forall b a, a ∈ l -> exists b', f b a = Ok b') ->
  forall b, exists b', for_each f l b = Ok b'.
Proof.
  induction l as [| a l IH]; intros Hf b; simpl; [eauto |].
  destruct (Hf b a) as (b1 & ->); [apply list_elem_of_here |]. simpl.
  apply IH. intros b0 a0 Ha0. apply Hf. by apply list_elem_of_further.
Qed.

Lemma extract_plain arr :
  plain arr = true ->
  forall depth parent st,
    exists st',
      extract_topic_and_messages strftime_usec the_space_id arr depth parent st
      = Ok st'.
Proof.
  induction arr as [| b | n | q | s | items IH | fields _] using json_ind';
    intros Hp depth parent st;
    try (simpl; destruct (Nat.ltb 30 depth); by eauto).
  rewrite extract_topic_arr.
  destruct (Nat.ltb 30 depth); [eauto |]. cbv zeta.
  destruct (int_slot_plain (items !! 1%nat)) as (ts & ->).
  { intros x Hx. by eapply plain_lookup. }
  simpl.
  assert (Hslot : exists found,
             match items !! 6%nat with
             | Some (JArr msg_arrs) =>
                 slot_messages strftime_usec the_space_id msg_arrs
                   (or_str (id_slot items) parent)
             | _ => Ok []
             end = Ok found).
  { destruct (items !! 6%nat) as [[| | | | | msg_arrs |] |] eqn:H6; eauto.
    apply slot_messages_plain.
    apply (plain_lookup items 6 (JArr msg_arrs)) in Hp; done. }
  destruct Hslot as (found & ->). simpl.
  destruct found as [| m0 found]; [| simpl; eauto].
  match goal with
  | |- exists st', bind (for_each ?f items ?b0) _ = _ =>
      assert (Hloop : forall b, exists b', for_each f items b = Ok b');
      [apply for_each_Ok | destruct (Hloop b0) as (r & ->); simpl; eauto]
  end.
  intros [found0 st0] item Hitem. cbn [fst snd].
  destruct item; eauto.
  assert (Hpi : plain (JArr items0) = true).
  { rewrite plain_arr, forallb_forall in Hp.
    by apply Hp, list_elem_of_In. }
  destruct (try_parse_plain (JArr items0) (or_str (id_slot items) parent) Hpi)
    as (msg & ->). cbn [bind].
  destruct msg as [m |]; [eauto |].
  eapply Forall_forall in IH; [| exact Hitem].
  destruct (IH Hpi (S depth) (or_str (id_slot items) parent) st0) as (st' & ->).
  cbn [bind]. eauto.
Qed.

(** X14: The parser returns a page for every response tree in which each
    string that [str.isdigit] accepts is made of at most 4300 ASCII digits,
    whatever the shape of the tree: a slot that does not have the expected
    type is skipped, never an error. *)
Theorem parser_returns_on_plain_trees data :
  plain data = true ->
  exists p, _parse_topics_with_threads strftime_usec the_space_id data = Ok p.
Proof.
  intros Hp. unfold _parse_topics_with_threads.
  assert (Hst : exists st,
             match topics_array data with
             | Some (t :: ts) =>
                 each_topic strftime_usec the_space_id (t :: ts) acc_init
             | _ => extract_topic_and_messages strftime_usec the_space_id
                      data 0 None acc_init
             end = Ok st).
  { destruct (topics_array data) as [[| t ts] |] eqn:Hta;
      try by apply extract_plain.
    unfold each_topic. apply for_each_Ok. intros st0 item Hitem.
    apply extract_plain.
    unfold topics_array in Hta.
    destruct data as [| | | | | [| [| | | | | d0 |] rest] |]; try done.
    destruct (d0 !! 1%nat) as [[| | | | | tsl |] |] eqn:H1; try done.
    injection Hta as Heq. subst tsl.
    assert (Hd0 : plain (JArr d0) = true)
      by (apply (plain_lookup (JArr d0 :: rest) 0); done).
    apply (plain_lookup d0 1 (JArr (t :: ts))) in Hd0; [| done].
    rewrite plain_arr, forallb_forall in Hd0.
    by apply Hd0, list_elem_of_In. }
  destruct Hst as (st & ->). simpl. eauto.
Qed.

End ParserTotalProps.

Lemma parser_returns_on_plain_trees_witness :
  exists p,
    Topics._parse_topics_with_threads Samples.no_format "S" Samples.response
    = Ok p.
Proof.
  apply (parser_returns_on_plain_trees Samples.no_format "S" Samples.response).
  reflexivity.
Defined.


(** ** Pagination, further *)

Section MorePaginationProps.
Import Py Topics Pagination PaginationSpec.
Variable World : Type.
Variable fetch_page : option Z -> World -> result page * World.

Lemma page_loop_raise n :
  forall cursor acc w log,
    exists new,
      (page_loop (logged World) (logging fetch_page) n cursor acc (w, log)).2.2
      = log ++ new
      /\ forall e,
           (page_loop (logged World) (logging fetch_page) n cursor acc
              (w, log)).1 = Raise e
           <-> exists c, last new = Some (c, Raise e).
Proof.
  induction n as [| n IH]; intros cursor acc w log; simpl.
  - exists []. rewrite app_nil_r. split; [done |].
    intros e. split; [done | by intros [c Hc]].
  - unfold logging at 1 3. simpl.
    destruct (fetch_page cursor w) as [[pg0 | e0] w1]; simpl.
    + destruct (negb (has_more pg0)
                || negb (cursor_truthy (next_cursor pg0))).
      * exists [(cursor, Ok pg0)]. split; [done |].
        intros e. simpl. split; [done | by intros [c Hc]].
      * destruct (IH (next_cursor pg0) (acc ++ messages pg0) w1
                    (log ++ [(cursor, Ok pg0)])) as (new & Hlog & Hiff).
        exists ((cursor, Ok pg0) :: new).
        split; [rewrite Hlog, <- app_assoc; reflexivity |].
        intros e. rewrite Hiff, last_cons.
        destruct (last new) as [[c1 r1] |]; [done |].
        split; intros [c Hc]; done.
    + exists [(cursor, Raise e0)]. split; [done |].
      intros e. simpl. split.
      * intros [= <-]. by exists cursor.
      * by intros [c [= _ <-]].
Qed.

(** X15: [get_all_messages] raises exactly when the last page request it made
    raised, and with the same exception: the messages of the pages before
    are not returned. *)
Theorem get_all_messages_raises_with_last_page max_pages w e :
  let run :=
    get_all_messages_with (logged World) (logging fetch_page)
      max_pages (w, []) in
  run.1 = Raise e <-> exists c, last run.2.2 = Some (c, Raise e).
Proof.
  unfold get_all_messages_with.
  destruct (page_loop_raise (Z.to_nat max_pages) None [] w [])
    as (new & Hlog & Hiff).
  specialize (Hiff e).
  destruct (page_loop (logged World) (logging fetch_page)
              (Z.to_nat max_pages) None [] (w, [])) as [r [w' log]].
  simpl in *. subst log. rewrite <- Hiff.
  destruct r; simpl; split; done.
Qed.

Lemma dedupe_by_first key l1 : forall seen m l2,
  key m ∉ seen ->
  (forall x, x ∈ l1 -> key x <> key m) ->
  m ∈ dedupe_by key seen (l1 ++ m :: l2).
Proof.
  induction l1 as [| x l1 IH]; intros seen m l2 Hfresh Hne; simpl.
  - rewrite bool_decide_eq_false_2; [apply list_elem_of_here | done].
  - assert (Hx : key x <> key m) by apply Hne, list_elem_of_here.
    assert (Hrest : forall y, y ∈ l1 -> key y <> key m)
      by (intros y Hy; by apply Hne, list_elem_of_further).
    case_bool_decide.
    + by apply IH.
    + apply list_elem_of_further, IH; [| done].
      by intros [?%elem_of_singleton | ?]%elem_of_union.
Qed.

Lemma page_key_id_or_prefix m : page_key m = id_or_prefix m.
Proof.
  unfold page_key, id_or_prefix. by destruct (message_id m) as [[| c s] |].
Qed.

Lemma fmap_page_key (l : list message) :
  page_key <$> l = id_or_prefix <$> l.
Proof.
  induction l as [| m l IH]; [done |].
  by rewrite !fmap_cons, IH, page_key_id_or_prefix.
Qed.

(** X16: Of the messages the fetched pages bring, the one kept for a key
    (the message identifier, or the first 50 characters of the text when
    there is none) is the first in page order: a message with no earlier
    message of the same key is in the result. *)
Theorem get_all_messages_keeps_first max_pages w unique w' l1 m l2 :
  get_all_messages_with World fetch_page max_pages w = (Ok unique, w') ->
  concat (map messages
            (fetched_pages World fetch_page (Z.to_nat max_pages) None w))
  = l1 ++ m :: l2 ->
  (forall x, x ∈ l1 -> id_or_prefix x <> id_or_prefix m) ->
  m ∈ unique.
Proof.
  intros Hrun Hall Hfirst. unfold get_all_messages_with in Hrun.
  destruct (page_loop World fetch_page (Z.to_nat max_pages) None [] w)
    as [[all | e0] w1] eqn:Hloop; simpl in Hrun; [| discriminate].
  injection Hrun as <- <-.
  apply page_loop_concat in Hloop. simpl in Hloop. rewrite Hall in Hloop.
  subst all. unfold dedupe_all. apply dedupe_by_first; [set_solver |].
  intros x Hx. rewrite !page_key_id_or_prefix. by apply Hfirst.
Qed.

End MorePaginationProps.

Section MorePaginationSamples.
Import Py Topics Pagination PaginationSpec.

Lemma get_all_messages_keeps_first_witness :
  sample_message (Some "M4") "hello world" 5
  ∈ [sample_message (Some "M1") "hello world" 9;
     sample_message None "no identifier here" 8;
     sample_message (Some "M4") "hello world" 5].
Proof.
  apply (get_all_messages_keeps_first unit two_pages 10 tt _ tt
           (messages first_page
            ++ [sample_message (Some "M1") "hello again" 7;
                sample_message None "no identifier here" 6])
           (sample_message (Some "M4") "hello world" 5) []).
  - reflexivity.
  - reflexivity.
  - intros x Hx. vm_compute in Hx.
    repeat (apply elem_of_cons in Hx as [-> | Hx]; [by vm_compute |]).
    by apply elem_of_nil in Hx.
Defined.

End MorePaginationSamples.

(** ** Known spaces *)

Section KnownSpacesProps.
Import Py Spaces KnownSpaces.

Lemma any_id_true sid spaces :
  any_id sid spaces = true <-> exists e, e ∈ spaces /\ id e = sid.
Proof.
  unfold any_id. rewrite existsb_exists. split.
  - intros (e & He & Heq). exists e. split; [by apply list_elem_of_In |].
    by apply String.eqb_eq.
  - intros (e & He & Heq). exists e. split; [by apply list_elem_of_In |].
    by apply String.eqb_eq.
Qed.

Lemma rename_id s n : id (rename s n) = id s.
Proof. destruct n as [n |]; simpl; [by destruct (str_truthy n) | done]. Qed.

Lemma rename_type s n : type (rename s n) = type s.
Proof. destruct n as [n |]; simpl; [by destruct (str_truthy n) | done]. Qed.

Lemma rename_twice s n : rename (rename s n) n = rename s n.
Proof.
  destruct n as [n |]; [| done]. unfold rename.
  by destruct (str_truthy n).
Qed.

Lemma update_existing_None spaces sid n :
  update_existing spaces sid n = None <-> any_id sid spaces = false.
Proof.
  induction spaces as [| s rest IH]; simpl; [done |].
  destruct (String.eqb (id s) sid); simpl; [done |].
  rewrite <- IH. by destruct (update_existing rest sid n).
Qed.

Lemma update_existing_Some spaces sid n : forall updated,
  update_existing spaces sid n = Some updated ->
  id <$> updated = id <$> spaces
  /\ type <$> updated = type <$> spaces
  /\ update_existing updated sid n = Some updated
  /\ forall e, id e <> sid -> (e ∈ updated <-> e ∈ spaces).
Proof.
  induction spaces as [| s rest IH]; intros updated Hu; simpl in Hu; [done |].
  destruct (String.eqb_spec (id s) sid) as [Heq | Hne].
  - injection Hu as <-. rewrite !fmap_cons, rename_id, rename_type.
    split; [done |]. split; [done |]. split.
    + simpl. rewrite rename_id. apply String.eqb_eq in Heq. rewrite Heq.
      by rewrite rename_twice.
    + intros e He. rewrite !elem_of_cons. split; intros [-> | Hin]; auto.
      * by rewrite rename_id in He.
      * done.
  - destruct (update_existing rest sid n) as [u |] eqn:Hrest; [| done].
    injection Hu as <-.
    destruct (IH u eq_refl) as (Hid & Hty & Hagain & Hother).
    rewrite !fmap_cons, Hid, Hty. split; [done |]. split; [done |]. split.
    + simpl. apply String.eqb_neq in Hne. by rewrite Hne, Hagain.
    + intros e He. rewrite !elem_of_cons, Hother; done.
Qed.

Lemma update_existing_snoc spaces sid n e :
  update_existing spaces sid n = None -> id e = sid ->
  update_existing (spaces ++ [e]) sid n = Some (spaces ++ [rename e n]).
Proof.
  intros Hnone He. induction spaces as [| s rest IH]; simpl in *.
  - apply String.eqb_eq in He. by rewrite He.
  - destruct (String.eqb (id s) sid); [done |].
    destruct (update_existing rest sid n); [done |]. by rewrite IH.
Qed.

(** X17: [add_space] leaves the identifiers and types of the list as they were
    when the identifier is known, and appends one entry otherwise (a room
    when the identifier begins with AAAA, a direct message if not); the
    identifier is in the list afterwards, and the entries with another
    identifier are the same before and after. *)
Theorem add_space_adds_once spaces sid n :
  id <$> add_space spaces sid n =
    (if any_id sid spaces then id <$> spaces else (id <$> spaces) ++ [sid])
  /\ type <$> add_space spaces sid n =
       (if any_id sid spaces then type <$> spaces
        else (type <$> spaces)
             ++ [if startswith "AAAA" sid then "space" else "dm"])
  /\ any_id sid (add_space spaces sid n) = true
  /\ forall e, id e <> sid -> (e ∈ add_space spaces sid n <-> e ∈ spaces).
Proof.
  unfold add_space.
  destruct (update_existing spaces sid n) as [u |] eqn:Hu.
  - destruct (update_existing_Some _ _ _ _ Hu) as (Hid & Hty & _ & Hother).
    assert (Hany : any_id sid spaces = true).
    { destruct (any_id sid spaces) eqn:Ha; [done |].
      apply update_existing_None with (n := n) in Ha. congruence. }
    rewrite Hany. split; [done |]. split; [done |]. split; [| done].
    apply any_id_true in Hany as (e & He & Heq). apply any_id_true.
    apply list_elem_of_fmap_2 with (f := id) in He. rewrite <- Hid in He.
    apply list_elem_of_fmap in He as (e' & He' & Hin). exists e'.
    split; [done | congruence].
  - apply update_existing_None in Hu. rewrite Hu, !fmap_app. simpl.
    split; [done |]. split; [done |]. split.
    + apply any_id_true. eexists.
      split; [apply elem_of_app; right; apply list_elem_of_here | reflexivity].
    + intros e He. rewrite elem_of_app, list_elem_of_singleton.
      split; [intros [? | ->]; [done | by simpl in He] | by left].
Qed.

(** X18: Adding the same space with the same name a second time changes
    nothing. *)
Theorem add_space_idempotent spaces sid n :
  add_space (add_space spaces sid n) sid n = add_space spaces sid n.
Proof.
  unfold add_space at 2 3.
  destruct (update_existing spaces sid n) as [u |] eqn:Hu.
  - destruct (update_existing_Some _ _ _ _ Hu) as (_ & _ & Hagain & _).
    unfold add_space. by rewrite Hagain.
  - unfold add_space. erewrite update_existing_snoc; [| done | done].
    f_equal. f_equal. unfold rename, name_or.
    destruct n as [n |]; [| done]. by destruct (str_truthy n).
Qed.

Lemma lower_char_idempotent c : lower_char (lower_char c) = lower_char c.
Proof.
  destruct c as [[|] [|] [|] [|] [|] [|] [|] [|]]; vm_compute; reflexivity.
Qed.

Lemma lower_idempotent s : lower (lower s) = lower s.
Proof.
  induction s as [| c s IH]; simpl; [done |].
  by rewrite lower_char_idempotent, IH.
Qed.

Lemma contains_empty s : contains EmptyString s = true.
Proof. apply prefix_contains. by destruct s. Qed.

Lemma filter_all {A} (f : A -> bool) l :
  (forall x, f x = true) -> List.filter f l = l.
Proof.
  intros Hf. induction l as [| x l IH]; simpl; [done |]. by rewrite Hf, IH.
Qed.

(** A loop that appends the selected elements builds the filtered list. *)
Lemma append_loop {A B} (p : A -> bool) (f : A -> B) l : forall init,
  fold_left (fun acc x => if p x then acc ++ [f x] else acc) l init
  = init ++ map f (List.filter p l).
Proof.
  induction l as [| x l IH]; intros init; simpl; [by rewrite app_nil_r |].
  rewrite IH. destruct (p x); [| done]. by rewrite <- app_assoc.
Qed.

Lemma display_name_or_id s : display_name s = InboxSpec.name_or_id s.
Proof.
  unfold display_name, name_or, InboxSpec.name_or_id.
  by destruct (name s) as [[| c n] |].
Qed.

(** X19: The search for spaces returns exactly the spaces whose name (the
    identifier when the name is missing or empty) contains the query, the
    case of both ignored, each as often as the list has it and in the order
    of the list; the empty query returns them all, and the case of the
    query makes no difference. *)
Theorem search_spaces_ignores_case all_spaces query :
  search_spaces all_spaces query
  = List.filter
      (fun s => contains (lower query) (lower (InboxSpec.name_or_id s)))
      all_spaces
  /\ search_spaces all_spaces EmptyString = all_spaces
  /\ search_spaces all_spaces (lower query) = search_spaces all_spaces query.
Proof.
  assert (Hloop : forall q,
             search_spaces all_spaces q
             = List.filter
                 (fun s => contains (lower q) (lower (InboxSpec.name_or_id s)))
                 all_spaces).
  { intros q. unfold search_spaces.
    rewrite (append_loop
               (fun s => contains (lower q) (lower (display_name s)))
               (fun s => s)).
    simpl. rewrite map_id. apply filter_ext. intros s.
    by rewrite display_name_or_id. }
  split; [apply Hloop |]. split.
  - rewrite Hloop. apply filter_all. intros s. apply contains_empty.
  - rewrite !Hloop. by rewrite lower_idempotent.
Qed.

End KnownSpacesProps.

(** ** Transport *)

Section TransportProps.
Import Py Transport.

Lemma lstrip_head p s c t :
  lstrip_by p s = String c t -> p c = false.
Proof.
  induction s as [| a s IH]; simpl; [done |].
  destruct (p a) eqn:Ha; [done |]. by intros [= <- _].
Qed.

Lemma rstrip_head p c t :
  p c = false -> exists t', rstrip_by p (String c t) = String c t'.
Proof.
  intros Hc. simpl. destruct (rstrip_by p t); [| eauto].
  rewrite Hc. eauto.
Qed.

Lemma strip_head s c t : strip s = String c t -> is_space_char c = false.
Proof.
  unfold strip.
  destruct (lstrip_by is_space_char s) as [| a u] eqn:Hl; [done |].
  apply lstrip_head in Hl.
  destruct (rstrip_head is_space_char a u Hl) as (t' & ->).
  by intros [= <- _].
Qed.

(** X20: The text parsed as JSON is the body without the leading characters of
    the anti-XSS prefix and without surrounding white space; it never begins
    with white space, so the test for a leading newline never fires. *)
Theorem cleaned_body_is_stripped body :
  cleaned_body body = strip (lstrip_chars (")]}'") body)
  /\ forall c t, cleaned_body body = String c t -> is_space_char c = false.
Proof.
  assert (Heq : cleaned_body body = strip (lstrip_chars (")]}'") body)).
  { unfold cleaned_body.
    destruct (strip (lstrip_chars (")]}'") body)) as [| c t] eqn:Hs; [done |].
    apply strip_head in Hs. cbv zeta.
    destruct (startswith newline (String c t)) eqn:Hp; [| reflexivity].
    exfalso. unfold startswith, newline in Hp. cbn [String.prefix] in Hp.
    destruct (Ascii.ascii_dec "010" c) as [<- | Hne];
      [by vm_compute in Hs | done]. }
  split; [exact Heq |]. rewrite Heq. intros c t. apply strip_head.
Qed.

End TransportProps.

(** ** Recent messages and local search *)

Lemma fold_left_inv {A B} (f : A -> B -> A) (I : A -> Prop) l :
  (forall a x, x ∈ l -> I a -> I (f a x)) ->
  forall a, I a -> I (fold_left f l a).
Proof.
  induction l as [| x l IH]; intros Hf a Ha; simpl; [done |].
  apply IH.
  - intros a0 y Hy. apply Hf. by apply list_elem_of_further.
  - apply Hf; [apply list_elem_of_here | done].
Qed.

Lemma take_upto_take {A} (n : Z) (l : list A) :
  exists k, ServerSearch.take_upto n l = take k l.
Proof. unfold ServerSearch.take_upto. destruct (0 <=? n); eauto. Qed.

Section InboxProps.
Import Py Spaces Inbox InboxSpec.
Variable strftime_usec : Z -> option string.

Lemma extract_messages_arr items depth messages :
  extract_messages strftime_usec (JArr items) depth messages =
  if Nat.ltb 25 depth then messages
  else
    let r :=
      fold_left
        (fun (r : fields * list message) item =>
           match item with
           | JStr s => (classify r.1 s, r.2)
           | JArr _ => (r.1, extract_messages strftime_usec item (S depth) r.2)
           | _ => r
           end) items (no_fields, messages) in
    save strftime_usec r.1 r.2.
Proof. reflexivity. Qed.

Lemma classify_ok f s : fields_ok f -> fields_ok (classify f s).
Proof.
  intros Hf. unfold classify.
  destruct (is_text s) eqn:Ht.
  - destruct (Z.ltb_spec (Z.of_nat (len s)) 50000); [| done].
    match goal with |- context [if ?c then _ else _] => destruct c end;
      [| done].
    intros t [= <-]. unfold is_text in Ht.
    apply andb_true_iff in Ht as [Ht Hd]. apply andb_true_iff in Ht as [Hl Hs].
    apply Nat.ltb_lt in Hl. apply negb_true_iff in Hd. by repeat split.
  - repeat (match goal with |- context [if ?c then _ else _] => destruct c end);
      done.
Qed.

Lemma any_text_false t messages :
  any_text t messages = false <-> t ∉ text <$> messages.
Proof.
  unfold any_text. induction messages as [| m ms IH].
  - split; [intros _ H; by apply elem_of_nil in H | done].
  - cbn [existsb]. rewrite fmap_cons, not_elem_of_cons, orb_false_iff, IH.
    split; intros [Hm Hrest]; (split; [| done]).
    + apply String.eqb_neq in Hm. congruence.
    + apply String.eqb_neq. congruence.
Qed.

Lemma save_ok f messages :
  fields_ok f -> inbox_ok messages -> inbox_ok (save strftime_usec f messages).
Proof.
  intros Hf [Hnd Hall]. unfold save.
  destruct (msg_text f) as [t |] eqn:Ht; [| done].
  destruct (str_truthy t && Nat.ltb 3 (len t) && negb (any_text t messages))
    eqn:Hc; [| done].
  apply andb_true_iff in Hc as [_ Hc]. apply negb_true_iff in Hc.
  apply any_text_false in Hc. split.
  - rewrite fmap_app. apply NoDup_app. split; [done |]. split.
    + intros x Hx Hin. simpl in Hin. apply list_elem_of_singleton in Hin.
      congruence.
    + apply NoDup_singleton.
  - apply Forall_app. split; [done |]. constructor; [| constructor].
    simpl. by apply Hf.
Qed.

Lemma extract_messages_ok arr :
  forall depth messages,
    inbox_ok messages ->
    inbox_ok (extract_messages strftime_usec arr depth messages).
Proof.
  induction arr as [| b | n | q | s | items IH | fields _] using json_ind';
    intros depth messages Hok;
    try (simpl; by destruct (Nat.ltb 25 depth)).
  rewrite extract_messages_arr.
  destruct (Nat.ltb 25 depth); [done |]. cbv zeta.
  match goal with
  | |- inbox_ok (save _ (fold_left ?f items ?a).1 _) =>
      assert (Hinv : fields_ok (fold_left f items a).1
                     /\ inbox_ok (fold_left f items a).2)
  end.
  { apply (fold_left_inv _
             (fun r : fields * list message => fields_ok r.1 /\ inbox_ok r.2)).
    - intros [f0 ms0] item Hitem [Hf0 Hms0]. simpl in *.
      destruct item; try done.
      + split; [by apply classify_ok | done].
      + split; [done |]. eapply Forall_forall in IH; [| exact Hitem].
        by apply IH.
    - split; [| done]. intros t Ht. done. }
  destruct Hinv. by apply save_ok.
Qed.

(** X21: The messages [get_messages] returns have pairwise distinct texts, each
    longer than 5 characters, shorter than 50000, with a space in it and not
    made of digits only; there are at most [limit] of them when [limit] is
    not negative. *)
Theorem get_messages_distinct_texts data limit :
  NoDup (text <$> get_messages_of strftime_usec data limit)
  /\ Forall (fun m => (5 < len (text m))%nat
                      /\ contains " " (text m) = true
                      /\ isdigit (text m) = false
                      /\ (Z.of_nat (len (text m)) < 50000)%Z)
       (get_messages_of strftime_usec data limit)
  /\ (0 <= limit ->
      (length (get_messages_of strftime_usec data limit) <= Z.to_nat limit)%nat).
Proof.
  unfold get_messages_of.
  destruct (extract_messages_ok data 0 []) as [Hnd Hall];
    [split; constructor |].
  destruct (take_upto_take limit
              (newest_first (extract_messages strftime_usec data 0 [])))
    as (k & Hk).
  split; [| split].
  - rewrite Hk, fmap_take. eapply sublist_NoDup; [| apply sublist_take].
    unfold newest_first. by rewrite sort_by_perm.
  - rewrite Hk. apply Forall_take. unfold newest_first.
    by rewrite sort_by_perm.
  - apply length_take_upto.
Qed.

Lemma search_in_space_loop messages query :
  search_in_space_of messages query
  = map (space_match query)
      (List.filter (fun m => contains (lower query) (lower (text m)))
         messages).
Proof.
  unfold search_in_space_of.
  by rewrite (append_loop
                (fun m => contains (lower query) (lower (text m)))
                (space_match query)).
Qed.

(** X22: The results of a search in a space are exactly the fetched messages
    whose text contains the query, the case of both ignored, each as often
    as it was fetched and in the order fetched.  For an ASCII text and an
    ASCII query the snippet of a result is a window of the text between two
    ellipses that contains the query and holds at most 100 characters more
    than it. *)
Theorem search_in_space_matches messages query :
  fst <$> search_in_space_of messages query
  = List.filter (fun m => contains (lower query) (lower (text m))) messages
  /\ forall m s,
       (m, s) ∈ search_in_space_of messages query ->
       isascii (text m) = true ->
       isascii query = true ->
       exists window,
         s = "..." +:+ window +:+ "..."
         /\ contains (lower query) (lower window) = true
         /\ (len window <= len query + 100)%nat.
Proof.
  rewrite search_in_space_loop. split.
  - generalize (List.filter
                  (fun m => contains (lower query) (lower (text m))) messages).
    intros l. induction l as [| m l IH]; [done |].
    cbn [map]. rewrite fmap_cons. by rewrite IH.
  - intros m s Hs Hm Hq.
    apply list_elem_of_In, in_map_iff in Hs as (m0 & Heq & Hm0).
    apply filter_In in Hm0 as [_ Hc].
    unfold space_match in Heq. injection Heq as -> <-.
    unfold contains in Hc.
    destruct (find (lower query) (lower (text m))) as [idx |] eqn:Hf;
      [| done].
    simpl. eexists. split; [reflexivity |]. split.
    + apply match_window; [done | done | by apply len_lower].
    + unfold slice, len. etransitivity; [apply length_substring_le |]. lia.
Qed.

Section AllSpacesProps.
Variable World : Type.
Variable get_messages : string -> Z -> World -> result (list message) * World.

Lemma found_in_ok query space m :
  isascii (text m) = true ->
  isascii query = true ->
  contains (lower query) (lower (text m)) = true ->
  contains (lower query) (lower (snippet (found_in query space m))) = true
  /\ (len (snippet (found_in query space m)) <= len query + 80)%nat.
Proof.
  intros Hm Hq Hc. unfold contains in Hc.
  destruct (find (lower query) (lower (text m))) as [idx |] eqn:Hf; [| done].
  unfold found_in. rewrite Hf. simpl. split.
  - apply match_window; [done | done | by apply len_lower].
  - unfold slice, len. etransitivity; [apply length_substring_le |]. lia.
Qed.

Lemma name_or_name_or_id space :
  KnownSpaces.name_or (name space) (id space) = name_or_id space.
Proof.
  unfold KnownSpaces.name_or, name_or_id.
  by destruct (name space) as [[| c n] |].
Qed.

(** X23: Every match of the search across spaces is a message whose text
    contains the query, ignoring case; it names one of the first
    [max_spaces] spaces as its space, with that space's name (its identifier
    when the name is missing or empty).  For an ASCII text and an ASCII
    query its snippet is a window of the text that contains the query and
    holds at most 80 characters more than it. *)
Theorem search_all_spaces_matches spaces query max_spaces per_space w f :
  f ∈ (search_all_spaces_of World get_messages spaces query max_spaces
         per_space w).1 ->
  contains (lower query) (lower (text (msg f))) = true
  /\ (exists space,
        space ∈ ServerSearch.take_upto max_spaces spaces
        /\ space_id f = id space
        /\ space_name f = name_or_id space)
  /\ (isascii (text (msg f)) = true ->
      isascii query = true ->
      contains (lower query) (lower (snippet f)) = true
      /\ (len (snippet f) <= len query + 80)%nat).
Proof.
  unfold search_all_spaces_of. cbv zeta. cbn [fst].
  rewrite elem_of_sort_by. revert f. apply Forall_forall.
  apply (fold_left_inv _
           (fun r : list found * World =>
              Forall (fun f =>
                contains (lower query) (lower (text (msg f))) = true
                /\ (exists space,
                      space ∈ ServerSearch.take_upto max_spaces spaces
                      /\ space_id f = id space
                      /\ space_name f = name_or_id space)
                /\ (isascii (text (msg f)) = true ->
                    isascii query = true ->
                    contains (lower query) (lower (snippet f)) = true
                    /\ (len (snippet f) <= len query + 80)%nat)) r.1));
    [| constructor].
  intros [fs w0] space Hspace Hfs. unfold search_space. simpl.
  destruct (get_messages (id space) per_space w0) as [[msgs | e] w1];
    simpl; [| done].
  rewrite (append_loop
             (fun m => contains (lower query) (lower (text m)))
             (found_in query space)).
  apply Forall_app. split; [done |].
  apply Forall_forall. intros f Hf.
  apply list_elem_of_In, in_map_iff in Hf as (m & <- & Hm).
  apply filter_In in Hm as [_ Hc].
  split; [done |]. split.
  - exists space. split; [done |]. split; [done |].
    apply name_or_name_or_id.
  - intros Hm Hq. by apply found_in_ok.
Qed.

End AllSpacesProps.
End InboxProps.

Section InboxSamples.
Import Py Spaces Inbox InboxSpec.

Lemma search_in_space_matches_witness :
  exists window,
    (space_match "deploy" deploy_message).2 = "..." +:+ window +:+ "..."
    /\ contains (lower "deploy") (lower window) = true
    /\ (len window <= len "deploy" + 100)%nat.
Proof.
  apply (proj2 (search_in_space_matches two_messages "deploy")
           deploy_message); [| reflexivity | reflexivity].
  vm_compute. apply list_elem_of_here.
Defined.

Lemma search_all_spaces_matches_witness :
  contains (lower "deploy")
    (lower (text (msg (found_in "deploy" team_space deploy_message)))) = true
  /\ (exists space,
        space ∈ ServerSearch.take_upto 10 [team_space]
        /\ space_id (found_in "deploy" team_space deploy_message) = id space
        /\ space_name (found_in "deploy" team_space deploy_message)
           = name_or_id space)
  /\ (isascii (text (msg (found_in "deploy" team_space deploy_message)))
      = true ->
      isascii "deploy" = true ->
      contains (lower "deploy")
        (lower (snippet (found_in "deploy" team_space deploy_message)))
      = true
      /\ (len (snippet (found_in "deploy" team_space deploy_message))
          <= len "deploy" + 80)%nat).
Proof.
  apply (search_all_spaces_matches unit same_inbox [team_space] "deploy" 10
           50 tt).
  vm_compute. apply list_elem_of_here.
Defined.

(** The search for [deploy] among the two sample messages finds one. *)
Example deploy_found_once :
  map (fun r => text r.1) (search_in_space_of two_messages "deploy")
  = ["We will deploy tonight"].
Proof. reflexivity. Qed.

End InboxSamples.

(** ** Group info *)

Section GroupProps.
Import Py Group.

Lemma py_len_Throw x e : py_len x = Throw e -> e = PyTypeError.
Proof. destruct x; simpl; congruence. Qed.

Lemma py_item_key_error x i :
  py_item x i = Throw PyKeyError -> exists fields, x = JObj fields.
Proof.
  destruct x; simpl; try congruence; eauto.
  - destruct (String.get i s); congruence.
  - destruct (items !! i); congruence.
Qed.

Lemma py_item_list x i v :
  py_item x i = Return v ->
  (exists items, x = JArr items /\ items !! i = Some v)
  \/ (exists s c, x = JStr s /\ v = JStr (String c EmptyString)).
Proof.
  destruct x; simpl; try congruence.
  - destruct (String.get i s) eqn:Hi; [| congruence].
    intros [= <-]. right. eauto.
  - destruct (items !! i) eqn:Hi; [| congruence].
    intros [= <-]. left. eauto.
Qed.

Lemma group_of_key_error sid data :
  group_of sid data = Throw PyKeyError ->
  (exists fields, data = JObj fields)
  \/ (exists fields rest, data = JArr (JObj fields :: rest))
  \/ (exists x fields r1 r2,
        data = JArr (JArr (x :: JObj fields :: r1) :: r2)).
Proof.
  unfold group_of. destruct (negb (truthy data)); [done |].
  destruct (py_len data) as [n | e] eqn:Hn; simpl;
    [| intros [= ->]; by apply py_len_Throw in Hn].
  destruct (negb (Nat.ltb 0 n)); [done |].
  destruct (py_item data 0) as [d0 | e] eqn:H0; simpl;
    [| intros [= ->]; left; by eapply py_item_key_error].
  destruct (py_len d0) as [n0 | e] eqn:Hn0; simpl;
    [| intros [= ->]; by apply py_len_Throw in Hn0].
  destruct (negb (Nat.ltb 1 n0)); [done |].
  destruct (py_item d0 1) as [gd | e] eqn:H1; simpl.
  - destruct (py_len gd) as [ng | e] eqn:Hng; simpl;
      [| intros [= ->]; by apply py_len_Throw in Hng].
    destruct (Nat.ltb 1 ng); simpl; [| done].
    destruct (py_item gd 1) as [nm | e] eqn:H2; simpl; [done |].
    intros [= ->]. apply py_item_key_error in H2 as (fields & ->).
    apply py_item_list in H1
      as [(items0 & -> & Hi1) | (s & c & _ & Hs)]; [| done].
    apply py_item_list in H0 as [(items & -> & Hi0) | (s & c & _ & Hs)];
      [| done].
    right. right.
    destruct items as [| a items]; [done |]. injection Hi0 as ->.
    destruct items0 as [| x [| y r1]]; try done. injection Hi1 as ->.
    by exists x, fields, r1, items.
  - intros [= ->]. apply py_item_key_error in H1 as (fields & ->).
    apply py_item_list in H0 as [(items & -> & Hi0) | (s & c & _ & Hs)];
      [| done].
    right. left. destruct items as [| a items]; [done |].
    injection Hi0 as ->. by exists fields, items.
Qed.

(** X24: [get_group] turns every [IndexError] and [TypeError] of its look-ups
    into the fallback record; what it lets out is [KeyError], and only with
    a dict as the response, as its first element, or as the second element
    of its first element.  A record it returns carries the space identifier
    it was asked for. *)
Theorem get_group_raises_only_on_dict sid data :
  (forall e,
      get_group_of sid data = Throw e ->
      e = PyKeyError
      /\ ((exists fields, data = JObj fields)
          \/ (exists fields rest, data = JArr (JObj fields :: rest))
          \/ (exists x fields r1 r2,
                data = JArr (JArr (x :: JObj fields :: r1) :: r2))))
  /\ (forall i, get_group_of sid data = Return i -> space_id i = sid).
Proof.
  unfold get_group_of. split.
  - intros e He.
    destruct (group_of sid data) as [[i |] | []] eqn:Hg; try done.
    injection He as <-. split; [done |]. by eapply group_of_key_error.
  - intros i Hi.
    destruct (group_of sid data) as [[i0 |] | []] eqn:Hg; try done;
      try by injection Hi as <-.
    injection Hi as <-. unfold group_of in Hg.
    destruct (negb (truthy data)); [done |].
    destruct (py_len data) as [n |]; simpl in Hg; [| done].
    destruct (negb (Nat.ltb 0 n)); [done |].
    destruct (py_item data 0) as [d0 |]; simpl in Hg; [| done].
    destruct (py_len d0) as [n0 |]; simpl in Hg; [| done].
    destruct (negb (Nat.ltb 1 n0)); [done |].
    destruct (py_item d0 1) as [gd |]; simpl in Hg; [| done].
    destruct (py_len gd) as [ng |]; simpl in Hg; [| done].
    destruct (if Nat.ltb 1 ng then py_item gd 1 else Return (JStr "Unknown"))
      as [nm |]; simpl in Hg; [| done].
    by injection Hg as <-.
Qed.

Lemma get_group_raises_only_on_dict_witness :
  PyKeyError = PyKeyError
  /\ ((exists fields, LastSamples.dict_response = JObj fields)
      \/ (exists fields rest,
            LastSamples.dict_response = JArr (JObj fields :: rest))
      \/ (exists x fields r1 r2,
            LastSamples.dict_response
            = JArr (JArr (x :: JObj fields :: r1) :: r2))).
Proof.
  apply (proj1 (get_group_raises_only_on_dict "AAAA1234567"
                  LastSamples.dict_response) PyKeyError).
  reflexivity.
Defined.

End GroupProps.

(** ** Threads on display *)

Section ThreadsProps.
Import Py Topics TopicsSpec Threads.

Lemma append_to_keys k m topics :
  (fst <$> append_to k m topics)
  = if bool_decide (k ∈ fst <$> topics) then fst <$> topics
    else (fst <$> topics) ++ [k].
Proof.
  induction topics as [| [k' ms] rest IH]; [done |].
  cbn [append_to]. destruct (String.eqb_spec k k') as [-> | Hne];
    rewrite !fmap_cons; cbn [fst].
  - rewrite bool_decide_eq_true_2; [done | apply list_elem_of_here].
  - rewrite IH. case_bool_decide as Hin.
    + rewrite bool_decide_eq_true_2; [done | by apply list_elem_of_further].
    + rewrite bool_decide_eq_false_2; [done |].
      intros [? | ?]%elem_of_cons; done.
Qed.

Lemma append_to_concat k m topics :
  concat (snd <$> append_to k m topics) ≡ₚ m :: concat (snd <$> topics).
Proof.
  induction topics as [| [k' ms] rest IH]; [done |].
  cbn [append_to]. destruct (String.eqb k k'); rewrite !fmap_cons;
    cbn [snd concat].
  - rewrite <- app_assoc. simpl. by rewrite <- Permutation_middle.
  - rewrite IH. by rewrite Permutation_middle.
Qed.

Lemma append_to_groups k m topics :
  thread_key m = k ->
  Forall (fun kv => kv.2 <> [] /\ Forall (fun x => thread_key x = kv.1) kv.2)
    topics ->
  Forall (fun kv => kv.2 <> [] /\ Forall (fun x => thread_key x = kv.1) kv.2)
    (append_to k m topics).
Proof.
  intros Hk. induction 1 as [| [k' ms] rest [Hne Hall] Hrest IH]; simpl.
  - repeat constructor; done.
  - destruct (String.eqb_spec k k') as [<- | Hneq].
    + constructor; [| done]. simpl in *. split.
      * by destruct ms.
      * apply Forall_app. split; [done |]. by constructor.
    + constructor; done.
Qed.

Lemma elem_of_concat {A} (x : A) (ls : list (list A)) :
  x ∈ concat ls <-> exists l, x ∈ l /\ l ∈ ls.
Proof.
  induction ls as [| l ls IH]; simpl.
  - split; [by intros ?%elem_of_nil |]. by intros (l & _ & ?%elem_of_nil).
  - rewrite elem_of_app, IH. split.
    + intros [H | (l' & H & Hl')].
      * exists l. split; [done | apply list_elem_of_here].
      * exists l'. split; [done | by apply list_elem_of_further].
    + intros (l' & H & [-> | Hl']%elem_of_cons); [by left |].
      right. by exists l'.
Qed.

Lemma group_by_topic_ok messages :
  NoDup (fst <$> group_by_topic messages)
  /\ concat (snd <$> group_by_topic messages) ≡ₚ messages
  /\ Forall (fun kv => kv.2 <> []
                       /\ Forall (fun x => thread_key x = kv.1) kv.2)
       (group_by_topic messages).
Proof.
  unfold group_by_topic.
  assert (Hgen : forall topics,
             NoDup (fst <$> topics) ->
             Forall (fun kv => kv.2 <> []
                               /\ Forall (fun x => thread_key x = kv.1) kv.2)
               topics ->
             let r := fold_left
                        (fun topics m => append_to (thread_key m) m topics)
                        messages topics in
             NoDup (fst <$> r)
             /\ concat (snd <$> r) ≡ₚ concat (snd <$> topics) ++ messages
             /\ Forall (fun kv => kv.2 <> []
                                  /\ Forall (fun x => thread_key x = kv.1) kv.2)
                  r).
  { induction messages as [| m ms IH]; intros topics Hnd Hall; simpl.
    - by rewrite app_nil_r.
    - destruct (IH (append_to (thread_key m) m topics)) as (Hn & Hp & Hf).
      + rewrite append_to_keys. case_bool_decide; [done |].
        apply NoDup_app. split; [done |]. split; [| apply NoDup_singleton].
        intros x Hx Hin. apply list_elem_of_singleton in Hin. congruence.
      + by apply append_to_groups.
      + split; [done |]. split; [| done].
        rewrite Hp, append_to_concat. simpl. apply Permutation_middle. }
  destruct (Hgen []) as (Hn & Hp & Hf); [constructor | constructor |].
  by repeat split.
Qed.

(** X25: The display groups the messages by topic identifier: each identifier
    heads one group, every message is in exactly one group, the one of its
    own identifier ("unknown" when it has none), no group is empty, and each
    group is in non-decreasing order of timestamp. *)
Theorem threads_partition_messages messages :
  NoDup (fst <$> threads messages)
  /\ concat (snd <$> threads messages) ≡ₚ messages
  /\ Forall (fun kv =>
               kv.2 <> []
               /\ Forall (fun m => thread_key m = kv.1) kv.2
               /\ StronglySorted
                    (fun a b => default 0 (timestamp_usec a)
                                <= default 0 (timestamp_usec b)) kv.2)
       (threads messages).
Proof.
  destruct (group_by_topic_ok messages) as (Hn & Hp & Hf).
  unfold threads. split; [| split].
  - rewrite <- list_fmap_compose.
    replace (fst ∘ (fun kv : string * list message => (kv.1, sorted_asc kv.2)))
      with (@fst string (list message)) by done.
    exact Hn.
  - etrans; [| exact Hp]. clear Hn Hp Hf.
    induction (group_by_topic messages) as [| [k ms] rest IH]; [done |].
    cbn [map]. rewrite !fmap_cons. cbn [snd concat].
    apply Permutation_app; [| exact IH]. unfold sorted_asc. apply sort_by_perm.
  - apply Forall_fmap. eapply Forall_impl; [exact Hf |].
    intros [k ms] [Hne Hall]. simpl in *. split; [| split].
    + intros Hnil. apply Hne. apply Permutation_nil_r.
      rewrite <- Hnil. unfold sorted_asc. by rewrite sort_by_perm.
    + unfold sorted_asc. by rewrite sort_by_perm.
    + apply sorted_asc_sorted.
Qed.

(** X26: On a page of the parser the groups are the topics: every message sits
    in the group headed by its own topic identifier, never in a group of the
    placeholder for a missing one. *)
Theorem threads_of_a_page strftime_usec the_space_id data p k ms m :
  _parse_topics_with_threads strftime_usec the_space_id data = Ok p ->
  (k, ms) ∈ threads (messages p) ->
  m ∈ ms ->
  topic_id m = Some k /\ m ∈ messages p.
Proof.
  intros Hp Hk Hm.
  destruct (group_by_topic_ok (messages p)) as (_ & Hperm & Hall).
  unfold threads in Hk.
  apply list_elem_of_fmap in Hk as ([k0 ms0] & [= -> ->] & Hk). simpl in Hm.
  unfold sorted_asc in Hm. apply elem_of_sort_by in Hm.
  eapply Forall_forall in Hall; [| exact Hk]. destruct Hall as (_ & Hkey).
  eapply Forall_forall in Hkey; [| exact Hm]. simpl in Hkey.
  assert (Hin : m ∈ messages p).
  { rewrite <- Hperm. apply elem_of_concat. exists ms0. split; [done |].
    apply list_elem_of_fmap. by exists (k0, ms0). }
  split; [| done].
  apply parse_acc in Hp as (st & [Htopics Hmsgs] & _ & Hms & _).
  rewrite Hms in Hin. apply elem_of_dedupe_by, elem_of_sort_by in Hin.
  destruct (Hmsgs m Hin) as (t & Ht & Hrep).
  eapply Forall_forall in Htopics; [| exact Ht].
  destruct Htopics as (_ & Htruthy & _ & _ & Hidx).
  apply list_elem_of_lookup_1 in Hrep as [i Hi].
  destruct (Hidx i m Hi) as (_ & _ & Htid).
  unfold thread_key in Hkey. rewrite Htid, Htruthy in Hkey. congruence.
Qed.

End ThreadsProps.

Section ThreadsSamples.
Import Py Topics Threads Samples.

Lemma threads_of_a_page_witness :
  topic_id first_message = Some "T1" /\ first_message ∈ messages parsed.
Proof.
  apply (threads_of_a_page no_format "S" response parsed "T1"
           (sorted_asc (messages parsed)) first_message).
  - reflexivity.
  - vm_compute. apply list_elem_of_here.
  - vm_compute. apply list_elem_of_further, list_elem_of_here.
Defined.

End ThreadsSamples.

(** ** Cookie choice *)

Section Choice.
Import Cookies.
Context (keep : gmap string string -> cookie -> gmap string string).
Context (k : string) (force any : cookie -> Prop).
Context `{!forall c, Decision (force c)} `{!forall c, Decision (any c)}.
Hypothesis keep_force :
  forall acc c, force c -> keep acc c !! k = Some (value c).
Hypothesis keep_soft :
  forall acc c, ~ force c -> any c ->
    keep acc c !! k
    = match acc !! k with Some v => Some v | None => Some (value c) end.
Hypothesis keep_skip :
  forall acc c, ~ force c -> ~ any c -> keep acc c !! k = acc !! k.

(** A loop that overwrites on [force] and fills in on [any]. *)
Lemma fold_choice jar acc :
  fold_left keep jar acc !! k
  = match last (filter force jar) with
    | Some c => Some (value c)
    | None =>
        match acc !! k with
        | Some v => Some v
        | None => value <$> head (filter any jar)
        end
    end.
Proof.
  revert acc. induction jar as [| c jar IH]; intros acc.
  - simpl. by destruct (acc !! k).
  - cbn [fold_left]. rewrite IH. destruct (decide (force c)) as [Hf | Hf].
    + rewrite (filter_cons_True force) by done. rewrite last_cons.
      rewrite keep_force by done. by destruct (last (filter force jar)).
    + rewrite (filter_cons_False force) by done.
      destruct (last (filter force jar)); [done |].
      destruct (decide (any c)) as [Ha | Ha].
      * rewrite keep_soft by done. rewrite (filter_cons_True any) by done.
        by destruct (acc !! k).
      * rewrite keep_skip by done. by rewrite (filter_cons_False any).
Qed.

End Choice.

Section CookiesProps.
Import Py Cookies CookiesSpec.

Lemma filter_none {A} (l : list A) : filter (fun _ => False) l = [].
Proof.
  induction l as [| x l IH]; [done |]. by rewrite filter_cons_False by tauto.
Qed.

Lemma google_domain_truthy d :
  contains "google.com" d = true -> str_truthy d = true.
Proof. by destruct d. Qed.

Lemma insert_absent (cookies : gmap string string) k v :
  ~ is_Some (cookies !! k) ->
  <[k := v]> cookies !! k
  = match cookies !! k with Some w => Some w | None => Some v end.
Proof.
  intros Hn. rewrite lookup_insert_eq. destruct (cookies !! k) eqn:E; [| done].
  destruct Hn. by eexists.
Qed.

Lemma keep_present (cookies : gmap string string) k v :
  is_Some (cookies !! k) ->
  cookies !! k
  = match cookies !! k with Some w => Some w | None => Some v end.
Proof. by intros [w ->]. Qed.

(** X27: From the Chrome jar [get_google_cookies] keeps, under each name, the
    value of the last cookie of that name on the preferred domain
    ([chat.google.com] for [OSID], [.google.com] for every other name) and,
    when no cookie of that name is on it, the value of the first cookie of
    that name; a name no cookie has is absent. *)
Theorem get_google_cookies_choice jar k :
  get_google_cookies jar !! k
  = last_or_first (named_on k (preferred k) jar) (named k jar).
Proof.
  unfold get_google_cookies, last_or_first, named_on, named.
  rewrite (fold_choice Cookies.keep k
             (fun c => name c = k /\ domain c = preferred k)
             (fun c => name c = k)).
  - by rewrite lookup_empty.
  - intros acc c [<- Hd]. unfold Cookies.keep, preferred in *.
    destruct (String.eqb (name c) "OSID"); rewrite Hd; simpl;
      apply lookup_insert_eq.
  - intros acc c Hf <-. unfold Cookies.keep, preferred in *.
    assert (Hd : String.eqb (domain c)
                   (if String.eqb (name c) "OSID" then "chat.google.com"
                    else ".google.com") = false).
    { apply String.eqb_neq. intros Hd. by apply Hf. }
    destruct (String.eqb (name c) "OSID"); rewrite Hd; simpl;
      case_bool_decide; simpl;
      first [by apply keep_present | by apply insert_absent].
  - intros acc c _ Hne. unfold Cookies.keep.
    destruct (String.eqb (name c) "OSID");
      match goal with |- context [if ?b then _ else _] => destruct b end;
      by rewrite ?lookup_insert_ne.
Qed.

(** X28: From the same jar [get_cookies] of [fetch_messages.py] takes [OSID]
    from [chat.google.com] only (the last such cookie, none otherwise),
    [COMPASS] from the last cookie on [chat.google.com] or else from the
    first one on a domain that mentions [google.com], and every other name
    from the first cookie on such a domain. *)
Theorem get_cookies_choice jar k :
  FetchCookies.get_cookies jar !! k
  = if String.eqb k "OSID"
    then value <$> last (named_on k "chat.google.com" jar)
    else if String.eqb k "COMPASS"
    then last_or_first (named_on k "chat.google.com" jar) (named_google k jar)
    else value <$> head (named_google k jar).
Proof.
  unfold FetchCookies.get_cookies, last_or_first, named_on, named_google.
  destruct (String.eqb_spec k "OSID") as [-> | Hosid];
    [| destruct (String.eqb_spec k "COMPASS") as [-> | Hcompass]].
  - rewrite (fold_choice FetchCookies.keep "OSID"
               (fun c => name c = "OSID" /\ domain c = "chat.google.com")
               (fun c => name c = "OSID" /\ domain c = "chat.google.com")).
    + rewrite lookup_empty.
      destruct (filter _ jar) as [| c l] eqn:E; [done |].
      rewrite last_cons. by destruct (last l).
    + intros acc c [Hn Hd]. unfold FetchCookies.keep. rewrite Hn, Hd. simpl.
      rewrite <- Hn. apply lookup_insert_eq.
    + done.
    + intros acc c Hf _. unfold FetchCookies.keep.
      destruct (str_truthy (domain c) && contains "google.com" (domain c));
        [| done].
      destruct (String.eqb_spec (name c) "OSID") as [Hn | Hn].
      * destruct (String.eqb_spec (domain c) "chat.google.com"); [| done].
        by destruct Hf.
      * destruct (String.eqb (name c) "COMPASS");
          match goal with |- context [if ?b then _ else _] => destruct b end;
          by rewrite ?lookup_insert_ne.
  - rewrite (fold_choice FetchCookies.keep "COMPASS"
               (fun c => name c = "COMPASS" /\ domain c = "chat.google.com")
               (fun c => name c = "COMPASS"
                         /\ contains "google.com" (domain c) = true)).
    + by rewrite lookup_empty.
    + intros acc c [Hn Hd]. unfold FetchCookies.keep. rewrite Hn, Hd. simpl.
      rewrite <- Hn. apply lookup_insert_eq.
    + intros acc c Hf [Hn Hg]. unfold FetchCookies.keep.
      rewrite Hg, (google_domain_truthy _ Hg), Hn. simpl.
      destruct (String.eqb_spec (domain c) "chat.google.com") as [Hd | Hd];
        [by destruct Hf |].
      simpl. rewrite <- Hn. case_bool_decide; simpl;
        first [by apply keep_present | by apply insert_absent].
    + intros acc c _ Ha. unfold FetchCookies.keep.
      destruct (contains "google.com" (domain c)) eqn:Hg;
        [| by rewrite andb_false_r].
      rewrite (google_domain_truthy _ Hg). simpl.
      destruct (String.eqb_spec (name c) "OSID") as [Hn | Hn].
      * destruct (String.eqb (domain c) "chat.google.com"); [| done].
        rewrite lookup_insert_ne; [done | by rewrite Hn].
      * destruct (String.eqb_spec (name c) "COMPASS") as [Hn' | Hn'];
          [by destruct Ha |].
        destruct (negb _); [| done].
        by rewrite lookup_insert_ne.
  - rewrite (fold_choice FetchCookies.keep k
               (fun _ => False)
               (fun c => name c = k
                         /\ contains "google.com" (domain c) = true)).
    + by rewrite filter_none, lookup_empty.
    + done.
    + intros acc c _ [Hn Hg]. unfold FetchCookies.keep.
      rewrite Hg, (google_domain_truthy _ Hg). simpl.
      destruct (String.eqb_spec (name c) "OSID") as [Hn' | _]; [congruence |].
      destruct (String.eqb_spec (name c) "COMPASS") as [Hn' | _];
        [congruence |].
      rewrite <- Hn. case_bool_decide; simpl;
        first [by apply keep_present | by apply insert_absent].
    + intros acc c _ Ha. unfold FetchCookies.keep.
      destruct (contains "google.com" (domain c)) eqn:Hg;
        [| by rewrite andb_false_r].
      assert (Hn : name c <> k) by (intros Hn; by apply Ha).
      rewrite (google_domain_truthy _ Hg). simpl.
      destruct (String.eqb (name c) "OSID");
        [| destruct (String.eqb (name c) "COMPASS")];
        match goal with |- context [if ?b then _ else _] => destruct b end;
        by rewrite ?lookup_insert_ne.
Qed.

End CookiesProps.

(** ** Deduplication *)

Section DedupeClaim.
Import Py Topics TopicsSpec Pagination PaginationSpec.

(** The flat list is gathered topic by topic. *)
Lemma add_topic_flat the_space_id tid ts found st :
  acc_messages st = concat (replies <$> acc_topics st) ->
  acc_messages (add_topic the_space_id tid ts found st)
  = concat (replies <$> acc_topics (add_topic the_space_id tid ts found st)).
Proof.
  intros Hst. unfold add_topic.
  destruct tid as [t |]; [| done]. destruct found as [| m0 found]; [done |].
  destruct (str_truthy t); [| done]. cbn [acc_messages acc_topics].
  rewrite fmap_app, concat_app, Hst. cbn [fmap list_fmap replies concat].
  by rewrite app_nil_r.
Qed.

(** C5: within a page no two messages of the flat list share the first 100
    characters of their text, every message of a topic of the page has a
    message with the same 100 characters in the flat list, the flat list
    holds messages of the topics only, and the deduplication run on its own
    result changes nothing.  Across pages the result of [get_all_messages]
    holds no two messages with the same key (the message identifier, or the
    first 50 characters of the text when there is none), only messages of
    the pages, one for every key of the pages, and deduplicating it again
    changes nothing. *)
Theorem dedupe_within_and_across_pages :
  (forall strftime_usec the_space_id data p,
      _parse_topics_with_threads strftime_usec the_space_id data = Ok p ->
      NoDup ((fun m => slice 0 100 (text m)) <$> messages p)
      /\ (forall t m,
            t ∈ topics p -> m ∈ replies t ->
            exists m', m' ∈ messages p
                       /\ slice 0 100 (text m') = slice 0 100 (text m))
      /\ (forall m, m ∈ messages p ->
                    exists t, t ∈ topics p /\ m ∈ replies t)
      /\ dedupe ∅ (messages p) = messages p)
  /\ (forall World fetch_page max_pages w unique w',
        get_all_messages_with World fetch_page max_pages w = (Ok unique, w') ->
        let all_messages :=
          concat (map messages
                    (fetched_pages World fetch_page (Z.to_nat max_pages)
                       None w)) in
        NoDup (id_or_prefix <$> unique)
        /\ (forall m, m ∈ unique -> m ∈ all_messages)
        /\ (forall m, m ∈ all_messages ->
                      exists m', m' ∈ unique
                                 /\ id_or_prefix m' = id_or_prefix m)
        /\ dedupe_all ∅ unique = unique).
Proof.
  split.
  - intros strftime_usec the_space_id data p Hp.
    apply (parse_inv strftime_usec the_space_id
             (fun st => acc_messages st = concat (replies <$> acc_topics st)))
      in Hp as (st & Hflat & Ht & Hm & _);
      [| intros tid ts found st0 Hst0 _; by apply add_topic_flat | done].
    rewrite Hm, Ht. split; [| split; [| split]].
    + apply (dedupe_by_nodup text_key).
    + intros t m Hin Hrep.
      assert (Hacc : m ∈ sorted_desc (acc_messages st)).
      { apply elem_of_sort_by. rewrite Hflat. apply elem_of_concat.
        exists (replies t). split; [done |]. by apply list_elem_of_fmap_2. }
      destruct (dedupe_by_covers text_key _ ∅ m Hacc) as (m' & Hm' & Hk);
        [set_solver |].
      by exists m'.
    + intros m Hin. apply elem_of_dedupe_by, elem_of_sort_by in Hin.
      rewrite Hflat in Hin. apply elem_of_concat in Hin as (l & Hl & Hin).
      apply list_elem_of_fmap in Hin as (t & -> & Hin). by exists t.
    + apply dedupe_by_idempotent.
  - intros World fetch_page max_pages w unique w' Hrun all_messages.
    unfold get_all_messages_with in Hrun.
    destruct (page_loop World fetch_page (Z.to_nat max_pages) None [] w)
      as [[all | e] w1] eqn:Hloop; simpl in Hrun; [| discriminate].
    injection Hrun as <- <-.
    apply page_loop_concat in Hloop. simpl in Hloop. fold all_messages in Hloop.
    subst all. unfold dedupe_all. split; [| split; [| split]].
    + rewrite <- fmap_page_key. apply dedupe_by_nodup.
    + intros m. apply elem_of_dedupe_by.
    + intros m Hm.
      destruct (dedupe_by_covers page_key all_messages ∅ m Hm)
        as (m' & Hm' & Hk); [set_solver |].
      exists m'. split; [done |]. by rewrite <- !page_key_id_or_prefix.
    + apply dedupe_by_idempotent.
Qed.

End DedupeClaim.

Section DedupeSamples.
Import Py Topics Pagination PaginationSpec Samples.

(** Of the two messages with the same text the page keeps one; of the five
    messages of the two pages three are kept. *)
Example echo_deduplicated :
  length (topics echo_parsed) = 2%nat
  /\ text <$> messages echo_parsed = ["hello world"]
  /\ message_id <$> messages echo_parsed = [Some "M3"].
Proof. by vm_compute. Qed.

Example two_pages_deduplicated :
  (get_all_messages_with unit two_pages 10 tt).1
  = Ok [sample_message (Some "M1") "hello world" 9;
        sample_message None "no identifier here" 8;
        sample_message (Some "M4") "hello world" 5].
Proof. by vm_compute. Qed.

Lemma dedupe_within_and_across_pages_witness :
  (NoDup ((fun m => slice 0 100 (text m)) <$> messages echo_parsed)
   /\ (forall t m,
         t ∈ topics echo_parsed -> m ∈ replies t ->
         exists m', m' ∈ messages echo_parsed
                    /\ slice 0 100 (text m') = slice 0 100 (text m))
   /\ (forall m, m ∈ messages echo_parsed ->
                 exists t, t ∈ topics echo_parsed /\ m ∈ replies t)
   /\ dedupe ∅ (messages echo_parsed) = messages echo_parsed)
  /\ (let unique :=
        [sample_message (Some "M1") "hello world" 9;
         sample_message None "no identifier here" 8;
         sample_message (Some "M4") "hello world" 5] in
      let all_messages :=
        concat (map messages
                  (fetched_pages unit two_pages (Z.to_nat 10) None tt)) in
      NoDup (id_or_prefix <$> unique)
      /\ (forall m, m ∈ unique -> m ∈ all_messages)
      /\ (forall m, m ∈ all_messages ->
                    exists m', m' ∈ unique
                               /\ id_or_prefix m' = id_or_prefix m)
      /\ dedupe_all ∅ unique = unique).
Proof.
  split.
  - apply (proj1 dedupe_within_and_across_pages
             no_format "S" echo_response echo_parsed).
    reflexivity.
  - apply (proj2 dedupe_within_and_across_pages unit two_pages 10 tt _ tt).
    reflexivity.
Defined.

End DedupeSamples.
